(** * The dkr pull orchestrator of systemd-import (src/import/import-dkr.c)

    A shallow embedding of [import-dkr.c]: the two payload parsers, the
    progress formulas, and the callbacks that drive a pull
    ([dkr_import_pull], [dkr_import_job_on_finished],
    [dkr_import_job_on_open_disk], [dkr_import_job_on_progress],
    [dkr_import_job_on_header], [dkr_import_unref]).

    Conventions.
    - C [int] results are [Z]; a negative value is [-errno].
    - [char *] is [option string] where the code tests it against NULL and
      [string] otherwise; a [char **] string vector is [list string] (NULL
      and the empty vector are both [[]], as [strv_isempty] treats them).
    - Memory allocation ([strdup], [strjoin], [GREEDY_REALLOC],
      [curl_slist_new], [import_job_new], [tempfn_random]) succeeds.
    - Functions of other translation units (the JSON tokenizer, the
      identifier predicates, the file system and process helpers, the HTTP
      job) are parameters, bundled in the classes [JsonTokenizer],
      [Predicates] and [System]. *)

From Stdlib Require Import ZArith List String Ascii Bool Lia Sorted.
Import ListNotations.
Open Scope string_scope.
Open Scope Z_scope.

(** ** errno values used by the file (Linux, asm-generic/errno*.h) *)

Definition ENOENT : Z := 2.
Definition EBUSY : Z := 16.
Definition EEXIST : Z := 17.
Definition EINVAL : Z := 22.
Definition EFBIG : Z := 27.
Definition EBADMSG : Z := 74.

(** #define LAYERS_MAX 2048 *)
Definition LAYERS_MAX : Z := 2048.

(** ** String vectors (strv.h) *)

(** Modelled from the spec: [strv_isempty] of strv.h, which is not among
    the sources; "the array must be non-empty" (section 4.2). *)
Definition strv_isempty (l : list string) : bool :=
  match l with [] => true | _ => false end.

(** Modelled from the spec: [strv_is_uniq] of strv.c, which is not among
    the sources; "uniquely-valued" (section 4.2): no entry occurs again
    further on. *)
Fixpoint strv_is_uniq (l : list string) : bool :=
  match l with
  | [] => true
  | s :: l' => negb (existsb (String.eqb s) l') && strv_is_uniq l'
  end.

(** Modelled from the spec: [strv_reverse] of strv.c, which is not among
    the sources; "the returned sequence is reversed" (section 4.2). *)
Definition strv_reverse (l : list string) : list string := rev l.

(** [strv_length]. *)
Definition strv_length (l : list string) : Z := Z.of_nat (List.length l).

(** [memchr(payload, 0, size)] as a test: does the payload hold a NUL? *)
Fixpoint memchr_nul (payload : string) : bool :=
  match payload with
  | EmptyString => false
  | String c rest => Ascii.eqb c Ascii.zero || memchr_nul rest
  end.

(** ** The JSON tokenizer interface (json.h) *)

(** The token kinds of json.h; [JSON_STRING] carries the string the
    tokenizer hands back through its [ret_string] argument. *)
Inductive json_token : Type :=
| JSON_END
| JSON_COLON
| JSON_COMMA
| JSON_OBJECT_OPEN
| JSON_OBJECT_CLOSE
| JSON_ARRAY_OPEN
| JSON_ARRAY_CLOSE
| JSON_STRING (str : string)
| JSON_REAL
| JSON_INTEGER
| JSON_BOOLEAN
| JSON_NULL.

(** [json_tokenize(&p, &str, &v, &json_state, NULL)]: [inl t] is a negative
    return value [t]; [inr (t, p', state')] a token with the advanced
    read pointer and tokenizer state. json.c is not among the sources. *)
Class JsonTokenizer : Type := {
  json_state : Type;
  json_state_null : json_state;
  json_tokenize : string -> json_state -> Z + (json_token * string * json_state)
}.

(** The identifier and URL predicates of import-util.c and util.c, which
    are not among the sources. *)
Class Predicates : Type := {
  dkr_id_is_valid : string -> bool;
  dkr_name_is_valid : string -> bool;
  dkr_tag_is_valid : string -> bool;
  machine_name_is_valid : string -> bool;
  hostname_is_valid : string -> bool;
  http_url_is_valid : string -> bool
}.

(** ** parse_id and parse_ancestry *)

Section Parsers.
Context {JT : JsonTokenizer} {PR : Predicates}.

(** [parse_id]: [inl r] is the negative return value, [inr id] is
    [*ret = id; return 0]. *)
Definition parse_id (payload : string) : Z + string :=
  if (String.length payload <=? 0)%nat then inl (- EBADMSG)
  else if memchr_nul payload then inl (- EBADMSG)
  else
    match json_tokenize payload json_state_null with
    | inl t => inl t
    | inr (JSON_STRING id, p, js) =>
        match json_tokenize p js with
        | inl t => inl t
        | inr (JSON_END, _, _) =>
            if negb (dkr_id_is_valid id) then inl (- EBADMSG) else inr id
        | inr _ => inl (- EBADMSG)
        end
    | inr _ => inl (- EBADMSG)
    end.

(** The local enum of [parse_ancestry]. *)
Inductive ancestry_state : Type :=
| STATE_BEGIN
| STATE_ITEM
| STATE_COMMA
| STATE_END.

(** One pass through the [switch (state)] of [parse_ancestry]: either the
    loop goes round again with a new state and vector, or the function
    returns. *)
Inductive switch_result : Type :=
| Continue (state : ancestry_state) (l : list string)
| Return (r : Z + list string).

Definition ancestry_switch (state : ancestry_state) (l : list string)
    (t : json_token) : switch_result :=
  match state with
  | STATE_BEGIN =>
      match t with
      | JSON_ARRAY_OPEN => Continue STATE_ITEM l
      | _ => Return (inl (- EBADMSG))
      end
  | STATE_ITEM =>
      match t with
      | JSON_STRING str =>
          if negb (dkr_id_is_valid str) then Return (inl (- EBADMSG))
          else if strv_length l + 1 >? LAYERS_MAX then Return (inl (- EFBIG))
          else Continue STATE_COMMA (l ++ [str])
      | JSON_ARRAY_CLOSE => Continue STATE_END l
      | _ => Return (inl (- EBADMSG))
      end
  | STATE_COMMA =>
      match t with
      | JSON_COMMA => Continue STATE_ITEM l
      | JSON_ARRAY_CLOSE => Continue STATE_END l
      | _ => Return (inl (- EBADMSG))
      end
  | STATE_END =>
      match t with
      | JSON_END =>
          if strv_isempty l then Return (inl (- EBADMSG))
          else if negb (strv_is_uniq l) then Return (inl (- EBADMSG))
          else Return (inr (strv_reverse l))
      | _ => Return (inl (- EBADMSG))
      end
  end.

(** The [for (;;)] loop of [parse_ancestry]; [None] is "out of fuel". *)
Fixpoint parse_ancestry_loop (fuel : nat) (p : string) (js : json_state)
    (state : ancestry_state) (l : list string) : option (Z + list string) :=
  match fuel with
  | O => None
  | S fuel' =>
      match json_tokenize p js with
      | inl t => Some (inl t)
      | inr (t, p', js') =>
          match ancestry_switch state l t with
          | Continue state' l' => parse_ancestry_loop fuel' p' js' state' l'
          | Return r => Some r
          end
      end
  end.

(** Every second pass adds an entry and the 2049th entry returns, so this
    many passes always reach a [return] (see [parse_ancestry_loop_total]). *)
Definition parse_ancestry_fuel : nat := Z.to_nat (2 * LAYERS_MAX + 4).

Definition parse_ancestry (payload : string) : option (Z + list string) :=
  if (String.length payload <=? 0)%nat then Some (inl (- EBADMSG))
  else if memchr_nul payload then Some (inl (- EBADMSG))
  else parse_ancestry_loop parse_ancestry_fuel payload json_state_null
         STATE_BEGIN [].

End Parsers.

(** ** The HTTP job (import-job.h) *)

(** The job states of import-job.h, which is not among the sources; the
    file only compares against [IMPORT_JOB_DONE]. *)
Inductive ImportJobState : Type :=
| IMPORT_JOB_INIT
| IMPORT_JOB_ANALYZING
| IMPORT_JOB_RUNNING
| IMPORT_JOB_DONE
| IMPORT_JOB_FAILED.

(** The fields of [struct ImportJob] the file reads or writes.  The
    callback pointers are not fields of the model: a job's callbacks are
    fixed by the slot of the session it sits in. *)
Record ImportJob : Type := mkImportJob {
  url : string;
  request_header : list string;
  state : ImportJobState;
  error : Z;
  payload : string;
  progress_percent : Z;
  disk_fd : Z
}.

Definition job_set_request_header (v : list string) (j : ImportJob) :
    ImportJob :=
  mkImportJob (url j) v (state j) (error j) (payload j) (progress_percent j)
    (disk_fd j).

Definition job_set_state (v : ImportJobState) (j : ImportJob) : ImportJob :=
  mkImportJob (url j) (request_header j) v (error j) (payload j)
    (progress_percent j) (disk_fd j).

Definition job_set_error (v : Z) (j : ImportJob) : ImportJob :=
  mkImportJob (url j) (request_header j) (state j) v (payload j)
    (progress_percent j) (disk_fd j).

Definition job_set_payload (v : string) (j : ImportJob) : ImportJob :=
  mkImportJob (url j) (request_header j) (state j) (error j) v
    (progress_percent j) (disk_fd j).

Definition job_set_progress_percent (v : Z) (j : ImportJob) : ImportJob :=
  mkImportJob (url j) (request_header j) (state j) (error j) (payload j) v
    (disk_fd j).

Definition job_set_disk_fd (v : Z) (j : ImportJob) : ImportJob :=
  mkImportJob (url j) (request_header j) (state j) (error j) (payload j)
    (progress_percent j) v.


(** ** The pull session *)

Inductive DkrProgress : Type :=
| DKR_SEARCHING
| DKR_RESOLVING
| DKR_METADATA
| DKR_DOWNLOADING
| DKR_COPYING.

(** [struct DkrImport] without its opaque handles ([event], [glue],
    [on_finished], [userdata]). *)
Record DkrImport : Type := mkDkrImport {
  index_url : string;
  image_root : string;
  images_job : option ImportJob;
  tags_job : option ImportJob;
  ancestry_job : option ImportJob;
  json_job : option ImportJob;
  layer_job : option ImportJob;
  name : string;
  tag : string;
  id : string;
  response_token : option string;
  response_registries : list string;
  ancestry : list string;
  n_ancestry : Z;
  current_ancestry : Z;
  local : option string;
  force_local : bool;
  temp_path : option string;
  final_path : option string;
  tar_pid : Z
}.

Definition set_images_job (v : option ImportJob) (i : DkrImport) : DkrImport
    :=
  mkDkrImport (index_url i) (image_root i) v (tags_job i) (ancestry_job i)
    (json_job i) (layer_job i) (name i) (tag i) (id i) (response_token i)
    (response_registries i) (ancestry i) (n_ancestry i) (current_ancestry i)
    (local i) (force_local i) (temp_path i) (final_path i) (tar_pid i).

Definition set_tags_job (v : option ImportJob) (i : DkrImport) : DkrImport :=
  mkDkrImport (index_url i) (image_root i) (images_job i) v (ancestry_job i)
    (json_job i) (layer_job i) (name i) (tag i) (id i) (response_token i)
    (response_registries i) (ancestry i) (n_ancestry i) (current_ancestry i)
    (local i) (force_local i) (temp_path i) (final_path i) (tar_pid i).

Definition set_ancestry_job (v : option ImportJob) (i : DkrImport) :
    DkrImport :=
  mkDkrImport (index_url i) (image_root i) (images_job i) (tags_job i) v
    (json_job i) (layer_job i) (name i) (tag i) (id i) (response_token i)
    (response_registries i) (ancestry i) (n_ancestry i) (current_ancestry i)
    (local i) (force_local i) (temp_path i) (final_path i) (tar_pid i).

Definition set_json_job (v : option ImportJob) (i : DkrImport) : DkrImport :=
  mkDkrImport (index_url i) (image_root i) (images_job i) (tags_job i)
    (ancestry_job i) v (layer_job i) (name i) (tag i) (id i) (response_token
    i) (response_registries i) (ancestry i) (n_ancestry i) (current_ancestry
    i) (local i) (force_local i) (temp_path i) (final_path i) (tar_pid i).

Definition set_layer_job (v : option ImportJob) (i : DkrImport) : DkrImport :=
  mkDkrImport (index_url i) (image_root i) (images_job i) (tags_job i)
    (ancestry_job i) (json_job i) v (name i) (tag i) (id i) (response_token
    i) (response_registries i) (ancestry i) (n_ancestry i) (current_ancestry
    i) (local i) (force_local i) (temp_path i) (final_path i) (tar_pid i).

Definition set_name (v : string) (i : DkrImport) : DkrImport :=
  mkDkrImport (index_url i) (image_root i) (images_job i) (tags_job i)
    (ancestry_job i) (json_job i) (layer_job i) v (tag i) (id i)
    (response_token i) (response_registries i) (ancestry i) (n_ancestry i)
    (current_ancestry i) (local i) (force_local i) (temp_path i) (final_path
    i) (tar_pid i).

Definition set_tag (v : string) (i : DkrImport) : DkrImport :=
  mkDkrImport (index_url i) (image_root i) (images_job i) (tags_job i)
    (ancestry_job i) (json_job i) (layer_job i) (name i) v (id i)
    (response_token i) (response_registries i) (ancestry i) (n_ancestry i)
    (current_ancestry i) (local i) (force_local i) (temp_path i) (final_path
    i) (tar_pid i).

Definition set_id (v : string) (i : DkrImport) : DkrImport :=
  mkDkrImport (index_url i) (image_root i) (images_job i) (tags_job i)
    (ancestry_job i) (json_job i) (layer_job i) (name i) (tag i) v
    (response_token i) (response_registries i) (ancestry i) (n_ancestry i)
    (current_ancestry i) (local i) (force_local i) (temp_path i) (final_path
    i) (tar_pid i).

Definition set_response_token (v : option string) (i : DkrImport) :
    DkrImport :=
  mkDkrImport (index_url i) (image_root i) (images_job i) (tags_job i)
    (ancestry_job i) (json_job i) (layer_job i) (name i) (tag i) (id i) v
    (response_registries i) (ancestry i) (n_ancestry i) (current_ancestry i)
    (local i) (force_local i) (temp_path i) (final_path i) (tar_pid i).

Definition set_response_registries (v : list string) (i : DkrImport) :
    DkrImport :=
  mkDkrImport (index_url i) (image_root i) (images_job i) (tags_job i)
    (ancestry_job i) (json_job i) (layer_job i) (name i) (tag i) (id i)
    (response_token i) v (ancestry i) (n_ancestry i) (current_ancestry i)
    (local i) (force_local i) (temp_path i) (final_path i) (tar_pid i).

Definition set_ancestry (v : list string) (i : DkrImport) : DkrImport :=
  mkDkrImport (index_url i) (image_root i) (images_job i) (tags_job i)
    (ancestry_job i) (json_job i) (layer_job i) (name i) (tag i) (id i)
    (response_token i) (response_registries i) v (n_ancestry i)
    (current_ancestry i) (local i) (force_local i) (temp_path i) (final_path
    i) (tar_pid i).

Definition set_n_ancestry (v : Z) (i : DkrImport) : DkrImport :=
  mkDkrImport (index_url i) (image_root i) (images_job i) (tags_job i)
    (ancestry_job i) (json_job i) (layer_job i) (name i) (tag i) (id i)
    (response_token i) (response_registries i) (ancestry i) v
    (current_ancestry i) (local i) (force_local i) (temp_path i) (final_path
    i) (tar_pid i).

Definition set_current_ancestry (v : Z) (i : DkrImport) : DkrImport :=
  mkDkrImport (index_url i) (image_root i) (images_job i) (tags_job i)
    (ancestry_job i) (json_job i) (layer_job i) (name i) (tag i) (id i)
    (response_token i) (response_registries i) (ancestry i) (n_ancestry i) v
    (local i) (force_local i) (temp_path i) (final_path i) (tar_pid i).

Definition set_local (v : option string) (i : DkrImport) : DkrImport :=
  mkDkrImport (index_url i) (image_root i) (images_job i) (tags_job i)
    (ancestry_job i) (json_job i) (layer_job i) (name i) (tag i) (id i)
    (response_token i) (response_registries i) (ancestry i) (n_ancestry i)
    (current_ancestry i) v (force_local i) (temp_path i) (final_path i)
    (tar_pid i).

Definition set_force_local (v : bool) (i : DkrImport) : DkrImport :=
  mkDkrImport (index_url i) (image_root i) (images_job i) (tags_job i)
    (ancestry_job i) (json_job i) (layer_job i) (name i) (tag i) (id i)
    (response_token i) (response_registries i) (ancestry i) (n_ancestry i)
    (current_ancestry i) (local i) v (temp_path i) (final_path i) (tar_pid
    i).

Definition set_temp_path (v : option string) (i : DkrImport) : DkrImport :=
  mkDkrImport (index_url i) (image_root i) (images_job i) (tags_job i)
    (ancestry_job i) (json_job i) (layer_job i) (name i) (tag i) (id i)
    (response_token i) (response_registries i) (ancestry i) (n_ancestry i)
    (current_ancestry i) (local i) (force_local i) v (final_path i) (tar_pid
    i).

Definition set_final_path (v : option string) (i : DkrImport) : DkrImport :=
  mkDkrImport (index_url i) (image_root i) (images_job i) (tags_job i)
    (ancestry_job i) (json_job i) (layer_job i) (name i) (tag i) (id i)
    (response_token i) (response_registries i) (ancestry i) (n_ancestry i)
    (current_ancestry i) (local i) (force_local i) (temp_path i) v (tar_pid
    i).

Definition set_tar_pid (v : Z) (i : DkrImport) : DkrImport :=
  mkDkrImport (index_url i) (image_root i) (images_job i) (tags_job i)
    (ancestry_job i) (json_job i) (layer_job i) (name i) (tag i) (id i)
    (response_token i) (response_registries i) (ancestry i) (n_ancestry i)
    (current_ancestry i) (local i) (force_local i) (temp_path i) (final_path
    i) v.

(** The five job pointers of the session.  A finished job [j] is compared
    with them ([j == i->images_job], ...); the model names the slot. *)
Inductive Slot : Type := IMAGES | TAGS | ANCESTRY | JSON | LAYER.

Definition job_of (s : Slot) (i : DkrImport) : option ImportJob :=
  match s with
  | IMAGES => images_job i
  | TAGS => tags_job i
  | ANCESTRY => ancestry_job i
  | JSON => json_job i
  | LAYER => layer_job i
  end.

Definition set_job (s : Slot) (j : option ImportJob) (i : DkrImport) :
    DkrImport :=
  match s with
  | IMAGES => set_images_job j i
  | TAGS => set_tags_job j i
  | ANCESTRY => set_ancestry_job j i
  | JSON => set_json_job j i
  | LAYER => set_layer_job j i
  end.

(** ** The collaborators outside the file *)

(** The file system and process helpers (btrfs-util.c, aufs-util.c,
    import-common.c, util.c), the HTTP job's [import_job_begin] and the
    header helpers (curl-util.c, strv.c): none is among the sources, so
    each is a parameter.  [World] is the state of the file system and of
    the child processes; an operation that can change it returns the new
    one.  A result is [0] (or a descriptor) on success and [-errno] on
    failure; [laccess] and [rename], which in C return [-1] and set
    [errno], return [-errno] here.  [import_fork_tar] either fails, [inl e]
    standing for the result [- e], or returns a descriptor and stores the
    child's process id, [inr (fd, pid)].  [sd_event_default] and
    [curl_glue_new] (sd-event.c, curl-util.c) are the results of the two
    calls with which [dkr_import_new] gets its event loop and its curl
    glue. *)
Class System : Type := {
  World : Type;
  laccess : World -> string -> Z;
  tempfn_random : World -> string -> string;
  mkdir_parents_label : World -> string -> World;
  btrfs_subvol_snapshot : World -> string -> string -> bool -> bool -> Z * World;
  btrfs_subvol_make : World -> string -> Z * World;
  import_fork_tar : World -> string -> (positive + N * positive) * World;
  wait_for_terminate_and_warn : World -> Z -> Z * World;
  aufs_resolve : World -> string -> Z * World;
  btrfs_subvol_set_read_only : World -> string -> bool -> Z * World;
  rename : World -> string -> string -> Z * World;
  import_make_local_copy : World -> string -> string -> string -> bool -> Z * World;
  kill_and_sigcont : World -> Z -> World;
  wait_for_terminate : World -> Z -> World;
  btrfs_subvol_remove : World -> string -> World;
  rm_rf_dangerous : World -> string -> World;
  sd_event_default : Z;
  curl_glue_new : Z;
  import_job_begin : ImportJob -> Z;
  curl_header_strdup : string -> string -> option string;
  strv_split : string -> string -> list string
}.

(** ** The machine: session, world and what the session has emitted *)

Section Orchestrator.
Context {JT : JsonTokenizer} {PR : Predicates} {SY : System}.

(** Besides the session and the world, the model records the calls that
    leave the file: the jobs handed to [import_job_begin] (slot and URL,
    oldest first), the percentages sent with [sd_notifyf], the results [r]
    delivered at the [finish:] label (to [i->on_finished], or to
    [sd_event_exit] when no callback is set), and how many layer jobs are
    allocated ([import_job_new]) and not yet released ([import_job_unref]). *)
Record Machine : Type := mkMachine {
  session : DkrImport;
  world : World;
  requests : list (Slot * string);
  notified : list Z;
  completed : list Z;
  live_layer_jobs : nat
}.

Definition set_session (v : DkrImport) (m : Machine) : Machine :=
  mkMachine v (world m) (requests m) (notified m) (completed m)
    (live_layer_jobs m).

Definition set_world (v : World) (m : Machine) : Machine :=
  mkMachine (session m) v (requests m) (notified m) (completed m)
    (live_layer_jobs m).

Definition add_request (s : Slot) (u : string) (m : Machine) : Machine :=
  mkMachine (session m) (world m) (requests m ++ [(s, u)]) (notified m)
    (completed m) (live_layer_jobs m).

Definition add_notified (percent : Z) (m : Machine) : Machine :=
  mkMachine (session m) (world m) (requests m) (notified m ++ [percent])
    (completed m) (live_layer_jobs m).

Definition add_completed (r : Z) (m : Machine) : Machine :=
  mkMachine (session m) (world m) (requests m) (notified m)
    (completed m ++ [r]) (live_layer_jobs m).

Definition set_live_layer_jobs (v : nat) (m : Machine) : Machine :=
  mkMachine (session m) (world m) (requests m) (notified m) (completed m) v.

Definition PROTOCOL_PREFIX : string := "https://".
Definition HEADER_TOKEN : string := "X-Docker-Token:".
Definition HEADER_REGISTRY : string := "X-Docker-Endpoints:".

(** [unsigned] arithmetic wraps at 2^32. *)
Definition u32 (x : Z) : Z := x mod 2 ^ 32.

(** The percentage [dkr_import_report_progress] computes for phase [p]. *)
Definition progress_value (i : DkrImport) (p : DkrProgress) : Z :=
  match p with
  | DKR_SEARCHING =>
      let percent := 0 in
      match images_job i with
      | Some j => u32 (percent + u32 (progress_percent j * 5) / 100)
      | None => percent
      end
  | DKR_RESOLVING =>
      let percent := 5 in
      match tags_job i with
      | Some j => u32 (percent + u32 (progress_percent j * 5) / 100)
      | None => percent
      end
  | DKR_METADATA =>
      let percent := 10 in
      let percent :=
        match ancestry_job i with
        | Some j => u32 (percent + u32 (progress_percent j * 5) / 100)
        | None => percent
        end in
      match json_job i with
      | Some j => u32 (percent + u32 (progress_percent j * 5) / 100)
      | None => percent
      end
  | DKR_DOWNLOADING =>
      let percent := 20 in
      let percent :=
        u32 (percent
             + u32 (75 * current_ancestry i) / Z.max 1 (n_ancestry i)) in
      match layer_job i with
      | Some j =>
          u32 (percent
               + u32 (progress_percent j * 75) / Z.max 1 (n_ancestry i) / 100)
      | None => percent
      end
  | DKR_COPYING => 95
  end.

(** [dkr_import_report_progress]: the value goes out with [sd_notifyf]. *)
Definition dkr_import_report_progress (p : DkrProgress) (m : Machine) :
    Machine :=
  add_notified (progress_value (session m) p) m.

(** [dkr_import_job_on_progress]: the phase follows from the slot of [j]. *)
Definition dkr_import_job_on_progress (which : Slot) (m : Machine) :
    Machine :=
  dkr_import_report_progress
    match which with
    | IMAGES => DKR_SEARCHING
    | TAGS => DKR_RESOLVING
    | ANCESTRY | JSON => DKR_METADATA
    | LAYER => DKR_DOWNLOADING
    end m.

(** [i->ancestry[i->current_ancestry]]: the vector is NULL terminated, so
    the index [n_ancestry] reads NULL. *)
Definition dkr_import_current_layer (i : DkrImport) : option string :=
  if strv_isempty (ancestry i) then None
  else nth_error (ancestry i) (Z.to_nat (current_ancestry i)).

Definition dkr_import_current_base_layer (i : DkrImport) : option string :=
  if strv_isempty (ancestry i) then None
  else if current_ancestry i <=? 0 then None
  else nth_error (ancestry i) (Z.to_nat (current_ancestry i - 1)).

(** Modelled from the spec: [import_job_new] of import-job.c, which is not
    among the sources; a job is created for one URL, not yet started, with
    no payload and no progress (section 4.6). *)
Definition import_job_new (u : string) : ImportJob :=
  mkImportJob u [] IMPORT_JOB_INIT 0 "" 0 (-1).

Definition dkr_import_add_token (i : DkrImport) (j : ImportJob) : ImportJob :=
  let t :=
    match response_token i with
    | Some token => "Authorization: Token " ++ token
    | None => HEADER_TOKEN ++ " true"
    end in
  job_set_request_header ["Accept: application/json"; t] j.

Definition job_done (j : option ImportJob) : bool :=
  match j with
  | Some j => match state j with IMPORT_JOB_DONE => true | _ => false end
  | None => false
  end.

(** [dkr_import_is_done]; [None] is the failed [assert(i->images_job)]. *)
Definition dkr_import_is_done (i : DkrImport) : option bool :=
  match images_job i with
  | None => None
  | Some _ =>
      Some
        (if negb (job_done (images_job i)) then false
         else if negb (job_done (tags_job i)) then false
         else if negb (job_done (ancestry_job i)) then false
         else if negb (job_done (json_job i)) then false
         else if match layer_job i with
                 | Some _ => negb (job_done (layer_job i))
                 | None => false
                 end then false
         else if match dkr_import_current_layer i with
                 | Some _ => true
                 | None => false
                 end then false
         else true)
  end.

Definition layer_path (root layer : string) : string :=
  root ++ "/.dkr-" ++ layer.

Definition dkr_import_make_local_copy (m : Machine) : Z * Machine :=
  let i := session m in
  match local i with
  | None => (0, m)
  | Some loc =>
      let final :=
        match final_path i with
        | Some f => f
        | None => layer_path (image_root i) (id i)
        end in
      let i := set_final_path (Some final) i in
      let (r, w) :=
        import_make_local_copy (world m) final (image_root i) loc
          (force_local i) in
      let m := set_world w (set_session i m) in
      if r <? 0 then (r, m) else (0, m)
  end.

(** What the [for (;;)] of [dkr_import_pull_layer] ends with. *)
Inductive layer_scan : Type :=
| NoMoreLayers (i : DkrImport)
| ScanFailed (r : Z) (i : DkrImport)
| LayerMissing (layer path : string) (i : DkrImport).

(** The [for (;;)] of [dkr_import_pull_layer]: layers that are present are
    skipped.  [None] is "out of fuel". *)
Fixpoint pull_layer_scan (fuel : nat) (w : World) (i : DkrImport) :
    option layer_scan :=
  match fuel with
  | O => None
  | S fuel' =>
      match dkr_import_current_layer i with
      | None => Some (NoMoreLayers i)
      | Some layer =>
          let path := layer_path (image_root i) layer in
          let r := laccess w path in
          if r <? 0 then
            if r =? - ENOENT then Some (LayerMissing layer path i)
            else Some (ScanFailed r i)
          else
            pull_layer_scan fuel' w
              (set_current_ancestry (current_ancestry i + 1) i)
      end
  end.

(** Starting a job: the call is recorded, the result is the collaborator's. *)
Definition begin_job (s : Slot) (j : ImportJob) (m : Machine) : Z * Machine :=
  (import_job_begin j, add_request s (url j) m).

(** [dkr_import_pull_layer]; [None] is a failed assertion (or no fuel,
    which [pull_layer_scan_total] excludes). *)
Definition dkr_import_pull_layer (m : Machine) : option (Z * Machine) :=
  let i := session m in
  match layer_job i, temp_path i, final_path i with
  | None, None, None =>
      match pull_layer_scan (S (List.length (ancestry i))) (world m) i with
      | None => None
      | Some (NoMoreLayers i) => Some (0, set_session i m)
      | Some (ScanFailed r i) => Some (r, set_session i m)
      | Some (LayerMissing layer path i) =>
          let i := set_final_path (Some path) i in
          match response_registries i with
          | [] => None
          | registry :: _ =>
              let u :=
                PROTOCOL_PREFIX ++ registry ++ "/v1/images/" ++ layer
                ++ "/layer" in
              let j := dkr_import_add_token i (import_job_new u) in
              let i := set_layer_job (Some j) i in
              let m :=
                set_live_layer_jobs (S (live_layer_jobs m))
                  (set_session i m) in
              let (r, m) := begin_job LAYER j m in
              if r <? 0 then Some (r, m) else Some (0, m)
          end
      end
  | _, _, _ => None
  end.

(** [dkr_import_job_on_open_disk] for the layer job; [None] is a failed
    assertion. *)
Definition dkr_import_job_on_open_disk (m : Machine) : option (Z * Machine) :=
  let i := session m in
  match layer_job i, final_path i, temp_path i with
  | Some j, Some final, None =>
      if 0 <? tar_pid i then None
      else
        let temp := tempfn_random (world m) final in
        let i := set_temp_path (Some temp) i in
        let w := mkdir_parents_label (world m) temp in
        let (r, w) :=
          match dkr_import_current_base_layer i with
          | Some base =>
              btrfs_subvol_snapshot w (layer_path (image_root i) base) temp
                false true
          | None => btrfs_subvol_make w temp
          end in
        if r <? 0 then Some (r, set_world w (set_session i m))
        else
          match import_fork_tar w temp with
          | (inl e, w) =>
              let i := set_layer_job (Some (job_set_disk_fd (Z.neg e) j)) i in
              Some (Z.neg e, set_world w (set_session i m))
          | (inr (fd, pid), w) =>
              let i :=
                set_layer_job (Some (job_set_disk_fd (Z.of_N fd) j)) i in
              let i := set_tar_pid (Z.pos pid) i in
              Some (0, set_world w (set_session i m))
          end
  | _, _, _ => None
  end.

(** Where a branch of [dkr_import_job_on_finished] leaves: it falls
    through to [if (!dkr_import_is_done(i))], or jumps to [finish:] with
    the current value of [r]. *)
Inductive branch_exit : Type :=
| FallThrough (m : Machine)
| GotoFinish (r : Z) (m : Machine).

(** [if (i->images_job == j)]; [None] is a failed assertion. *)
Definition on_finished_images (m : Machine) : option branch_exit :=
  let i := session m in
  match tags_job i, ancestry_job i, json_job i, layer_job i with
  | None, None, None, None =>
      match response_registries i with
      | [] => Some (GotoFinish (- EBADMSG) m)
      | registry :: _ =>
          let m := dkr_import_report_progress DKR_RESOLVING m in
          let u :=
            PROTOCOL_PREFIX ++ registry ++ "/v1/repositories/" ++ name i
            ++ "/tags/" ++ tag i in
          let j := dkr_import_add_token i (import_job_new u) in
          let m := set_session (set_tags_job (Some j) i) m in
          let (r, m) := begin_job TAGS j m in
          if r <? 0 then Some (GotoFinish r m) else Some (FallThrough m)
      end
  | _, _, _, _ => None
  end.

(** [else if (i->tags_job == j)]. *)
Definition on_finished_tags (j : ImportJob) (m : Machine) :
    option branch_exit :=
  let i := session m in
  match ancestry_job i, json_job i, layer_job i with
  | None, None, None =>
      match parse_id (payload j) with
      | inl r => Some (GotoFinish r m)
      | inr new_id =>
          let i := set_id new_id i in
          let m := dkr_import_report_progress DKR_METADATA (set_session i m) in
          match response_registries i with
          | [] => None
          | registry :: _ =>
              let u :=
                PROTOCOL_PREFIX ++ registry ++ "/v1/images/" ++ id i
                ++ "/ancestry" in
              let ja := dkr_import_add_token i (import_job_new u) in
              let i := set_ancestry_job (Some ja) i in
              let u :=
                PROTOCOL_PREFIX ++ registry ++ "/v1/images/" ++ id i
                ++ "/json" in
              let jj := dkr_import_add_token i (import_job_new u) in
              let i := set_json_job (Some jj) i in
              let m := set_session i m in
              let (r, m) := begin_job ANCESTRY ja m in
              if r <? 0 then Some (GotoFinish r m)
              else
                let (r, m) := begin_job JSON jj m in
                if r <? 0 then Some (GotoFinish r m) else Some (FallThrough m)
          end
      end
  | _, _, _ => None
  end.

(** [else if (i->ancestry_job == j)]. *)
Definition on_finished_ancestry (j : ImportJob) (m : Machine) :
    option branch_exit :=
  let i := session m in
  match layer_job i with
  | Some _ => None
  | None =>
      match parse_ancestry (payload j) with
      | None => None
      | Some (inl r) => Some (GotoFinish r m)
      | Some (inr l) =>
          let n := strv_length l in
          if (n <=? 0) || negb (String.eqb (last l "") (id i)) then
            Some (GotoFinish (- EBADMSG) m)
          else
            let i := set_ancestry l i in
            let i := set_n_ancestry n i in
            let i := set_current_ancestry 0 i in
            let m := dkr_import_report_progress DKR_DOWNLOADING
                       (set_session i m) in
            match dkr_import_pull_layer m with
            | None => None
            | Some (r, m) =>
                if r <? 0 then Some (GotoFinish r m) else Some (FallThrough m)
            end
      end
  end.

(** [else if (i->layer_job == j)].  A failing [rename] jumps to [finish:]
    without assigning [r], which still holds what
    [btrfs_subvol_set_read_only] returned. *)
Definition on_finished_layer (j : ImportJob) (m : Machine) :
    option branch_exit :=
  let i := session m in
  match temp_path i, final_path i with
  | Some temp, Some final =>
      let j := job_set_disk_fd (-1) j in
      let i := set_layer_job (Some j) i in
      let waited :=
        if 0 <? tar_pid i then
          let (r, w) := wait_for_terminate_and_warn (world m) (tar_pid i) in
          (r, w, set_tar_pid 0 i)
        else (0, world m, i) in
      let '(r, w, i) := waited in
      if r <? 0 then Some (GotoFinish r (set_world w (set_session i m)))
      else
        let (r, w) := aufs_resolve w temp in
        if r <? 0 then Some (GotoFinish r (set_world w (set_session i m)))
        else
          let (r, w) := btrfs_subvol_set_read_only w temp true in
          if r <? 0 then Some (GotoFinish r (set_world w (set_session i m)))
          else
            let (e, w) := rename w temp final in
            if e <? 0 then Some (GotoFinish r (set_world w (set_session i m)))
            else
              let i := set_layer_job None i in
              let i := set_temp_path None i in
              let i := set_final_path None i in
              let i := set_current_ancestry (current_ancestry i + 1) i in
              let m :=
                set_live_layer_jobs (Nat.pred (live_layer_jobs m))
                  (set_world w (set_session i m)) in
              match dkr_import_pull_layer m with
              | None => None
              | Some (r, m) =>
                  if r <? 0 then Some (GotoFinish r m)
                  else Some (FallThrough m)
              end
  | _, _ => None
  end.

(** The [finish:] label. *)
Definition finish (r : Z) (m : Machine) : Machine := add_completed r m.

(** The end of [dkr_import_job_on_finished], from
    [if (!dkr_import_is_done(i)) return;] to the [finish:] label. *)
Definition on_finished_tail (m : Machine) : option Machine :=
  match dkr_import_is_done (session m) with
  | None => None
  | Some false => Some m
  | Some true =>
      let m := dkr_import_report_progress DKR_COPYING m in
      let (r, m) := dkr_import_make_local_copy m in
      if r <? 0 then Some (finish r m) else Some (finish 0 m)
  end.

(** The branch of [dkr_import_job_on_finished] for the slot of [j]; the
    json job has none. *)
Definition on_finished_branch (which : Slot) (j : ImportJob) (m : Machine) :
    option branch_exit :=
  match which with
  | IMAGES => on_finished_images m
  | TAGS => on_finished_tags j m
  | ANCESTRY => on_finished_ancestry j m
  | LAYER => on_finished_layer j m
  | JSON => Some (FallThrough m)
  end.

(** [dkr_import_job_on_finished] for the job [j] in slot [which]; [None]
    is a failed assertion. *)
Definition dkr_import_job_on_finished (which : Slot) (m : Machine) :
    option Machine :=
  match job_of which (session m) with
  | None => None
  | Some j =>
      if negb (error j =? 0) then Some (finish (error j) m)
      else
        match on_finished_branch which j m with
        | None => None
        | Some (GotoFinish r m) => Some (finish r m)
        | Some (FallThrough m) => on_finished_tail m
        end
  end.

(** [dkr_import_job_on_header] (allocation failures apart). *)
Definition dkr_import_job_on_header (header : string) (i : DkrImport) :
    Z * DkrImport :=
  match curl_header_strdup header HEADER_TOKEN with
  | Some token => (0, set_response_token (Some token) i)
  | None =>
      match curl_header_strdup header HEADER_REGISTRY with
      | Some registry =>
          let l := strv_split registry "," in
          if forallb hostname_is_valid l then
            (0, set_response_registries l i)
          else (- EBADMSG, i)
      | None => (0, i)
      end
  end.

(** [dkr_import_pull]. *)
Definition dkr_import_pull (name_arg : string) (tag_arg local_arg : option string)
    (force : bool) (m : Machine) : Z * Machine :=
  let i := session m in
  if negb (dkr_name_is_valid name_arg) then (- EINVAL, m)
  else if match tag_arg with
          | Some t => negb (dkr_tag_is_valid t)
          | None => false
          end then (- EINVAL, m)
  else if match local_arg with
          | Some l => negb (machine_name_is_valid l)
          | None => false
          end then (- EINVAL, m)
  else
    match images_job i with
    | Some _ => (- EBUSY, m)
    | None =>
        let tag_arg :=
          match tag_arg with Some t => t | None => "latest" end in
        let i := set_local local_arg i in
        let i := set_force_local force i in
        let i := set_name name_arg i in
        let i := set_tag tag_arg i in
        let u := index_url i ++ "/v1/repositories/" ++ name_arg ++ "/images" in
        let j := dkr_import_add_token i (import_job_new u) in
        let i := set_images_job (Some j) i in
        begin_job IMAGES j (set_session i m)
    end.

(** [dkr_import_unref]: the world the teardown leaves. *)
Definition dkr_import_unref (m : Machine) : World :=
  let i := session m in
  let w := world m in
  let w :=
    if 1 <? tar_pid i then
      wait_for_terminate (kill_and_sigcont w (tar_pid i)) (tar_pid i)
    else w in
  match temp_path i with
  | Some temp => rm_rf_dangerous (btrfs_subvol_remove w temp) temp
  | None => w
  end.

(** [endswith(i->index_url, "/")] followed by [*e = 0]. *)
Fixpoint strip_trailing_slash (s : string) : string :=
  match s with
  | EmptyString => EmptyString
  | String c EmptyString => if Ascii.eqb c "/"%char then EmptyString else s
  | String c rest => String c (strip_trailing_slash rest)
  end.

(** [dkr_import_new]; [event] tells whether the caller passed an event
    loop: [sd_event_default] is called only without one.  Its error and
    the error of [curl_glue_new] are returned as they are. *)
Definition dkr_import_new (event : bool) (index_url_arg : string)
    (image_root_arg : option string) : Z + DkrImport :=
  if negb (http_url_is_valid index_url_arg) then inl (- EINVAL)
  else if negb event && (sd_event_default <? 0) then inl sd_event_default
  else if curl_glue_new <? 0 then inl curl_glue_new
  else
    inr (mkDkrImport
           (strip_trailing_slash index_url_arg)
           match image_root_arg with
           | Some r => r
           | None => "/var/lib/machines"
           end
           None None None None None "" "" "" None [] [] 0 0 None false
           None None 0).

(** The machine around a new session. *)
Definition machine_of (i : DkrImport) (w : World) : Machine :=
  mkMachine i w [] [] [] 0.

(** ** The event loop's side: which callbacks reach the session *)

(** What the HTTP jobs report to the session (section 4.6 of the spec):
    a response header of the images job, progress of a job, the first
    body byte of the layer job, and the end of a job with its result. *)
Inductive Event : Type :=
| EvHeader (header : string)
| EvProgress (which : Slot) (percent : Z)
| EvOpenDisk
| EvFinished (which : Slot) (ret : Z) (body : string).

Definition job_finished (j : ImportJob) : bool :=
  match state j with
  | IMPORT_JOB_DONE | IMPORT_JOB_FAILED => true
  | _ => false
  end.

(** Modelled from the spec: [import_job_finish] of import-job.c, which is
    not among the sources; "on_finished(result) -- invoked exactly once;
    result is either success with buffered payload or an error code"
    (section 4.6).  A job that ended well is [IMPORT_JOB_DONE] and holds
    its payload and the error 0, one that failed is [IMPORT_JOB_FAILED]
    and holds the error; a job that has ended does not end again
    ([None]). *)
Definition import_job_finish (which : Slot) (ret : Z) (body : string)
    (m : Machine) : option Machine :=
  match job_of which (session m) with
  | None => None
  | Some j =>
      if job_finished j then None
      else
        let j :=
          if ret =? 0 then
            job_set_error 0
              (job_set_payload body (job_set_state IMPORT_JOB_DONE j))
          else job_set_error ret (job_set_state IMPORT_JOB_FAILED j) in
        dkr_import_job_on_finished which
          (set_session (set_job which (Some j) (session m)) m)
  end.

(** Modelled from the spec: the callbacks a running job makes (section
    4.6): headers go to the images job, which alone has [on_header];
    [on_progress(percent)] is "monotonically non-decreasing in [0, 100]";
    [on_open_disk] belongs to the layer job; a callback that returns an
    error ends its job with that error.  Once the result of the pull has
    been delivered at [finish:] the pull is over and no further event is
    taken (section 7: each error causes teardown of the current pull).
    [None]: the event cannot occur in this state, or an assertion failed. *)
Definition deliver (ev : Event) (m : Machine) : option Machine :=
  match completed m with
  | _ :: _ => None
  | [] =>
      match ev with
      | EvHeader header =>
          match images_job (session m) with
          | None => None
          | Some j =>
              if job_finished j then None
              else
                let (r, i) := dkr_import_job_on_header header (session m) in
                if r <? 0 then import_job_finish IMAGES r "" (set_session i m)
                else Some (set_session i m)
          end
      | EvProgress which percent =>
          match job_of which (session m) with
          | None => None
          | Some j =>
              if job_finished j then None
              else if (progress_percent j <=? percent) && (percent <=? 100)
              then
                let j := job_set_progress_percent percent j in
                Some (dkr_import_job_on_progress which
                        (set_session (set_job which (Some j) (session m)) m))
              else None
          end
      | EvOpenDisk =>
          match layer_job (session m) with
          | None => None
          | Some j =>
              if job_finished j then None
              else
                match dkr_import_job_on_open_disk m with
                | None => None
                | Some (r, m) =>
                    if r <? 0 then import_job_finish LAYER r "" m else Some m
                end
          end
      | EvFinished which ret body => import_job_finish which ret body m
      end
  end.

(** A pull as the sequence of events it receives. *)
Fixpoint run (evs : list Event) (m : Machine) : option Machine :=
  match evs with
  | [] => Some m
  | ev :: evs' =>
      match deliver ev m with
      | Some m' => run evs' m'
      | None => None
      end
  end.

(** The state after the events [evs]; a run that is refused stays where
    it started. *)
Definition after (evs : list Event) (m : Machine) : Machine :=
  match run evs m with
  | Some m' => m'
  | None => m
  end.

End Orchestrator.

(** ** A concrete registry, tokenizer and file system for the examples *)

Module Sample.

Definition dquote : ascii := ascii_of_nat 34.

(** A JSON string literal holding [s]. *)
Definition quoted (s : string) : string :=
  String dquote (s ++ String dquote EmptyString).

Definition is_space (c : ascii) : bool :=
  Ascii.eqb c " "%char || Ascii.eqb c (ascii_of_nat 9)
  || Ascii.eqb c (ascii_of_nat 10) || Ascii.eqb c (ascii_of_nat 13).

(** The characters up to the closing quote, and what follows it. *)
Fixpoint read_string (s : string) : option (string * string) :=
  match s with
  | EmptyString => None
  | String c rest =>
      if Ascii.eqb c dquote then Some (EmptyString, rest)
      else if Ascii.eqb c (ascii_of_nat 92) then None
      else
        match read_string rest with
        | Some (str, rest') => Some (String c str, rest')
        | None => None
        end
  end.

(** Modelled from the spec: the JSON tokenizer (json.c), which is not
    among the sources and which the spec names only through its interface
    (section 1); this one covers the fragment the registry payloads use:
    brackets, braces, colon, comma and strings without escapes, with white
    space between tokens; anything else is [-EINVAL]. *)
Fixpoint tokenize (s : string) : Z + (json_token * string * unit) :=
  match s with
  | EmptyString => inr (JSON_END, EmptyString, tt)
  | String c rest =>
      if is_space c then tokenize rest
      else if Ascii.eqb c "["%char then inr (JSON_ARRAY_OPEN, rest, tt)
      else if Ascii.eqb c "]"%char then inr (JSON_ARRAY_CLOSE, rest, tt)
      else if Ascii.eqb c "{"%char then inr (JSON_OBJECT_OPEN, rest, tt)
      else if Ascii.eqb c "}"%char then inr (JSON_OBJECT_CLOSE, rest, tt)
      else if Ascii.eqb c ","%char then inr (JSON_COMMA, rest, tt)
      else if Ascii.eqb c ":"%char then inr (JSON_COLON, rest, tt)
      else if Ascii.eqb c dquote then
        match read_string rest with
        | Some (str, rest') => inr (JSON_STRING str, rest', tt)
        | None => inl (- EINVAL)
        end
      else inl (- EINVAL)
  end.

#[export] Instance tokenizer : JsonTokenizer := {|
  json_state := unit;
  json_state_null := tt;
  json_tokenize := fun p _ => tokenize p
|}.

Definition string_forall (f : ascii -> bool) (s : string) : bool :=
  forallb f (list_ascii_of_string s).

Definition in_range (lo hi c : ascii) : bool :=
  (nat_of_ascii lo <=? nat_of_ascii c)%nat
  && (nat_of_ascii c <=? nat_of_ascii hi)%nat.

Definition is_lower (c : ascii) : bool := in_range "a" "z" c.
Definition is_upper (c : ascii) : bool := in_range "A" "Z" c.
Definition is_digit (c : ascii) : bool := in_range "0" "9" c.
Definition is_hex (c : ascii) : bool := is_digit c || in_range "a" "f" c.

Definition is_one_of (chars : string) (c : ascii) : bool :=
  existsb (Ascii.eqb c) (list_ascii_of_string chars).

Definition has_prefix (p s : string) : bool := String.prefix p s.

(** Modelled from the spec: the identifier predicates (section 6), whose
    code (import-util.c, util.c) is not among the sources.  Layer id: 64
    lowercase hex characters.  Repository name: lowercase alphanumerics
    plus [-], [_], [/], at most 255.  Tag: alphanumerics plus [-], [_],
    [.], not empty, at most 128.  Machine name and host name: letters,
    digits, [-] and (host name) [.], not empty, at most 64. *)
#[export] Instance predicates : Predicates := {|
  dkr_id_is_valid := fun s =>
    (String.length s =? 64)%nat && string_forall is_hex s;
  dkr_name_is_valid := fun s =>
    (1 <=? String.length s)%nat && (String.length s <=? 255)%nat
    && string_forall
         (fun c => is_lower c || is_digit c || is_one_of "-_/" c) s;
  dkr_tag_is_valid := fun s =>
    (1 <=? String.length s)%nat && (String.length s <=? 128)%nat
    && string_forall
         (fun c => is_lower c || is_upper c || is_digit c
                   || is_one_of "-_." c) s;
  machine_name_is_valid := fun s =>
    (1 <=? String.length s)%nat && (String.length s <=? 64)%nat
    && string_forall
         (fun c => is_lower c || is_upper c || is_digit c
                   || is_one_of "-" c) s;
  hostname_is_valid := fun s =>
    (1 <=? String.length s)%nat && (String.length s <=? 64)%nat
    && string_forall
         (fun c => is_lower c || is_upper c || is_digit c
                   || is_one_of "-." c) s;
  http_url_is_valid := fun s =>
    (has_prefix "http://" s && (7 <? String.length s)%nat)
    || (has_prefix "https://" s && (8 <? String.length s)%nat)
|}.

(** The file system of the examples: the paths that exist. *)
Definition Paths : Type := list string.

Definition present (w : Paths) (p : string) : bool :=
  existsb (String.eqb p) w.

Definition without (w : Paths) (p : string) : Paths :=
  filter (fun q => negb (String.eqb p q)) w.

Fixpoint repeat_char (n : nat) (c : ascii) : string :=
  match n with
  | O => EmptyString
  | S n' => String c (repeat_char n' c)
  end.

Definition drop_spaces (s : string) : string :=
  (fix go (s : string) : string :=
     match s with
     | String c rest => if is_space c then go rest else s
     | EmptyString => EmptyString
     end) s.

(** The words of [s] between separators [sep]; empty words are dropped. *)
Fixpoint split_words (sep : ascii) (cur s : string) : list string :=
  match s with
  | EmptyString =>
      match cur with EmptyString => [] | _ => [cur] end
  | String c rest =>
      if Ascii.eqb c sep then
        match cur with
        | EmptyString => split_words sep EmptyString rest
        | _ => cur :: split_words sep EmptyString rest
        end
      else split_words sep (cur ++ String c EmptyString)%string rest
  end.

(** Modelled from the spec: the layer store and the snapshot manager
    (sections 4.3 and 4.4), the extraction pipe (4.5) and the header
    helpers (4.1), whose code is not among the sources.  A subvolume is
    made or snapshotted only where nothing exists yet, a snapshot needs
    its source, [rename] fails with [EEXIST] on an existing target, the
    local copy fails with [EEXIST] on an existing name unless forced; the
    temporary name is the final one with a suffix that depends on the
    world; tar runs as process 100 and exits with 0; every job starts. *)
#[export] Instance system : System := {|
  World := Paths;
  laccess := fun w p => if present w p then 0 else - ENOENT;
  tempfn_random := fun w p =>
    (p ++ "." ++ repeat_char (S (List.length w)) "x")%string;
  mkdir_parents_label := fun w _ => w;
  btrfs_subvol_snapshot := fun w src dst _ _ =>
    if negb (present w src) then (- ENOENT, w)
    else if present w dst then (- EEXIST, w)
    else (0, dst :: w);
  btrfs_subvol_make := fun w p =>
    if present w p then (- EEXIST, w) else (0, p :: w);
  import_fork_tar := fun w _ => (inr (3%N, 100%positive), w);
  wait_for_terminate_and_warn := fun w _ => (0, w);
  aufs_resolve := fun w _ => (0, w);
  btrfs_subvol_set_read_only := fun w _ _ => (0, w);
  rename := fun w old new =>
    if present w new then (- EEXIST, w)
    else if negb (present w old) then (- ENOENT, w)
    else (0, new :: without w old);
  import_make_local_copy := fun w final root loc force =>
    let p := (root ++ "/" ++ loc)%string in
    if negb (present w final) then (- ENOENT, w)
    else if present w p then if force then (0, w) else (- EEXIST, w)
    else (0, p :: w);
  kill_and_sigcont := fun w _ => w;
  wait_for_terminate := fun w _ => w;
  btrfs_subvol_remove := fun w p => without w p;
  rm_rf_dangerous := fun w p => without w p;
  sd_event_default := 0;
  curl_glue_new := 0;
  import_job_begin := fun _ => 0;
  curl_header_strdup := fun header field =>
    if has_prefix field header then
      Some (drop_spaces
              (substring (String.length field)
                 (String.length header - String.length field) header))
    else None;
  strv_split := fun s sep =>
    match sep with
    | String c _ => split_words c EmptyString s
    | EmptyString => [s]
    end
|}.

(** Two layer ids, a registry and a session for the examples. *)
Definition layerA : string := repeat_char 64 "a".
Definition layerB : string := repeat_char 64 "b".

Definition new_session : DkrImport :=
  match dkr_import_new true "https://index.example/" (Some "/img") with
  | inr i => i
  | inl _ => mkDkrImport "" "" None None None None None "" "" "" None []
               [] 0 0 None false None None 0
  end.

Definition headers : list Event :=
  [EvHeader "X-Docker-Token: T"; EvHeader "X-Docker-Endpoints: r.example"].

(** The same system on a file system that is not btrfs: making a
    subvolume fails with [ENOTTY]. *)
Definition ENOTTY : Z := 25.

Definition system_without_btrfs : System := {|
  World := Paths;
  laccess := laccess (System := system);
  tempfn_random := tempfn_random (System := system);
  mkdir_parents_label := mkdir_parents_label (System := system);
  btrfs_subvol_snapshot := fun w _ _ _ _ => (- ENOTTY, w);
  btrfs_subvol_make := fun w _ => (- ENOTTY, w);
  import_fork_tar := import_fork_tar (System := system);
  wait_for_terminate_and_warn := wait_for_terminate_and_warn (System := system);
  aufs_resolve := aufs_resolve (System := system);
  btrfs_subvol_set_read_only := btrfs_subvol_set_read_only (System := system);
  rename := rename (System := system);
  import_make_local_copy := import_make_local_copy (System := system);
  kill_and_sigcont := kill_and_sigcont (System := system);
  wait_for_terminate := wait_for_terminate (System := system);
  btrfs_subvol_remove := btrfs_subvol_remove (System := system);
  rm_rf_dangerous := rm_rf_dangerous (System := system);
  sd_event_default := sd_event_default (System := system);
  curl_glue_new := curl_glue_new (System := system);
  import_job_begin := import_job_begin (System := system);
  curl_header_strdup := curl_header_strdup (System := system);
  strv_split := strv_split (System := system)
|}.

(** A pull of [library/busybox], tag [latest], no local name, started in
    the world [w]. *)
Definition started_in (w : Paths) : Machine :=
  snd (dkr_import_pull "library/busybox" None None false
         (machine_of new_session w)).

(** The index names the registry and the tag resolves to [layerB]. *)
Definition resolve : list Event :=
  (headers ++ [EvFinished IMAGES 0 ""; EvFinished TAGS 0 (quoted layerB)])%list.

Definition resolved_in (w : Paths) : Machine := after resolve (started_in w).

(** The image [layerB] on top of [layerA], newest first as the registry
    sends it. *)
Definition ancestry_payload : string :=
  "[" ++ quoted layerB ++ "," ++ quoted layerA ++ "]".

(** An ancestry that does not end in the resolved id. *)
Definition mismatch_payload : string := "[" ++ quoted layerA ++ "]".

(** [n + 1] copies of [s], separated by commas. *)
Fixpoint comma_separated (n : nat) (s : string) : string :=
  match n with
  | O => s
  | S n' => s ++ "," ++ comma_separated n' s
  end.

(** An array of 2049 layer ids. *)
Definition oversized_payload : string :=
  "[" ++ comma_separated 2048 (quoted layerA) ++ "]".

(** An array with a comma after its last string. *)
Definition trailing_comma_payload : string := "[" ++ quoted layerB ++ ",]".

(** The ancestry job ended while the json job is still running: the first
    layer has been requested. *)
Definition downloading : Machine :=
  after [EvFinished ANCESTRY 0 ancestry_payload] (resolved_in []).

(** The body of the first layer has begun to arrive. *)
Definition extracting : Machine := after [EvOpenDisk] downloading.

(** A whole pull into the empty image root, with the progress the jobs
    report; the json job is the last to end. *)
Definition whole_pull : list Event :=
  (headers
   ++ [EvProgress IMAGES 100; EvFinished IMAGES 0 "";
       EvProgress TAGS 100; EvFinished TAGS 0 (quoted layerB);
       EvProgress ANCESTRY 100; EvFinished ANCESTRY 0 ancestry_payload;
       EvOpenDisk; EvProgress LAYER 100; EvProgress JSON 50;
       EvFinished LAYER 0 "";
       EvOpenDisk; EvProgress LAYER 100; EvFinished LAYER 0 "";
       EvProgress JSON 100; EvFinished JSON 0 "{}"])%list.

Definition pulled : Machine := after whole_pull (started_in []).

(** The world a first pull leaves: both layers are in the image root. *)
Definition pulled_world : Paths := world pulled.

(** The same pull on a file system without btrfs, up to the first layer
    request. *)
Definition started_without_btrfs : Machine (SY := system_without_btrfs) :=
  snd (dkr_import_pull (SY := system_without_btrfs) "library/busybox" None
         None false
         (machine_of (SY := system_without_btrfs) new_session []%list)).

Definition downloading_without_btrfs :
    Machine (SY := system_without_btrfs) :=
  after (SY := system_without_btrfs)
    (resolve ++ [EvFinished ANCESTRY 0 ancestry_payload])%list
    started_without_btrfs.

(** The second layer has been requested, with its parent sealed; then the
    parent's final directory is removed from under the pull. *)
Definition second_layer_requested : Machine :=
  after [EvFinished LAYER 0 ""] extracting.

Definition parent_removed : Machine :=
  set_world (without (world second_layer_requested) (layer_path "/img" layerA))
    second_layer_requested.

(** Two pulls of the one-layer image [layerB] race: both request the
    layer and open their temporary subvolume, the first seals, and the
    second is about to. *)
Definition single_payload : string := "[" ++ quoted layerB ++ "]".

Definition first_racer : Machine :=
  after [EvFinished ANCESTRY 0 single_payload; EvOpenDisk] (resolved_in []).

Definition second_racer : Machine :=
  after [EvFinished ANCESTRY 0 single_payload; EvOpenDisk]
    (resolved_in (world first_racer)).

Definition first_sealed : Machine :=
  after [EvFinished LAYER 0 ""] (set_world (world second_racer) first_racer).

Definition second_about_to_seal : Machine :=
  set_world (world first_sealed) second_racer.

(** The index has answered with its headers; the images job is still
    running. *)
Definition indexed : Machine := after headers (started_in []).

(** The images job has ended and the tags job is running. *)
Definition tags_pending : Machine :=
  after (headers ++ [EvFinished IMAGES 0 ""])%list (started_in []).

(** A session about to scan the ancestry [layerA; layerB] where only
    [layerA] is in the image root. *)
Definition scanning : Machine :=
  set_world [layer_path "/img" layerA]
    (set_session
       (set_current_ancestry 0
          (set_n_ancestry 2
             (set_ancestry [layerA; layerB] (session (resolved_in [])))))
       (resolved_in [])).

End Sample.

(** ** Specification vocabulary for the parsers *)

Close Scope string_scope.

Section ParserSpec.
Context {JT : JsonTokenizer} {PR : Predicates}.

(** [reads p js toks p' js']: called again and again from [(p, js)], the
    tokenizer hands back the tokens [toks], in this order and without an
    error, and is then at [(p', js')]. *)
Inductive reads :
    string -> json_state -> list json_token -> string -> json_state -> Prop :=
| reads_nil p js : reads p js [] p js
| reads_cons p js t p1 js1 toks p' js' :
    json_tokenize p js = inr (t, p1, js1) ->
    reads p1 js1 toks p' js' ->
    reads p js (t :: toks) p' js'.

(** The payload consists of the tokens [toks] and nothing more. *)
Definition tokenizes (payload : string) (toks : list json_token) : Prop :=
  exists p js, reads payload json_state_null (toks ++ [JSON_END]) p js.

(** Strings separated by commas, or nothing. *)
Fixpoint sep_by_comma (ids : list string) : list json_token :=
  match ids with
  | [] => []
  | s :: rest =>
      match rest with
      | [] => [JSON_STRING s]
      | _ => JSON_STRING s :: JSON_COMMA :: sep_by_comma rest
      end
  end.

(** The grammar of the spec: an opening bracket, strings separated by
    commas (or no string at all), a closing bracket. *)
Definition array_tokens (ids : list string) : list json_token :=
  JSON_ARRAY_OPEN :: sep_by_comma ids ++ [JSON_ARRAY_CLOSE].

(** The same with a comma allowed after the last string. *)
Definition array_tokens_lax (ids : list string) (trailing : bool) :
    list json_token :=
  JSON_ARRAY_OPEN
  :: sep_by_comma ids
     ++ (if trailing then [JSON_COMMA] else []) ++ [JSON_ARRAY_CLOSE].

(** What the claim on [parse_ancestry] demands of a payload that is
    accepted with result [l], with the grammar as the spec words it. *)
Definition ancestry_accepted_strict (payload : string) (l : list string) :
    Prop :=
  payload <> EmptyString /\ memchr_nul payload = false
  /\ exists ids,
       tokenizes payload (array_tokens ids)
       /\ forallb dkr_id_is_valid ids = true
       /\ ids <> [] /\ NoDup ids
       /\ strv_length ids <= LAYERS_MAX
       /\ l = rev ids.

(** The same with the grammar the code implements. *)
Definition ancestry_accepted (payload : string) (l : list string) : Prop :=
  payload <> EmptyString /\ memchr_nul payload = false
  /\ exists ids trailing,
       tokenizes payload (array_tokens_lax ids trailing)
       /\ forallb dkr_id_is_valid ids = true
       /\ ids <> [] /\ NoDup ids
       /\ strv_length ids <= LAYERS_MAX
       /\ l = rev ids.

(** The passes of the [switch] over a list of tokens, up to the first
    [return]. *)
Fixpoint switch_all (state : ancestry_state) (l : list string)
    (toks : list json_token) : switch_result :=
  match toks with
  | [] => Continue state l
  | t :: toks' =>
      match ancestry_switch state l t with
      | Continue state' l' => switch_all state' l' toks'
      | Return r => Return r
      end
  end.

(** [walks state toks ids state']: the tokens [toks] lead the state
    machine of [parse_ancestry] from [state] to [state'], and [ids] are
    the strings among them. *)
Inductive walks :
    ancestry_state -> list json_token -> list string -> ancestry_state -> Prop :=
| walks_nil state : walks state [] [] state
| walks_open toks ids state' :
    walks STATE_ITEM toks ids state' ->
    walks STATE_BEGIN (JSON_ARRAY_OPEN :: toks) ids state'
| walks_string s toks ids state' :
    walks STATE_COMMA toks ids state' ->
    walks STATE_ITEM (JSON_STRING s :: toks) (s :: ids) state'
| walks_item_close toks ids state' :
    walks STATE_END toks ids state' ->
    walks STATE_ITEM (JSON_ARRAY_CLOSE :: toks) ids state'
| walks_comma toks ids state' :
    walks STATE_ITEM toks ids state' ->
    walks STATE_COMMA (JSON_COMMA :: toks) ids state'
| walks_comma_close toks ids state' :
    walks STATE_END toks ids state' ->
    walks STATE_COMMA (JSON_ARRAY_CLOSE :: toks) ids state'.

(** A bound on the passes the loop of [parse_ancestry] can still make
    from a state with the vector [l]. *)
Definition passes_left (st : ancestry_state) (l : list string) : Z :=
  match st with
  | STATE_BEGIN => 2 * (LAYERS_MAX - strv_length l) + 3
  | STATE_ITEM => 2 * (LAYERS_MAX - strv_length l) + 2
  | STATE_COMMA => 2 * (LAYERS_MAX - strv_length l) + 3
  | STATE_END => 1
  end.

End ParserSpec.

(** ** Specification vocabulary for the orchestrator *)

Section OrchestratorSpec.
Context {JT : JsonTokenizer} {PR : Predicates} {SY : System}.

Definition is_layer_request (q : Slot * string) : bool :=
  match fst q with LAYER => true | _ => false end.

(** The layer requests issued so far. *)
Definition layer_requests (m : Machine) : list (Slot * string) :=
  filter is_layer_request (requests m).

(** The states of a pull: a new session on which [dkr_import_pull]
    succeeded, in the world [w0], and what the events make of it. *)
Inductive reachable (w0 : World) : Machine -> Prop :=
| reachable_pull event url root i name_arg tag_arg local_arg force r m :
    dkr_import_new event url root = inr i ->
    dkr_import_pull name_arg tag_arg local_arg force (machine_of i w0)
    = (r, m) ->
    0 <= r ->
    reachable w0 m
| reachable_deliver m ev m' :
    reachable w0 m -> deliver ev m = Some m' -> reachable w0 m'.

(** The arguments of [dkr_import_pull] pass its three checks. *)
Definition pull_arguments_valid (name_arg : string)
    (tag_arg local_arg : option string) : bool :=
  dkr_name_is_valid name_arg
  && match tag_arg with Some t => dkr_tag_is_valid t | None => true end
  && match local_arg with Some l => machine_name_is_valid l | None => true end.

(** The invariant of the data model (section 3): [temp_path] is set
    exactly when the tar child is, then there is a layer job, and at most
    one layer job is allocated. *)
Definition extraction_invariant (m : Machine) : Prop :=
  (temp_path (session m) <> None <-> 0 < tar_pid (session m))
  /\ (temp_path (session m) <> None -> layer_job (session m) <> None)
  /\ live_layer_jobs m
     = match layer_job (session m) with Some _ => 1%nat | None => 0%nat end.

(** Nothing of the download phase has happened yet: no layer job, no
    paths, no tar child, no layer request, and the world is still [w0]. *)
Definition download_not_started (w0 : World) (m : Machine) : Prop :=
  layer_job (session m) = None /\ temp_path (session m) = None
  /\ final_path (session m) = None /\ tar_pid (session m) = 0
  /\ layer_requests m = [] /\ world m = w0
  /\ live_layer_jobs m = 0%nat.

(** What holds in every state of a pull that started in the world [w0]:
    the images job stays; a later job exists only once the earlier one is
    done; until the ancestry job is done nothing of the download phase
    has happened; and while the pull has not ended, the invariant of the
    data model. *)
Definition pull_invariant (w0 : World) (m : Machine) : Prop :=
  images_job (session m) <> None
  /\ (tags_job (session m) <> None -> job_done (images_job (session m)) = true)
  /\ (ancestry_job (session m) <> None ->
      job_done (tags_job (session m)) = true)
  /\ (job_done (ancestry_job (session m)) = false ->
      download_not_started w0 m)
  /\ (completed m = [] -> extraction_invariant m).

(** What a branch of [dkr_import_job_on_finished] must leave: the
    invariant, with the pull still running after a fall through. *)
Definition exit_invariant (w0 : World) (b : branch_exit) : Prop :=
  match b with
  | FallThrough m => pull_invariant w0 m /\ completed m = []
  | GotoFinish r m => pull_invariant w0 (finish r m)
  end.

(** [dkr_import_job_on_open_disk] as the spec words it: the parent is
    snapshotted when the cursor is past the first layer and the parent's
    final directory exists, and otherwise a fresh subvolume is made. *)
Definition on_open_disk_as_specified (m : Machine) : option (Z * Machine) :=
  let i := session m in
  match layer_job i, final_path i, temp_path i with
  | Some j, Some final, None =>
      if 0 <? tar_pid i then None
      else
        let temp := tempfn_random (world m) final in
        let i := set_temp_path (Some temp) i in
        let w := mkdir_parents_label (world m) temp in
        let parent :=
          match dkr_import_current_base_layer i with
          | Some base =>
              if 0 <=? laccess w (layer_path (image_root i) base) then
                Some base
              else None
          | None => None
          end in
        let (r, w) :=
          match parent with
          | Some base =>
              btrfs_subvol_snapshot w (layer_path (image_root i) base) temp
                false true
          | None => btrfs_subvol_make w temp
          end in
        if r <? 0 then Some (r, set_world w (set_session i m))
        else
          match import_fork_tar w temp with
          | (inl e, w) =>
              let i := set_layer_job (Some (job_set_disk_fd (Z.neg e) j)) i in
              Some (Z.neg e, set_world w (set_session i m))
          | (inr (fd, pid), w) =>
              let i :=
                set_layer_job (Some (job_set_disk_fd (Z.of_N fd) j)) i in
              let i := set_tar_pid (Z.pos pid) i in
              Some (0, set_world w (set_session i m))
          end
  | _, _, _ => None
  end.

(** C1 as the spec states it: a layer request has been issued only if
    both METADATA jobs are done. *)
Definition download_waits_for_metadata (m : Machine) : Prop :=
  layer_requests m <> [] ->
  job_done (ancestry_job (session m)) = true
  /\ job_done (json_job (session m)) = true.

(** The layer of the final directory [{root}/.dkr-{layer}] is present. *)
Definition layer_present (w : World) (root layer : string) : Prop :=
  0 <= laccess w (layer_path root layer).



(** A list of percentages never goes down. *)
Fixpoint non_decreasing (l : list Z) : bool :=
  match l with
  | [] => true
  | x :: rest =>
      match rest with
      | [] => true
      | y :: _ => (x <=? y) && non_decreasing rest
      end
  end.

(** The session a scan ends with. *)
Definition scan_session (res : layer_scan) : DkrImport :=
  match res with
  | NoMoreLayers i => i
  | ScanFailed _ i => i
  | LayerMissing _ _ i => i
  end.

(** The layer job [dkr_import_pull_layer] creates for [layer]. *)
Definition new_layer_job (i : DkrImport) (registry layer : string) :
    ImportJob :=
  dkr_import_add_token i
    (import_job_new
       (PROTOCOL_PREFIX ++ registry ++ "/v1/images/" ++ layer ++ "/layer")%string).

End OrchestratorSpec.

(** ** Vocabulary for the callbacks and the invariants of a pull *)

Section CallbackSpec.
Context {JT : JsonTokenizer} {PR : Predicates} {SY : System}.

(** The progress a job reports lies between 0 and 100. *)
Definition progress_in_range (j : option ImportJob) : Prop :=
  match j with
  | Some j => 0 <= progress_percent j <= 100
  | None => True
  end.

(** A job as [import_job_new] and [dkr_import_add_token] set it up. *)
Definition new_job (i : DkrImport) (u : string) : ImportJob :=
  dkr_import_add_token i (import_job_new u).

(** The URLs of the four kinds of request that follow the images
    request. *)
Definition tags_url (registry name_arg tag_arg : string) : string :=
  (PROTOCOL_PREFIX ++ registry ++ "/v1/repositories/" ++ name_arg ++ "/tags/"
   ++ tag_arg)%string.

Definition image_url (registry image what : string) : string :=
  (PROTOCOL_PREFIX ++ registry ++ "/v1/images/" ++ image ++ what)%string.

(** A job that ended: well, with its payload, or with an error. *)
Definition job_ended_well (body : string) (j : ImportJob) : ImportJob :=
  job_set_error 0 (job_set_payload body (job_set_state IMPORT_JOB_DONE j)).

Definition job_ended_badly (ret : Z) (j : ImportJob) : ImportJob :=
  job_set_error ret (job_set_state IMPORT_JOB_FAILED j).

(** The machine with [j] in the slot [which]. *)
Definition with_job (which : Slot) (j : ImportJob) (m : Machine) : Machine :=
  set_session (set_job which (Some j) (session m)) m.

(** [P] holds where a branch of [dkr_import_job_on_finished] leaves:
    after a fall through, and after the result went out at [finish:]. *)
Definition exit_holds (P : Machine -> Prop) (b : branch_exit) : Prop :=
  match b with
  | FallThrough m => P m
  | GotoFinish r m => P (finish r m)
  end.

(** The session the ancestry branch hands to [dkr_import_pull_layer]. *)
Definition with_ancestry (l : list string) (i : DkrImport) : DkrImport :=
  set_current_ancestry 0 (set_n_ancestry (strv_length l) (set_ancestry l i)).

(** The session the layer branch hands to [dkr_import_pull_layer] once
    the layer is in place. *)
Definition layer_released (i : DkrImport) : DkrImport :=
  set_current_ancestry (current_ancestry i + 1)
    (set_final_path None (set_temp_path None (set_layer_job None i))).

(** The ancestry of the session: [n_ancestry] is its length, the cursor
    is within it, it has at most [LAYERS_MAX] entries, all of them valid
    ids and no two equal, and it ends in the resolved id. *)
Definition ancestry_well_formed (i : DkrImport) : Prop :=
  n_ancestry i = strv_length (ancestry i)
  /\ 0 <= current_ancestry i <= n_ancestry i
  /\ n_ancestry i <= LAYERS_MAX
  /\ NoDup (ancestry i)
  /\ forallb dkr_id_is_valid (ancestry i) = true
  /\ (ancestry i <> [] -> last (ancestry i) EmptyString = id i).

(** What the session of a pull looks like in every state. *)
Definition session_shape (m : Machine) : Prop :=
  forallb hostname_is_valid (response_registries (session m)) = true
  /\ (tags_job (session m) <> None -> response_registries (session m) <> [])
  /\ (ancestry_job (session m) <> None -> json_job (session m) <> None)
  /\ (json_job (session m) <> None -> ancestry_job (session m) <> None)
  /\ (ancestry_job (session m) <> None ->
      dkr_id_is_valid (id (session m)) = true)
  /\ ancestry_well_formed (session m)
  /\ (job_done (ancestry_job (session m)) = false ->
      ancestry (session m) = [])
  /\ (layer_job (session m) <> None -> final_path (session m) <> None)
  /\ (layer_job (session m) <> None ->
      current_ancestry (session m) < n_ancestry (session m))
  /\ progress_in_range (images_job (session m))
  /\ progress_in_range (tags_job (session m))
  /\ progress_in_range (ancestry_job (session m))
  /\ progress_in_range (json_job (session m))
  /\ progress_in_range (layer_job (session m))
  /\ 0 <= tar_pid (session m)
  /\ (0 < tar_pid (session m) -> temp_path (session m) <> None).

(** Every percentage sent so far lies between 0 and 95. *)
Definition notified_in_range (m : Machine) : Prop :=
  Forall (fun p => 0 <= p <= 95) (notified m).

(** The kinds of the requests issued so far, oldest first. *)
Definition request_kinds (m : Machine) : list Slot :=
  map fst (requests m).

(** The requests follow the jobs of the session: the images request
    alone while there is no tags job, then the tags request, then the
    ancestry and the json request, then layer requests only.  The json
    request is missing only when the ancestry job could not be started,
    which ends the pull. *)
Definition requests_in_order (m : Machine) : Prop :=
  (tags_job (session m) = None -> request_kinds m = [IMAGES])
  /\ (tags_job (session m) <> None -> ancestry_job (session m) = None ->
      request_kinds m = [IMAGES; TAGS])
  /\ (ancestry_job (session m) <> None ->
      (request_kinds m = [IMAGES; TAGS; ANCESTRY] /\ completed m <> [])
      \/ exists n,
           request_kinds m
           = [IMAGES; TAGS; ANCESTRY; JSON] ++ repeat LAYER n).

(** The registry the session talks to: the first of the endpoints. *)
Definition registry_of (i : DkrImport) : string :=
  hd EmptyString (response_registries i).

(** The URL of a request of each kind, for the session [i]: the images
    request goes to the index, every other request to the first registry;
    a layer request is for a layer of the ancestry. *)
Definition request_url_ok (i : DkrImport) (q : Slot * string) : Prop :=
  match fst q with
  | IMAGES =>
      snd q
      = (index_url i ++ "/v1/repositories/" ++ name i ++ "/images")%string
  | TAGS => snd q = tags_url (registry_of i) (name i) (tag i)
  | ANCESTRY => snd q = image_url (registry_of i) (id i) "/ancestry"
  | JSON => snd q = image_url (registry_of i) (id i) "/json"
  | LAYER =>
      exists layer,
        In layer (ancestry i)
        /\ snd q = image_url (registry_of i) layer "/layer"
  end.

Definition request_urls_ok (m : Machine) : Prop :=
  Forall (request_url_ok (session m)) (requests m).

(** The layers below this index have been dealt with: the cursor, and
    one more while the layer under the cursor is being fetched. *)
Definition layer_bound (i : DkrImport) : Z :=
  current_ancestry i + match layer_job i with Some _ => 1 | None => 0 end.

(** The request for the layer at the index [k] of the ancestry. *)
Definition layer_request_at (i : DkrImport) (k : nat) : Slot * string :=
  (LAYER,
   image_url (registry_of i) (nth k (ancestry i) EmptyString) "/layer").

(** The layer requests are for layers of the ancestry at increasing
    indices below [layer_bound]. *)
Definition layers_in_order (m : Machine) : Prop :=
  exists idxs : list nat,
    layer_requests m = map (layer_request_at (session m)) idxs
    /\ StronglySorted lt idxs
    /\ Forall (fun k => Z.of_nat k < layer_bound (session m)) idxs.

(** The second request header [dkr_import_add_token] sets: the token of
    the session, or the request for one. *)
Definition token_header (i : DkrImport) : string :=
  match response_token i with
  | Some token => ("Authorization: Token " ++ token)%string
  | None => (HEADER_TOKEN ++ " true")%string
  end.

Definition header_ok (h : list string) (j : option ImportJob) : Prop :=
  match j with
  | Some j => request_header j = h
  | None => True
  end.

(** The images job asks for a token; every later job presents the token
    of the session. *)
Definition job_headers_ok (m : Machine) : Prop :=
  header_ok ["Accept: application/json"%string;
             (HEADER_TOKEN ++ " true")%string]
    (images_job (session m))
  /\ header_ok ["Accept: application/json"%string; token_header (session m)]
       (tags_job (session m))
  /\ header_ok ["Accept: application/json"%string; token_header (session m)]
       (ancestry_job (session m))
  /\ header_ok ["Accept: application/json"%string; token_header (session m)]
       (json_job (session m))
  /\ header_ok ["Accept: application/json"%string; token_header (session m)]
       (layer_job (session m)).



End CallbackSpec.

(** * Theorems *)

(** ** The ancestry parser *)

Section ParserTheorems.
Context {JT : JsonTokenizer} {PR : Predicates}.

Lemma strv_is_uniq_NoDup (l : list string) :
  strv_is_uniq l = true <-> NoDup l.
Proof.
  induction l as [|s l IH]; simpl.
  - split; [constructor | reflexivity].
  - rewrite andb_true_iff, negb_true_iff, IH. split.
    + intros [Hex Hnd]. constructor; [|exact Hnd].
      intro Hin.
      assert (existsb (String.eqb s) l = true) as Ht.
      { apply existsb_exists. exists s. split; [exact Hin|].
        apply String.eqb_refl. }
      congruence.
    + intro Hnd. inversion Hnd as [|x xs Hnin Hnd']; subst. split; [|exact Hnd'].
      destruct (existsb (String.eqb s) l) eqn:He; [|reflexivity].
      apply existsb_exists in He. destruct He as [x [Hin Hx]].
      apply String.eqb_eq in Hx. subst x. contradiction.
Qed.

Lemma reads_app p js toks1 toks2 p1 js1 p2 js2 :
  reads p js toks1 p1 js1 -> reads p1 js1 toks2 p2 js2 ->
  reads p js (toks1 ++ toks2) p2 js2.
Proof.
  induction 1 as [|p js t pa jsa toks p' js' Htok _ IH]; intro H2; simpl.
  - exact H2.
  - econstructor; [exact Htok | exact (IH H2)].
Qed.

Lemma reads_app_inv p js toks1 toks2 p2 js2 :
  reads p js (toks1 ++ toks2) p2 js2 ->
  exists p1 js1, reads p js toks1 p1 js1 /\ reads p1 js1 toks2 p2 js2.
Proof.
  revert p js. induction toks1 as [|t toks1 IH]; intros p js H; simpl in H.
  - exists p, js. split; [constructor | exact H].
  - inversion H as [|? ? ? pa jsa ? ? ? Htok Hrest]; subst.
    destruct (IH _ _ Hrest) as [p1 [js1 [Ha Hb]]].
    exists p1, js1. split; [econstructor; eassumption | exact Hb].
Qed.

Lemma reads_deterministic p js toks pa jsa pb jsb :
  reads p js toks pa jsa -> reads p js toks pb jsb -> pa = pb /\ jsa = jsb.
Proof.
  induction 1 as [|p js t p1 js1 toks p' js' Htok _ IH]; intro H2.
  - inversion H2; subst. split; reflexivity.
  - inversion H2 as [|? ? ? p1' js1' ? ? ? Htok' Hrest]; subst.
    rewrite Htok in Htok'. inversion Htok'; subst. exact (IH Hrest).
Qed.

(** More fuel does not change a result. *)
Lemma parse_ancestry_loop_mono fuel k p js st l r :
  parse_ancestry_loop fuel p js st l = Some r ->
  parse_ancestry_loop (fuel + k) p js st l = Some r.
Proof.
  revert p js st l. induction fuel as [|fuel IH]; intros p js st l H.
  - discriminate.
  - simpl in *. destruct (json_tokenize p js) as [e|[[t p1] js1]]; [exact H|].
    destruct (ancestry_switch st l t) as [st' l'|r']; [|exact H].
    apply IH. exact H.
Qed.

Lemma strv_length_app l s : strv_length (l ++ [s]) = strv_length l + 1.
Proof. unfold strv_length. rewrite length_app. simpl. lia. Qed.

Lemma strv_length_nonneg l : 0 <= strv_length l.
Proof. unfold strv_length. lia. Qed.

Lemma ancestry_switch_passes st l t st' l' :
  strv_length l <= LAYERS_MAX ->
  ancestry_switch st l t = Continue st' l' ->
  strv_length l' <= LAYERS_MAX
  /\ passes_left st' l' + 1 <= passes_left st l.
Proof.
  intros Hl H. pose proof (strv_length_nonneg l) as Hn.
  unfold ancestry_switch in H.
  destruct st; destruct t; try discriminate;
    try (inversion H; subst; unfold passes_left; split; lia).
  - destruct (negb (dkr_id_is_valid str)); [discriminate|].
    destruct (strv_length l + 1 >? LAYERS_MAX) eqn:Hgt; [discriminate|].
    inversion H; subst. rewrite Z.gtb_ltb in Hgt. apply Z.ltb_ge in Hgt.
    unfold passes_left. rewrite strv_length_app. split; lia.
  - destruct (strv_isempty l); [discriminate|].
    destruct (negb (strv_is_uniq l)); discriminate.
Qed.

(** The loop is total: with the fuel the state allows it returns. *)
Lemma parse_ancestry_loop_total fuel p js st l :
  strv_length l <= LAYERS_MAX ->
  passes_left st l <= Z.of_nat fuel ->
  exists r, parse_ancestry_loop fuel p js st l = Some r.
Proof.
  revert p js st l. induction fuel as [|fuel IH]; intros p js st l Hl Hf.
  - pose proof (strv_length_nonneg l).
    destruct st; unfold passes_left in Hf; lia.
  - simpl. destruct (json_tokenize p js) as [e|[[t p1] js1]]; [eexists; reflexivity|].
    destruct (ancestry_switch st l t) as [st' l'|r'] eqn:Hsw; [|eexists; reflexivity].
    destruct (ancestry_switch_passes _ _ _ _ _ Hl Hsw) as [Hl' Hm].
    apply IH; [exact Hl' | lia].
Qed.

Lemma parse_ancestry_fuel_enough :
  passes_left STATE_BEGIN [] <= Z.of_nat parse_ancestry_fuel.
Proof.
  unfold parse_ancestry_fuel. rewrite Z2Nat.id; unfold passes_left, strv_length, LAYERS_MAX; simpl; lia.
Qed.

(** Reading tokens that keep the switch going is a number of passes. *)
Lemma loop_reads_continue p js toks p' js' :
  reads p js toks p' js' ->
  forall st l st' l' fuel,
    switch_all st l toks = Continue st' l' ->
    parse_ancestry_loop (List.length toks + fuel) p js st l
    = parse_ancestry_loop fuel p' js' st' l'.
Proof.
  induction 1 as [|p js t p1 js1 toks p' js' Htok _ IH];
    intros st l st' l' fuel Hsw; simpl in *.
  - inversion Hsw; subst. reflexivity.
  - rewrite Htok. destruct (ancestry_switch st l t) as [st1 l1|r]; [|discriminate].
    apply IH. exact Hsw.
Qed.

(** A result of the loop comes from the tokenizer failing, or from the
    switch returning on the last token read. *)
Lemma loop_decompose fuel p js st l r :
  parse_ancestry_loop fuel p js st l = Some r ->
  (exists toks p' js' st' l' e,
      reads p js toks p' js' /\ switch_all st l toks = Continue st' l'
      /\ json_tokenize p' js' = inl e /\ r = inl e)
  \/ (exists toks t p' js' st' l',
      reads p js (toks ++ [t]) p' js'
      /\ switch_all st l toks = Continue st' l'
      /\ ancestry_switch st' l' t = Return r).
Proof.
  revert p js st l. induction fuel as [|fuel IH]; intros p js st l H.
  - discriminate.
  - simpl in H. destruct (json_tokenize p js) as [e|[[t p1] js1]] eqn:Htok.
    + left. exists [], p, js, st, l, e. inversion H; subst.
      repeat split; [constructor | exact Htok].
    + destruct (ancestry_switch st l t) as [st1 l1|r1] eqn:Hsw.
      * destruct (IH _ _ _ _ H) as
          [[toks [p' [js' [st' [l' [e [Hr [Hs [He Hre]]]]]]]]]
          |[toks [t' [p' [js' [st' [l' [Hr [Hs Hlast]]]]]]]]].
        -- left. exists (t :: toks), p', js', st', l', e.
           repeat split; try assumption.
           ++ econstructor; eassumption.
           ++ simpl. rewrite Hsw. exact Hs.
        -- right. exists (t :: toks), t', p', js', st', l'.
           repeat split; try assumption.
           ++ simpl. econstructor; eassumption.
           ++ simpl. rewrite Hsw. exact Hs.
      * right. exists [], t, p1, js1, st, l. inversion H; subst.
        repeat split; [|exact Hsw].
        simpl. econstructor; [exact Htok | constructor].
Qed.

(** The switch keeps going exactly along the walks of the state machine,
    collecting valid ids, at most [LAYERS_MAX] of them. *)
Lemma switch_all_walks toks :
  forall st l st' l',
    switch_all st l toks = Continue st' l' <->
    exists ids,
      walks st toks ids st' /\ l' = l ++ ids
      /\ forallb dkr_id_is_valid ids = true
      /\ (ids = [] \/ strv_length (l ++ ids) <= LAYERS_MAX).
Proof.
  induction toks as [|t toks IH]; intros st l st' l'; simpl.
  - split.
    + intro H. inversion H; subst. exists []. rewrite app_nil_r.
      repeat split; [constructor | left; reflexivity].
    + intros [ids [Hw [Hl _]]]. inversion Hw; subst. rewrite app_nil_r.
      reflexivity.
  - split.
    + intro H. destruct (ancestry_switch st l t) as [st1 l1|r] eqn:Hsw;
        [|discriminate].
      apply IH in H. destruct H as [ids [Hw [Hl [Hv Hb]]]].
      unfold ancestry_switch in Hsw.
      destruct st; destruct t; try discriminate;
        try (inversion Hsw; subst; exists ids;
             repeat split; [constructor; exact Hw | exact Hv | exact Hb]).
      * destruct (dkr_id_is_valid str) eqn:Hvalid; [|discriminate].
        simpl in Hsw.
        destruct (strv_length l + 1 >? LAYERS_MAX) eqn:Hgt; [discriminate|].
        inversion Hsw; subst. exists (str :: ids).
        rewrite <- app_assoc in *. simpl in *.
        repeat split.
        -- constructor. exact Hw.
        -- rewrite Hvalid. exact Hv.
        -- right. destruct Hb as [Hb|Hb]; [|exact Hb]. subst ids.
           rewrite strv_length_app. rewrite Z.gtb_ltb in Hgt.
           apply Z.ltb_ge in Hgt. exact Hgt.
      * destruct (strv_isempty l); [discriminate|].
        destruct (negb (strv_is_uniq l)); discriminate.
    + intros [ids [Hw [Hl [Hv Hb]]]].
      inversion Hw; subst; simpl;
        try (apply IH; exists ids; repeat split; assumption).
      simpl in Hv. apply andb_true_iff in Hv. destruct Hv as [Hs Hv].
      rewrite Hs. simpl.
      assert (strv_length (l ++ s :: ids0) <= LAYERS_MAX) as Hlen.
      { destruct Hb as [Hb|Hb]; [discriminate | exact Hb]. }
      assert ((strv_length l + 1 >? LAYERS_MAX) = false) as Hgt.
      { rewrite Z.gtb_ltb. apply Z.ltb_ge.
        unfold strv_length in *. rewrite length_app in Hlen. simpl in Hlen.
        lia. }
      rewrite Hgt. apply IH. exists ids0. rewrite <- app_assoc. simpl.
      repeat split; try assumption. right. exact Hlen.
Qed.

Lemma walks_from_end toks ids st' :
  walks STATE_END toks ids st' -> toks = [] /\ ids = [] /\ st' = STATE_END.
Proof. intro H. inversion H; subst. repeat split. Qed.

Lemma sep_by_comma_cons s ids :
  ids <> [] ->
  sep_by_comma (s :: ids) = JSON_STRING s :: JSON_COMMA :: sep_by_comma ids.
Proof. destruct ids; [congruence | reflexivity]. Qed.

(** The walks from [STATE_ITEM] to [STATE_END]: the strings, separated by
    commas, with or without a comma after the last one, then the closing
    bracket. *)
Lemma walks_item_end ids :
  forall toks,
    walks STATE_ITEM toks ids STATE_END <->
    exists trailing : bool,
      toks = sep_by_comma ids
             ++ (if trailing then [JSON_COMMA] else []) ++ [JSON_ARRAY_CLOSE]
      /\ (ids = [] -> trailing = false).
Proof.
  induction ids as [|s ids IH]; intro toks.
  - split.
    + intro H. inversion H as [| | |toks1 ids1 st1 Hend| |]; subst.
      apply walks_from_end in Hend. destruct Hend as [-> _].
      exists false. split; [reflexivity | reflexivity].
    + intros [tr [Ht Htr]]. rewrite (Htr eq_refl) in Ht. subst toks. simpl.
      apply walks_item_close. constructor.
  - split.
    + intro H.
      inversion H as [| |s1 toks1 ids1 st1 Hc|toks1 ids1 st1 Hend| |]; subst;
        [|apply walks_from_end in Hend; destruct Hend as [_ [Hd _]];
          discriminate].
      inversion Hc as [| | | |toks2 ids2 st2 Hi|toks2 ids2 st2 He]; subst.
      * apply IH in Hi. destruct Hi as [tr [Ht Htr]]. subst toks2.
        destruct ids as [|s2 ids].
        -- rewrite (Htr eq_refl). exists true. split; [reflexivity|discriminate].
        -- exists tr. split; [reflexivity | discriminate].
      * apply walks_from_end in He. destruct He as [-> [-> _]].
        exists false. split; [reflexivity | discriminate].
    + intros [tr [Ht _]]. subst toks. destruct ids as [|s2 ids].
      * destruct tr; simpl.
        -- apply walks_string, walks_comma, walks_item_close. constructor.
        -- apply walks_string, walks_comma_close. constructor.
      * rewrite sep_by_comma_cons by discriminate. simpl.
        apply walks_string, walks_comma. apply IH. exists tr.
        split; [reflexivity | discriminate].
Qed.

Lemma walks_begin_end toks ids :
  walks STATE_BEGIN toks ids STATE_END <->
  exists trailing : bool,
    toks = array_tokens_lax ids trailing /\ (ids = [] -> trailing = false).
Proof.
  split.
  - intro H. inversion H as [|toks1 ids1 st1 Hi| | | |]; subst.
    apply walks_item_end in Hi. destruct Hi as [tr [Ht Htr]]. subst toks1.
    exists tr. split; [reflexivity | exact Htr].
  - intros [tr [Ht Htr]]. subst toks. unfold array_tokens_lax.
    apply walks_open. apply walks_item_end. exists tr.
    split; [reflexivity | exact Htr].
Qed.

(** A walk that is back in [STATE_ITEM] has read strings, each followed
    by a comma; one more string makes a comma-separated list. *)
Lemma walks_item_item ids :
  forall toks s,
    walks STATE_ITEM toks ids STATE_ITEM ->
    toks ++ [JSON_STRING s] = sep_by_comma (ids ++ [s]).
Proof.
  induction ids as [|s0 ids IH]; intros toks s H.
  - inversion H as [| | |toks1 ids1 st1 Hend| |]; subst; [reflexivity|].
    apply walks_from_end in Hend. destruct Hend as [_ [_ Hst]]. discriminate.
  - inversion H as [| |s1 toks1 ids1 st1 Hc|toks1 ids1 st1 Hend| |]; subst;
      [|apply walks_from_end in Hend; destruct Hend as [_ [Hd _]];
        discriminate].
    inversion Hc as [| | | |toks2 ids2 st2 Hi|toks2 ids2 st2 He]; subst.
    + simpl app. rewrite sep_by_comma_cons by (destruct ids; discriminate).
      rewrite <- (IH _ _ Hi). reflexivity.
    + apply walks_from_end in He. destruct He as [_ [_ Hst]]. discriminate.
Qed.

Lemma walks_begin_item toks ids s :
  walks STATE_BEGIN toks ids STATE_ITEM ->
  toks ++ [JSON_STRING s] = JSON_ARRAY_OPEN :: sep_by_comma (ids ++ [s]).
Proof.
  intro H. inversion H as [|toks1 ids1 st1 Hi| | | |]; subst.
  simpl. rewrite (walks_item_item _ _ _ Hi). reflexivity.
Qed.

(** More than [LAYERS_MAX] valid strings: the switch returns [-EFBIG]. *)
Lemma switch_all_too_many ids :
  forall l rest,
    forallb dkr_id_is_valid ids = true ->
    strv_length l <= LAYERS_MAX ->
    LAYERS_MAX < strv_length l + strv_length ids ->
    switch_all STATE_ITEM l (sep_by_comma ids ++ rest)
    = Return (inl (- EFBIG)).
Proof.
  induction ids as [|s ids IH]; intros l rest Hv Hl Hbig.
  - unfold strv_length in *. simpl in Hbig. lia.
  - simpl in Hv. apply andb_true_iff in Hv. destruct Hv as [Hs Hv].
    assert (switch_all STATE_ITEM l (JSON_STRING s :: JSON_COMMA :: sep_by_comma ids ++ rest)
            = Return (inl (- EFBIG))
            \/ ids = [] /\ LAYERS_MAX < strv_length l + 1
            \/ ids <> [] /\ strv_length l + 1 <= LAYERS_MAX) as Hcases.
    { destruct (Z_lt_le_dec LAYERS_MAX (strv_length l + 1)) as [Hlt|Hle].
      - left. simpl. rewrite Hs. simpl.
        apply Z.gt_lt_iff in Hlt. apply Z.gtb_gt in Hlt. rewrite Hlt. reflexivity.
      - right. right. split; [|exact Hle].
        intro He. subst ids. unfold strv_length in *. simpl in *. lia. }
    destruct ids as [|s2 ids].
    + simpl. rewrite Hs. simpl.
      assert ((strv_length l + 1 >? LAYERS_MAX) = true) as Hgt.
      { apply Z.gtb_gt. unfold strv_length in *. simpl in *. lia. }
      rewrite Hgt. reflexivity.
    + rewrite sep_by_comma_cons by discriminate.
      destruct Hcases as [H|[[He _]|[_ Hle]]]; [exact H | discriminate |].
      cbn [app switch_all ancestry_switch]. rewrite Hs. cbn [negb].
      assert ((strv_length l + 1 >? LAYERS_MAX) = false) as Hgt.
      { rewrite Z.gtb_ltb. apply Z.ltb_ge. exact Hle. }
      rewrite Hgt. apply IH.
      * exact Hv.
      * rewrite strv_length_app. exact Hle.
      * rewrite strv_length_app. unfold strv_length in *.
        cbn [List.length] in *. lia.
Qed.

Lemma ancestry_switch_inr st l t r :
  ancestry_switch st l t = Return (inr r) ->
  st = STATE_END /\ t = JSON_END /\ l <> [] /\ strv_is_uniq l = true
  /\ r = rev l.
Proof.
  unfold ancestry_switch. intro H.
  destruct st; destruct t; try discriminate.
  - destruct (negb (dkr_id_is_valid str)); [discriminate|].
    destruct (strv_length l + 1 >? LAYERS_MAX); discriminate.
  - destruct l as [|s l]; [discriminate|]. cbn [strv_isempty] in H.
    destruct (strv_is_uniq (s :: l)) eqn:Hu; [|discriminate].
    cbn [negb] in H. inversion H; subst.
    repeat split. discriminate.
Qed.

Lemma ancestry_switch_inl st l t e :
  ancestry_switch st l t = Return (inl e) ->
  e = - EBADMSG
  \/ (e = - EFBIG /\ st = STATE_ITEM
      /\ exists s, t = JSON_STRING s /\ dkr_id_is_valid s = true
                   /\ LAYERS_MAX < strv_length l + 1).
Proof.
  unfold ancestry_switch. intro H.
  destruct st; destruct t; try discriminate;
    try (inversion H; subst; left; reflexivity).
  - destruct (dkr_id_is_valid str) eqn:Hv; cbn [negb] in H;
      [|inversion H; left; reflexivity].
    destruct (strv_length l + 1 >? LAYERS_MAX) eqn:Hgt; [|discriminate].
    inversion H; subst. right. repeat split. exists str.
    repeat split; [exact Hv|]. apply Z.gtb_gt in Hgt. lia.
  - destruct (strv_isempty l); [inversion H; left; reflexivity|].
    destruct (negb (strv_is_uniq l)); [inversion H; left; reflexivity|].
    discriminate.
Qed.

Lemma parse_ancestry_loop_unique f1 f2 p js st l r1 r2 :
  parse_ancestry_loop f1 p js st l = Some r1 ->
  parse_ancestry_loop f2 p js st l = Some r2 ->
  r1 = r2.
Proof.
  intros H1 H2.
  apply (parse_ancestry_loop_mono _ f2) in H1.
  apply (parse_ancestry_loop_mono _ f1) in H2.
  rewrite Nat.add_comm in H2. congruence.
Qed.

Lemma parse_ancestry_loop_begin_total payload :
  exists r,
    parse_ancestry_loop parse_ancestry_fuel payload json_state_null
      STATE_BEGIN [] = Some r.
Proof.
  apply parse_ancestry_loop_total.
  - unfold strv_length, LAYERS_MAX. simpl. lia.
  - exact parse_ancestry_fuel_enough.
Qed.

(** The loop accepts exactly the arrays of the lax grammar that hold
    between one and [LAYERS_MAX] valid, pairwise different ids. *)
Lemma parse_ancestry_loop_accepts payload l :
  parse_ancestry_loop parse_ancestry_fuel payload json_state_null
    STATE_BEGIN [] = Some (inr l)
  <-> exists ids trailing,
        tokenizes payload (array_tokens_lax ids trailing)
        /\ forallb dkr_id_is_valid ids = true
        /\ ids <> [] /\ NoDup ids
        /\ strv_length ids <= LAYERS_MAX
        /\ l = rev ids.
Proof.
  split.
  - intro H. apply loop_decompose in H.
    destruct H as
      [[toks [p' [js' [st' [l' [e [_ [_ [_ He]]]]]]]]]
      |[toks [t [p' [js' [st' [l' [Hr [Hs Hlast]]]]]]]]]; [discriminate|].
    apply ancestry_switch_inr in Hlast.
    destruct Hlast as [-> [-> [Hne [Hu ->]]]].
    apply switch_all_walks in Hs. destruct Hs as [ids [Hw [Hl [Hv Hb]]]].
    simpl in Hl. subst l'.
    apply walks_begin_end in Hw. destruct Hw as [tr [-> _]].
    exists ids, tr. repeat split; try assumption.
    + exists p', js'. exact Hr.
    + apply strv_is_uniq_NoDup. exact Hu.
    + destruct Hb as [Hb|Hb]; [contradiction | exact Hb].
  - intros [ids [tr [[p [js Hr]] [Hv [Hne [Hnd [Hlen ->]]]]]]].
    apply reads_app_inv in Hr. destruct Hr as [p1 [js1 [Hr Hend]]].
    inversion Hend as [|? ? ? p2 js2 ? ? ? Htok _]; subst.
    assert (switch_all STATE_BEGIN [] (array_tokens_lax ids tr)
            = Continue STATE_END ids) as Hs.
    { apply switch_all_walks. exists ids. repeat split.
      - apply walks_begin_end. exists tr. split; [reflexivity|].
        intro; contradiction.
      - exact Hv.
      - right. exact Hlen. }
    pose proof (loop_reads_continue _ _ _ _ _ Hr _ _ _ _ 1%nat Hs) as Hloop.
    assert (parse_ancestry_loop 1 p1 js1 STATE_END ids = Some (inr (rev ids)))
      as Hone.
    { simpl. rewrite Htok. destruct ids as [|s ids]; [contradiction|].
      cbn [ancestry_switch strv_isempty].
      apply strv_is_uniq_NoDup in Hnd. rewrite Hnd. reflexivity. }
    rewrite Hone in Hloop.
    destruct (parse_ancestry_loop_begin_total payload) as [r Htot].
    rewrite Htot. f_equal.
    exact (parse_ancestry_loop_unique _ _ _ _ _ _ _ _ Htot Hloop).
Qed.

(** An array of more than [LAYERS_MAX] valid ids ends the loop with
    [-EFBIG], whatever follows the 2049th. *)
Lemma parse_ancestry_loop_too_many payload ids trailing p js :
  reads payload json_state_null (array_tokens_lax ids trailing) p js ->
  forallb dkr_id_is_valid ids = true ->
  LAYERS_MAX < strv_length ids ->
  parse_ancestry_loop parse_ancestry_fuel payload json_state_null
    STATE_BEGIN [] = Some (inl (- EFBIG)).
Proof.
  intros Hr Hv Hbig.
  assert (switch_all STATE_BEGIN [] (array_tokens_lax ids trailing)
          = Return (inl (- EFBIG))) as Hs.
  { unfold array_tokens_lax. cbn [switch_all ancestry_switch].
    apply switch_all_too_many; [exact Hv | |].
    - unfold strv_length, LAYERS_MAX. simpl. lia.
    - unfold strv_length in *. simpl. lia. }
  destruct (parse_ancestry_loop_begin_total payload) as [r Htot].
  rewrite Htot. f_equal.
  assert (forall toks p0 js0 st l,
             reads p0 js0 toks p js ->
             switch_all st l toks = Return (inl (- EFBIG)) ->
             parse_ancestry_loop (List.length toks) p0 js0 st l
             = Some (inl (- EFBIG))) as Hgen.
  { clear. induction toks as [|t toks IH]; intros p0 js0 st l Hr Hs.
    - discriminate.
    - inversion Hr as [|? ? ? p1 js1 ? ? ? Htok Hrest]; subst.
      simpl in *. rewrite Htok.
      destruct (ancestry_switch st l t) as [st1 l1|r1];
        [apply IH; assumption | inversion Hs; reflexivity]. }
  exact (parse_ancestry_loop_unique _ _ _ _ _ _ _ _ Htot (Hgen _ _ _ _ _ Hr Hs)).
Qed.

(** The switch returns on [JSON_END] in every state, so the tokens that
    keep it going hold no [JSON_END]. *)
Lemma switch_all_continue_no_end toks :
  forall st l st' l',
    switch_all st l toks = Continue st' l' -> ~ In JSON_END toks.
Proof.
  induction toks as [|t toks IH]; intros st l st' l' H Hin; [exact Hin|].
  simpl in H. destruct (ancestry_switch st l t) as [st1 l1|r] eqn:Hsw;
    [|discriminate].
  destruct Hin as [->|Hin]; [|exact (IH _ _ _ _ H Hin)].
  unfold ancestry_switch in Hsw. destruct st; try discriminate.
  destruct (strv_isempty l); [discriminate|].
  destruct (negb (strv_is_uniq l)); discriminate.
Qed.

(** A payload that tokenizes to its end gives the tokenizer no occasion
    to fail before the end. *)
Lemma reads_no_error toks1 :
  forall p js p1 js1 toks pa jsa e,
    reads p js toks1 p1 js1 ->
    (forall t, In t toks1 -> t <> JSON_END) ->
    json_tokenize p1 js1 = inl e ->
    reads p js (toks ++ [JSON_END]) pa jsa ->
    False.
Proof.
  induction toks1 as [|t toks1 IH];
    intros p js p1 js1 toks pa jsa e H1 Hne Herr H2.
  - inversion H1; subst.
    destruct toks; inversion H2 as [|? ? ? ? ? ? ? ? Htok _]; subst;
      congruence.
  - inversion H1 as [|? ? ? pn jsn ? ? ? Htok1 Hrest1]; subst.
    destruct toks as [|t' toks].
    + inversion H2 as [|? ? ? ? ? ? ? ? Htok2 _]; subst.
      rewrite Htok1 in Htok2. inversion Htok2; subst.
      exact (Hne JSON_END (or_introl eq_refl) eq_refl).
    + inversion H2 as [|? ? ? pm jsm ? ? ? Htok2 Hrest2]; subst.
      rewrite Htok1 in Htok2. inversion Htok2; subst.
      apply (IH pm jsm p1 js1 toks pa jsa e Hrest1);
        [|exact Herr|exact Hrest2].
      intros t0 Hin. apply Hne. right. exact Hin.
Qed.

(** Where an error of the loop comes from. *)
Lemma parse_ancestry_loop_errors payload e :
  parse_ancestry_loop parse_ancestry_fuel payload json_state_null
    STATE_BEGIN [] = Some (inl e) ->
  e = - EBADMSG
  \/ (exists toks p js,
        reads payload json_state_null toks p js
        /\ (forall t, In t toks -> t <> JSON_END)
        /\ json_tokenize p js = inl e)
  \/ (e = - EFBIG
      /\ exists ids p js,
           strv_length ids = LAYERS_MAX + 1
           /\ forallb dkr_id_is_valid ids = true
           /\ reads payload json_state_null
                (JSON_ARRAY_OPEN :: sep_by_comma ids) p js).
Proof.
  intro H. apply loop_decompose in H.
  destruct H as
    [[toks [p' [js' [st' [l' [e' [Hr [Hs [Htok He]]]]]]]]]
    |[toks [t [p' [js' [st' [l' [Hr [Hs Hlast]]]]]]]]].
  - inversion He; subst. right. left. exists toks, p', js'.
    split; [exact Hr|]. split; [|exact Htok].
    intros t Hin ->. exact (switch_all_continue_no_end _ _ _ _ _ Hs Hin).
  - apply ancestry_switch_inl in Hlast.
    destruct Hlast as [He|[He [Hst [s [Ht [Hvs Hgt]]]]]]; [left; exact He|].
    right. right. split; [exact He|]. subst st' t.
    apply switch_all_walks in Hs. destruct Hs as [ids [Hw [Hl [Hv Hb]]]].
    simpl in Hl. subst l'.
    exists (ids ++ [s]), p', js'. repeat split.
    + rewrite strv_length_app.
      destruct Hb as [Hb|Hb].
      * subst ids. unfold strv_length, LAYERS_MAX in *. simpl in *. lia.
      * simpl in Hb. lia.
    + rewrite forallb_app. rewrite Hv. simpl. rewrite Hvs. reflexivity.
    + rewrite <- (walks_begin_item _ _ _ Hw). exact Hr.
Qed.

(** [parse_ancestry] succeeds exactly on the payloads [ancestry_accepted]
    describes. *)
Lemma parse_ancestry_accepts payload l :
  parse_ancestry payload = Some (inr l) <-> ancestry_accepted payload l.
Proof.
  unfold parse_ancestry, ancestry_accepted.
  destruct payload as [|c rest].
  - cbn [String.length Nat.leb].
    split; [discriminate | intros [Hne _]; contradiction].
  - cbn [String.length Nat.leb].
    destruct (memchr_nul (String c rest)) eqn:Hnul.
    + split; [discriminate | intros [_ [Hn _]]; discriminate].
    + split.
      * intro H. split; [discriminate|]. split; [reflexivity|].
        apply parse_ancestry_loop_accepts. exact H.
      * intros [_ [_ H]]. apply parse_ancestry_loop_accepts. exact H.
Qed.

(** C3, with the grammar the code implements.  [parse_ancestry] always
    returns.  It succeeds exactly when the payload is not empty, holds no
    NUL, and its tokens are an opening bracket, strings separated by
    commas, possibly a comma after the last string, and a closing bracket,
    where the strings are valid layer ids, pairwise different, at least
    one and at most 2048; the result is the reversed sequence.  An array
    of more than 2048 valid ids yields [-EFBIG] (TooManyLayers); an
    empty payload or one with a NUL yields [-EBADMSG] (ProtocolError).
    Every error is [-EBADMSG], or the error with which the tokenizer
    failed on this payload, handed on as it is, or [-EFBIG] after 2049
    valid ids were read; so a payload that tokenizes to its end is
    accepted or yields [-EBADMSG] or [-EFBIG]. *)
Theorem parse_ancestry_spec (payload : string) :
  (exists r, parse_ancestry payload = Some r)
  /\ (forall l,
        parse_ancestry payload = Some (inr l) <-> ancestry_accepted payload l)
  /\ (forall ids trailing p js,
        payload <> EmptyString -> memchr_nul payload = false ->
        reads payload json_state_null (array_tokens_lax ids trailing) p js ->
        forallb dkr_id_is_valid ids = true ->
        LAYERS_MAX < strv_length ids ->
        parse_ancestry payload = Some (inl (- EFBIG)))
  /\ (payload = EmptyString \/ memchr_nul payload = true ->
      parse_ancestry payload = Some (inl (- EBADMSG)))
  /\ (forall e,
        parse_ancestry payload = Some (inl e) ->
        e = - EBADMSG
        \/ (exists toks p js,
              reads payload json_state_null toks p js
              /\ (forall t, In t toks -> t <> JSON_END)
              /\ json_tokenize p js = inl e)
        \/ (e = - EFBIG
            /\ exists ids p js,
                 strv_length ids = LAYERS_MAX + 1
                 /\ forallb dkr_id_is_valid ids = true
                 /\ reads payload json_state_null
                      (JSON_ARRAY_OPEN :: sep_by_comma ids) p js))
  /\ (forall toks,
        tokenizes payload toks ->
        (exists l, parse_ancestry payload = Some (inr l))
        \/ parse_ancestry payload = Some (inl (- EBADMSG))
        \/ parse_ancestry payload = Some (inl (- EFBIG))).
Proof.
  assert (exists r, parse_ancestry payload = Some r) as Htotal.
  { unfold parse_ancestry.
    destruct (String.length payload <=? 0)%nat; [eexists; reflexivity|].
    destruct (memchr_nul payload); [eexists; reflexivity|].
    apply parse_ancestry_loop_begin_total. }
  split; [exact Htotal|].
  split; [intro l; apply parse_ancestry_accepts|].
  split.
  { intros ids tr p js Hne Hnul Hr Hv Hbig. unfold parse_ancestry.
    destruct payload as [|c rest]; [contradiction|].
    cbn [String.length Nat.leb]. rewrite Hnul.
    exact (parse_ancestry_loop_too_many _ _ _ _ _ Hr Hv Hbig). }
  split.
  { unfold parse_ancestry. intros [->|Hnul]; [reflexivity|].
    destruct (String.length payload <=? 0)%nat; [reflexivity|].
    rewrite Hnul. reflexivity. }
  assert (forall e,
             parse_ancestry payload = Some (inl e) ->
             e = - EBADMSG
             \/ (exists toks p js,
                   reads payload json_state_null toks p js
                   /\ (forall t, In t toks -> t <> JSON_END)
                   /\ json_tokenize p js = inl e)
             \/ (e = - EFBIG
                 /\ exists ids p js,
                      strv_length ids = LAYERS_MAX + 1
                      /\ forallb dkr_id_is_valid ids = true
                      /\ reads payload json_state_null
                           (JSON_ARRAY_OPEN :: sep_by_comma ids) p js))
    as Herrors.
  { intros e H. unfold parse_ancestry in H.
    destruct (String.length payload <=? 0)%nat;
      [inversion H; left; reflexivity|].
    destruct (memchr_nul payload); [inversion H; left; reflexivity|].
    exact (parse_ancestry_loop_errors _ _ H). }
  split; [exact Herrors|].
  intros toks [pa [jsa Hfull]].
  destruct Htotal as [[e|l] Hres].
  - right. rewrite Hres.
    destruct (Herrors e Hres)
      as [->|[[toks1 [p1 [js1 [Hr [Hne Herr]]]]]|[-> _]]].
    + left. reflexivity.
    + exfalso.
      exact (reads_no_error toks1 _ _ _ _ toks _ _ _ Hr Hne Herr Hfull).
    + right. reflexivity.
  - left. exists l. exact Hres.
Qed.

End ParserTheorems.

(** ** Starting a pull *)

Section OrchestratorTheorems.
Context {JT : JsonTokenizer} {PR : Predicates} {SY : System}.

(** C9.  [dkr_import_pull] returns [-EINVAL] and leaves the machine as it
    was (no request, no change of the session) for a name that fails
    [dkr_name_is_valid], a given tag that fails [dkr_tag_is_valid] and a
    given local name that fails [machine_name_is_valid]; with arguments
    that pass, it returns [-EBUSY], again changing nothing, when the
    session already has an images job; otherwise it stores the tag, with
    ["latest"] for a missing one, and issues the images request. *)
Theorem dkr_import_pull_checks (name_arg : string)
    (tag_arg local_arg : option string) (force : bool) (m : Machine) :
  (dkr_name_is_valid name_arg = false ->
   dkr_import_pull name_arg tag_arg local_arg force m = (- EINVAL, m))
  /\ (forall t, tag_arg = Some t -> dkr_tag_is_valid t = false ->
      dkr_import_pull name_arg tag_arg local_arg force m = (- EINVAL, m))
  /\ (forall l, local_arg = Some l -> machine_name_is_valid l = false ->
      dkr_import_pull name_arg tag_arg local_arg force m = (- EINVAL, m))
  /\ (pull_arguments_valid name_arg tag_arg local_arg = true ->
      images_job (session m) <> None ->
      dkr_import_pull name_arg tag_arg local_arg force m = (- EBUSY, m))
  /\ (pull_arguments_valid name_arg tag_arg local_arg = true ->
      images_job (session m) = None ->
      let (r, m') := dkr_import_pull name_arg tag_arg local_arg force m in
      tag (session m')
      = match tag_arg with Some t => t | None => "latest"%string end
      /\ name (session m') = name_arg
      /\ local (session m') = local_arg
      /\ force_local (session m') = force
      /\ images_job (session m') <> None
      /\ requests m'
         = requests m
           ++ [(IMAGES,
                (index_url (session m) ++ "/v1/repositories/" ++ name_arg
                 ++ "/images")%string)]).
Proof.
  unfold dkr_import_pull, pull_arguments_valid.
  split; [intro Hn; rewrite Hn; reflexivity|].
  split.
  { intros t -> Ht. rewrite Ht.
    destruct (dkr_name_is_valid name_arg); reflexivity. }
  split.
  { intros l -> Hl. rewrite Hl.
    destruct (dkr_name_is_valid name_arg); [|reflexivity].
    destruct tag_arg as [t|]; [destruct (dkr_tag_is_valid t)|]; reflexivity. }
  split.
  { intros Hv Hj. apply andb_true_iff in Hv. destruct Hv as [Hv Hl].
    apply andb_true_iff in Hv. destruct Hv as [Hn Ht]. rewrite Hn.
    cbn [negb].
    assert (match tag_arg with
            | Some t => negb (dkr_tag_is_valid t)
            | None => false
            end = false) as Ht'
      by (destruct tag_arg; [rewrite Ht|]; reflexivity).
    assert (match local_arg with
            | Some l => negb (machine_name_is_valid l)
            | None => false
            end = false) as Hl'
      by (destruct local_arg; [rewrite Hl|]; reflexivity).
    rewrite Ht', Hl'.
    destruct (images_job (session m)); [reflexivity | contradiction]. }
  intros Hv Hj. apply andb_true_iff in Hv. destruct Hv as [Hv Hl].
  apply andb_true_iff in Hv. destruct Hv as [Hn Ht]. rewrite Hn.
  cbn [negb].
  assert (match tag_arg with
          | Some t => negb (dkr_tag_is_valid t)
          | None => false
          end = false) as Ht'
    by (destruct tag_arg; [rewrite Ht|]; reflexivity).
  assert (match local_arg with
          | Some l => negb (machine_name_is_valid l)
          | None => false
          end = false) as Hl'
    by (destruct local_arg; [rewrite Hl|]; reflexivity).
  rewrite Ht', Hl', Hj. unfold begin_job. cbn.
  repeat split. discriminate.
Qed.

(** ** What each callback changes *)

Ltac break_match_hyp H :=
  match type of H with
  | context [match ?x with _ => _ end] => destruct x eqn:?
  end.

Lemma set_current_ancestry_same i :
  set_current_ancestry (current_ancestry i) i = i.
Proof. destruct i; reflexivity. Qed.

(** The scan only moves the cursor, and only forward. *)
Lemma pull_layer_scan_cursor fuel w :
  forall i res,
    pull_layer_scan fuel w i = Some res ->
    exists c,
      current_ancestry i <= c
      /\ scan_session res = set_current_ancestry c i.
Proof.
  induction fuel as [|fuel IH]; intros i res H; [discriminate|].
  simpl in H.
  destruct (dkr_import_current_layer i) as [layer|].
  - destruct (laccess w (layer_path (image_root i) layer) <? 0).
    + exists (current_ancestry i). rewrite set_current_ancestry_same.
      split; [lia|].
      destruct (laccess w _ =? _); inversion H; reflexivity.
    + apply IH in H. destruct H as [c [Hc Hs]]. exists c.
      rewrite Hs. simpl in Hc. split; [lia | destruct i; reflexivity].
  - inversion H. exists (current_ancestry i).
    rewrite set_current_ancestry_same. split; [lia | reflexivity].
Qed.

(** The scan returns: the cursor cannot pass the end of the vector. *)
Lemma pull_layer_scan_total w :
  forall fuel i,
    0 <= current_ancestry i ->
    (List.length (ancestry i) - Z.to_nat (current_ancestry i) < fuel)%nat ->
    exists res, pull_layer_scan fuel w i = Some res.
Proof.
  induction fuel as [|fuel IH]; intros i Hc Hf; [lia|].
  simpl. destruct (dkr_import_current_layer i) as [layer|] eqn:Hcur;
    [|eexists; reflexivity].
  destruct (laccess w (layer_path (image_root i) layer) <? 0).
  - destruct (laccess w _ =? _); eexists; reflexivity.
  - unfold dkr_import_current_layer in Hcur.
    destruct (strv_isempty (ancestry i)); [discriminate|].
    assert (Z.to_nat (current_ancestry i) < List.length (ancestry i))%nat
      by (apply nth_error_Some; congruence).
    apply IH; destruct i; simpl in *; lia.
Qed.

(** A layer the scan reports missing is the one under the cursor, and
    [laccess] said [ENOENT] for its final directory. *)
Lemma pull_layer_scan_missing fuel w :
  forall i layer path i',
    pull_layer_scan fuel w i = Some (LayerMissing layer path i') ->
    nth_error (ancestry i') (Z.to_nat (current_ancestry i')) = Some layer
    /\ path = layer_path (image_root i') layer
    /\ laccess w path = - ENOENT.
Proof.
  induction fuel as [|fuel IH]; intros i layer path i' H; [discriminate|].
  simpl in H.
  destruct (dkr_import_current_layer i) as [layer'|] eqn:Hcur;
    [|discriminate].
  destruct (laccess w (layer_path (image_root i) layer') <? 0).
  - destruct (laccess w _ =? _) eqn:He; [|discriminate].
    inversion H; subst. apply Z.eqb_eq in He.
    unfold dkr_import_current_layer in Hcur.
    destruct (strv_isempty (ancestry i')); [discriminate|].
    repeat split; assumption.
  - exact (IH _ _ _ _ H).
Qed.

(** [dkr_import_pull_layer] needs a session without layer job and paths;
    it moves the cursor forward and then either issues nothing or issues
    one layer request, for which it sets [final_path] and the job. *)
Lemma pull_layer_cases m r m' :
  dkr_import_pull_layer m = Some (r, m') ->
  layer_job (session m) = None /\ temp_path (session m) = None
  /\ final_path (session m) = None
  /\ exists c,
       current_ancestry (session m) <= c
       /\ (m' = set_session (set_current_ancestry c (session m)) m
           \/ exists layer registry,
                let i := set_final_path
                           (Some (layer_path (image_root (session m)) layer))
                           (set_current_ancestry c (session m)) in
                let j := new_layer_job i registry layer in
                nth_error (ancestry (session m)) (Z.to_nat c) = Some layer
                /\ laccess (world m) (layer_path (image_root (session m)) layer)
                   = - ENOENT
                /\ m' = add_request LAYER (url j)
                          (set_live_layer_jobs (S (live_layer_jobs m))
                             (set_session (set_layer_job (Some j) i) m))).
Proof.
  unfold dkr_import_pull_layer. intro H.
  destruct (layer_job (session m)); [discriminate|].
  destruct (temp_path (session m)); [discriminate|].
  destruct (final_path (session m)); [discriminate|].
  repeat split.
  destruct (pull_layer_scan _ _ _) as [res|] eqn:Hscan; [|discriminate].
  destruct (pull_layer_scan_cursor _ _ _ _ Hscan) as [c [Hc Hs]].
  exists c. split; [exact Hc|].
  destruct res as [i'|r' i'|layer path i']; simpl in Hs; subst i'.
  - inversion H; subst. left. reflexivity.
  - inversion H; subst. left. reflexivity.
  - right.
    destruct (response_registries _) as [|registry rest] eqn:Hreg;
      [discriminate|].
    exists layer, registry.
    destruct (pull_layer_scan_missing _ _ _ _ _ _ Hscan)
      as [Hnth [Hpath Hacc]].
    assert (ancestry (set_current_ancestry c (session m))
            = ancestry (session m)) as Ha by (destruct (session m); reflexivity).
    assert (image_root (set_current_ancestry c (session m))
            = image_root (session m)) as Hr by (destruct (session m); reflexivity).
    assert (current_ancestry (set_current_ancestry c (session m)) = c)
      as Hcc by (destruct (session m); reflexivity).
    rewrite Ha, Hcc in Hnth. rewrite Hr in Hpath. split; [exact Hnth|].
    subst path. split; [exact Hacc|].
    cbv zeta.
    unfold begin_job in H. cbn [fst snd] in H.
    unfold new_layer_job.
    destruct (import_job_begin _ <? 0); inversion H; subst;
      destruct (session m); reflexivity.
Qed.

Lemma is_done_true i :
  dkr_import_is_done i = Some true ->
  job_done (images_job i) = true /\ job_done (tags_job i) = true
  /\ job_done (ancestry_job i) = true /\ job_done (json_job i) = true
  /\ dkr_import_current_layer i = None.
Proof.
  unfold dkr_import_is_done. intro H.
  destruct (images_job i) as [ji|]; [|discriminate].
  destruct (job_done (Some ji)); [|discriminate].
  destruct (job_done (tags_job i)); [|discriminate].
  destruct (job_done (ancestry_job i)); [|discriminate].
  destruct (job_done (json_job i)); [|discriminate].
  cbn [negb] in H.
  destruct (match layer_job i with
            | Some _ => negb (job_done (layer_job i))
            | None => false
            end); [discriminate|].
  destruct (dkr_import_current_layer i); [discriminate|].
  repeat split.
Qed.

Lemma layer_requests_add_request s u m :
  layer_requests (add_request s u m)
  = layer_requests m
    ++ match s with LAYER => [(s, u)] | _ => [] end.
Proof.
  unfold layer_requests, add_request. cbn [requests].
  rewrite filter_app. f_equal. destruct s; reflexivity.
Qed.

Lemma job_done_unfinished j :
  job_finished j = false -> job_done (Some j) = false.
Proof. unfold job_finished, job_done. destruct (state j); congruence. Qed.

(** Reduce the projections of the machines and sessions the callbacks
    build. *)
Ltac fields :=
  cbn [session world requests notified completed live_layer_jobs
       set_session set_world add_request add_notified add_completed
       set_live_layer_jobs finish dkr_import_report_progress
       dkr_import_job_on_progress
       index_url image_root images_job tags_job ancestry_job json_job
       layer_job name tag id response_token response_registries ancestry
       n_ancestry current_ancestry local force_local temp_path final_path
       tar_pid
       set_images_job set_tags_job set_ancestry_job set_json_job
       set_layer_job set_name set_tag set_id set_response_token
       set_response_registries set_ancestry set_n_ancestry
       set_current_ancestry set_local set_force_local set_temp_path
       set_final_path set_tar_pid set_job job_of
       url request_header state error payload progress_percent disk_fd
       job_set_request_header job_set_state job_set_error job_set_payload
       job_set_progress_percent job_set_disk_fd
       dkr_import_add_token import_job_new new_layer_job
       job_done job_finished fst snd] in *.

(** A session that [dkr_import_new] made is the empty session for the
    index URL and the image root, and the event loop and the curl glue
    were there. *)
Lemma dkr_import_new_session event url_arg root i :
  dkr_import_new event url_arg root = inr i ->
  http_url_is_valid url_arg = true
  /\ (event = true \/ 0 <= sd_event_default)
  /\ 0 <= curl_glue_new
  /\ i = mkDkrImport
           (strip_trailing_slash url_arg)
           match root with
           | Some r => r
           | None => "/var/lib/machines"%string
           end
           None None None None None ""%string ""%string ""%string None [] []
           0 0 None false None None 0.
Proof.
  unfold dkr_import_new. intro Hnew.
  destruct (http_url_is_valid url_arg); [|discriminate Hnew].
  cbn [negb] in Hnew.
  destruct (negb event && (sd_event_default <? 0)) eqn:Hev;
    [discriminate Hnew|].
  destruct (curl_glue_new <? 0) eqn:Hglue; [discriminate Hnew|].
  apply Z.ltb_ge in Hglue. inversion Hnew.
  split; [reflexivity|]. split; [|split; [exact Hglue | reflexivity]].
  destruct event; [left; reflexivity|]. right.
  cbn [negb andb] in Hev. apply Z.ltb_ge in Hev. exact Hev.
Qed.

(** The state a successful [dkr_import_pull] leaves satisfies the
    invariant. *)
Lemma pull_invariant_start w0 event url_arg root i name_arg tag_arg local_arg
    force r m :
  dkr_import_new event url_arg root = inr i ->
  dkr_import_pull name_arg tag_arg local_arg force (machine_of i w0) = (r, m) ->
  0 <= r ->
  pull_invariant w0 m /\ completed m = [].
Proof.
  intros Hnew Hpull Hr.
  apply dkr_import_new_session in Hnew. destruct Hnew as [_ [_ [_ ->]]].
  unfold dkr_import_pull, machine_of in Hpull. fields.
  repeat (break_match_hyp Hpull;
          [inversion Hpull; subst; unfold EINVAL in Hr; lia|]).
  unfold begin_job in Hpull. inversion Hpull; subst.
  unfold pull_invariant, download_not_started, extraction_invariant,
    layer_requests.
  fields. cbn [app filter is_layer_request fst].
  repeat split; try congruence; try lia; try discriminate.
Qed.

Ltac not_nil :=
  match goal with
  | H : ?l ++ [_] = [] |- _ => destruct l; discriminate H
  end.

Ltac invariant_leaf :=
  unfold exit_invariant, pull_invariant, download_not_started,
    extraction_invariant, layer_requests in *;
  fields;
  rewrite ?filter_app; cbn [filter is_layer_request fst app] in *;
  rewrite ?app_nil_r in *;
  intuition (try congruence; try discriminate; try lia; try not_nil).

(** The tail of [dkr_import_job_on_finished], from the test of
    [dkr_import_is_done] on, keeps the invariant. *)
Lemma on_finished_tail_invariant w0 m m' :
  pull_invariant w0 m ->
  on_finished_tail m = Some m' ->
  pull_invariant w0 m'.
Proof.
  unfold on_finished_tail.
  intros Hinv H.
  destruct (dkr_import_is_done (session m)) as [[|]|] eqn:Hdone;
    [|inversion H; subst; exact Hinv|discriminate].
  apply is_done_true in Hdone.
  destruct Hdone as [Hi [Ht [Ha [Hj _]]]].
  unfold dkr_import_make_local_copy in H. fields.
  destruct (local (session m)) as [loc|].
  - destruct (final_path (session m));
      destruct (import_make_local_copy _ _ _ _ _) as [r w];
      destruct (_ <? 0) eqn:Hneg; cbv beta iota in H;
      rewrite ?Hneg in H; cbn [Z.ltb Z.compare] in H;
      inversion H; subst; clear H; invariant_leaf.
  - cbn [Z.ltb Z.compare] in H. inversion H; subst; clear H. invariant_leaf.
Qed.

Lemma finish_invariant w0 r m :
  pull_invariant w0 m -> pull_invariant w0 (finish r m).
Proof. intro H. invariant_leaf. Qed.

(** Replacing the job of a slot whose job has not ended keeps the
    invariant, whatever the new job looks like. *)
Lemma set_job_invariant w0 which j j' m :
  pull_invariant w0 m ->
  job_of which (session m) = Some j ->
  job_finished j = false ->
  pull_invariant w0 (set_session (set_job which (Some j') (session m)) m).
Proof.
  intros Hinv Hj Hfin. apply job_done_unfinished in Hfin.
  destruct which;
    unfold pull_invariant, download_not_started, extraction_invariant,
      layer_requests in *;
    fields; rewrite ?Hj in *; invariant_leaf.
Qed.

Lemma set_job_download_not_started w0 which j j' m :
  pull_invariant w0 m ->
  job_of which (session m) = Some j ->
  job_finished j = false ->
  which = ANCESTRY ->
  download_not_started w0
    (set_session (set_job which (Some j') (session m)) m).
Proof.
  intros Hinv Hj Hfin ->. apply job_done_unfinished in Hfin.
  unfold pull_invariant, download_not_started, extraction_invariant,
    layer_requests in *.
  fields. rewrite ?Hj in *. invariant_leaf.
Qed.

Lemma on_finished_images_invariant w0 m b :
  pull_invariant w0 m -> completed m = [] ->
  job_done (images_job (session m)) = true ->
  on_finished_images m = Some b ->
  exit_invariant w0 b.
Proof.
  unfold on_finished_images, begin_job. intros Hinv Hc Hdone H.
  destruct (tags_job (session m)) eqn:Ht; [discriminate|].
  destruct (ancestry_job (session m)) eqn:Ha; [discriminate|].
  destruct (json_job (session m)) eqn:Hj; [discriminate|].
  destruct (layer_job (session m)) eqn:Hl; [discriminate|].
  destruct (response_registries (session m)) as [|registry rest].
  - inversion H; subst. apply finish_invariant. exact Hinv.
  - destruct (import_job_begin _ <? 0); inversion H; subst; clear H;
      unfold exit_invariant, pull_invariant, download_not_started,
        extraction_invariant, layer_requests in *;
      fields; rewrite ?Ht, ?Ha, ?Hj, ?Hl in *; invariant_leaf.
Qed.

Lemma on_finished_tags_invariant w0 j m b :
  pull_invariant w0 m -> completed m = [] ->
  job_done (tags_job (session m)) = true ->
  on_finished_tags j m = Some b ->
  exit_invariant w0 b.
Proof.
  unfold on_finished_tags, begin_job. intros Hinv Hc Hdone H.
  destruct (ancestry_job (session m)) eqn:Ha; [discriminate|].
  destruct (json_job (session m)) eqn:Hj; [discriminate|].
  destruct (layer_job (session m)) eqn:Hl; [discriminate|].
  destruct (parse_id (payload j)) as [r|new_id].
  - inversion H; subst. apply finish_invariant. exact Hinv.
  - fields. destruct (response_registries (session m)) as [|registry rest];
      [discriminate|].
    fields.
    destruct (import_job_begin _ <? 0);
      [|destruct (import_job_begin _ <? 0)];
      inversion H; subst; clear H;
      unfold exit_invariant, pull_invariant, download_not_started,
        extraction_invariant, layer_requests in *;
      fields; rewrite ?Ha, ?Hj, ?Hl in *; invariant_leaf.
Qed.

Ltac unfold_invariants :=
  unfold exit_invariant, pull_invariant, download_not_started,
    extraction_invariant, layer_requests in *.

Lemma on_finished_ancestry_invariant w0 j m b :
  pull_invariant w0 m -> completed m = [] ->
  download_not_started w0 m ->
  job_done (ancestry_job (session m)) = true ->
  on_finished_ancestry j m = Some b ->
  exit_invariant w0 b.
Proof.
  unfold on_finished_ancestry. intros Hinv Hc Hns Hdone H.
  destruct (layer_job (session m)) eqn:Hl; [discriminate|].
  destruct (parse_ancestry (payload j)) as [[r|l]|]; [| |discriminate].
  - inversion H; subst. apply finish_invariant. exact Hinv.
  - destruct ((strv_length l <=? 0)
              || negb (String.eqb (last l EmptyString) (id (session m)))).
    + inversion H; subst. apply finish_invariant. exact Hinv.
    + destruct (dkr_import_pull_layer _) as [[r m2]|] eqn:Hpl; [|discriminate].
      apply pull_layer_cases in Hpl.
      destruct Hpl as [_ [_ [_ [c [Hcur [Hm2|[layer [registry Hm2]]]]]]]].
      * subst m2.
        destruct (r <? 0); inversion H; subst; clear H;
          unfold_invariants; fields; rewrite ?Hl in *; invariant_leaf.
      * cbv zeta in Hm2. destruct Hm2 as [_ [_ Hm2]]. subst m2.
        destruct (r <? 0); inversion H; subst; clear H;
          unfold_invariants; fields; rewrite ?Hl in *; invariant_leaf.
Qed.

Lemma on_finished_layer_invariant w0 j m b :
  pull_invariant w0 m -> completed m = [] ->
  layer_job (session m) = Some j ->
  on_finished_layer j m = Some b ->
  exit_invariant w0 b.
Proof.
  unfold on_finished_layer. intros Hinv Hc Hl H.
  assert (job_done (ancestry_job (session m)) = true) as Hdone.
  { destruct (job_done (ancestry_job (session m))) eqn:Hd; [reflexivity|].
    destruct Hinv as [_ [_ [_ [Hns _]]]]. destruct (Hns Hd) as [Hn _].
    congruence. }
  destruct (temp_path (session m)) as [temp|] eqn:Htemp; [|discriminate].
  destruct (final_path (session m)) as [final|] eqn:Hfinal; [|discriminate].
  fields.
  destruct (0 <? tar_pid (session m)) eqn:Hpid.
  - destruct (wait_for_terminate_and_warn _ _) as [r1 w1].
    destruct (r1 <? 0);
      [inversion H; subst; clear H; unfold_invariants; fields;
       rewrite ?Hl, ?Htemp, ?Hfinal in *; invariant_leaf|].
    destruct (aufs_resolve _ _) as [r2 w2].
    destruct (r2 <? 0);
      [inversion H; subst; clear H; unfold_invariants; fields;
       rewrite ?Hl, ?Htemp, ?Hfinal in *; invariant_leaf|].
    destruct (btrfs_subvol_set_read_only _ _ _) as [r3 w3].
    destruct (r3 <? 0);
      [inversion H; subst; clear H; unfold_invariants; fields;
       rewrite ?Hl, ?Htemp, ?Hfinal in *; invariant_leaf|].
    destruct (rename _ _ _) as [e w4].
    destruct (e <? 0);
      [inversion H; subst; clear H; unfold_invariants; fields;
       rewrite ?Hl, ?Htemp, ?Hfinal in *; invariant_leaf|].
    destruct (dkr_import_pull_layer _) as [[r m2]|] eqn:Hpl; [|discriminate].
    apply pull_layer_cases in Hpl.
    destruct Hpl as [_ [_ [_ [c [Hcur [Hm2|[layer [registry Hm2]]]]]]]].
    + subst m2.
      destruct (r <? 0); inversion H; subst; clear H;
        unfold_invariants; fields; rewrite ?Hl, ?Htemp, ?Hfinal in *;
        invariant_leaf.
    + cbv zeta in Hm2. destruct Hm2 as [_ [_ Hm2]]. subst m2.
      destruct (r <? 0); inversion H; subst; clear H;
        unfold_invariants; fields; rewrite ?Hl, ?Htemp, ?Hfinal in *;
        invariant_leaf.
  - cbn [Z.ltb Z.compare] in H.
    destruct (aufs_resolve _ _) as [r2 w2].
    destruct (r2 <? 0);
      [inversion H; subst; clear H; unfold_invariants; fields;
       rewrite ?Hl, ?Htemp, ?Hfinal in *; invariant_leaf|].
    destruct (btrfs_subvol_set_read_only _ _ _) as [r3 w3].
    destruct (r3 <? 0);
      [inversion H; subst; clear H; unfold_invariants; fields;
       rewrite ?Hl, ?Htemp, ?Hfinal in *; invariant_leaf|].
    destruct (rename _ _ _) as [e w4].
    destruct (e <? 0);
      [inversion H; subst; clear H; unfold_invariants; fields;
       rewrite ?Hl, ?Htemp, ?Hfinal in *; invariant_leaf|].
    destruct (dkr_import_pull_layer _) as [[r m2]|] eqn:Hpl; [|discriminate].
    apply pull_layer_cases in Hpl.
    destruct Hpl as [_ [_ [_ [c [Hcur [Hm2|[layer [registry Hm2]]]]]]]].
    + subst m2.
      destruct (r <? 0); inversion H; subst; clear H;
        unfold_invariants; fields; rewrite ?Hl, ?Htemp, ?Hfinal in *;
        apply Z.ltb_ge in Hpid; invariant_leaf.
    + cbv zeta in Hm2. destruct Hm2 as [_ [_ Hm2]]. subst m2.
      destruct (r <? 0); inversion H; subst; clear H;
        unfold_invariants; fields; rewrite ?Hl, ?Htemp, ?Hfinal in *;
        apply Z.ltb_ge in Hpid; invariant_leaf.
Qed.

Lemma job_of_set_job which j i : job_of which (set_job which j i) = j.
Proof. destruct which; reflexivity. Qed.

(** A job that ends with an error ends the pull with that error. *)
Lemma import_job_finish_error which ret body m m' :
  ret <> 0 ->
  import_job_finish which ret body m = Some m' ->
  exists j,
    job_of which (session m) = Some j /\ job_finished j = false
    /\ m' = finish ret
              (set_session
                 (set_job which
                    (Some (job_set_error ret (job_set_state IMPORT_JOB_FAILED j)))
                    (session m)) m).
Proof.
  unfold import_job_finish, dkr_import_job_on_finished. intros Hret H.
  destruct (job_of which (session m)) as [j|]; [|discriminate].
  destruct (job_finished j) eqn:Hfin; [discriminate|].
  exists j. split; [reflexivity|]. split; [exact Hfin|].
  apply Z.eqb_neq in Hret. rewrite Hret in H.
  cbn [session set_session] in H. rewrite job_of_set_job in H.
  cbn [error job_set_error] in H. rewrite Hret in H. cbn [negb] in H.
  inversion H. reflexivity.
Qed.

(** The end of a job keeps the invariant. *)
Lemma import_job_finish_invariant w0 which ret body m m' :
  pull_invariant w0 m -> completed m = [] ->
  import_job_finish which ret body m = Some m' ->
  pull_invariant w0 m'.
Proof.
  intros Hinv Hc H.
  destruct (Z.eq_dec ret 0) as [Hret|Hret].
  - subst ret. unfold import_job_finish in H.
    destruct (job_of which (session m)) as [j|] eqn:Hj; [|discriminate].
    destruct (job_finished j) eqn:Hfin; [discriminate|].
    cbn [Z.eqb] in H.
    remember (job_set_error 0
                (job_set_payload body (job_set_state IMPORT_JOB_DONE j)))
      as j'.
    pose proof (set_job_invariant w0 which j j' m Hinv Hj Hfin) as Hinv1.
    remember (set_session (set_job which (Some j') (session m)) m) as m1.
    assert (job_of which (session m1) = Some j') as Hj1
      by (subst m1; cbn [session set_session]; apply job_of_set_job).
    assert (completed m1 = []) as Hc1 by (subst m1; exact Hc).
    unfold dkr_import_job_on_finished in H. rewrite Hj1 in H.
    destruct (negb (error j' =? 0));
      [inversion H; apply finish_invariant; exact Hinv1|].
    destruct (on_finished_branch which j' m1) as [b|] eqn:Hb; [|discriminate].
    assert (job_done (Some j') = true) as Hdone by (subst j'; reflexivity).
    assert (exit_invariant w0 b) as Hexit.
    { destruct which; cbn [on_finished_branch] in Hb; cbn [job_of] in Hj1.
      - eapply on_finished_images_invariant; try eassumption.
        rewrite Hj1. exact Hdone.
      - eapply on_finished_tags_invariant; try eassumption.
        rewrite Hj1. exact Hdone.
      - eapply on_finished_ancestry_invariant; try eassumption.
        + subst m1. eapply set_job_download_not_started; try eassumption.
          reflexivity.
        + rewrite Hj1. exact Hdone.
      - inversion Hb; subst b. split; assumption.
      - eapply on_finished_layer_invariant; eassumption. }
    destruct b as [m2|r m2]; cbn [exit_invariant] in Hexit.
    + destruct Hexit as [Hinv2 _].
      eapply on_finished_tail_invariant; eassumption.
    + inversion H; subst. exact Hexit.
  - apply import_job_finish_error in H; [|exact Hret].
    destruct H as [j [Hj [Hfin ->]]].
    apply finish_invariant. eapply set_job_invariant; eassumption.
Qed.

(** Every event keeps the invariant. *)
Lemma deliver_invariant w0 ev m m' :
  pull_invariant w0 m -> deliver ev m = Some m' -> pull_invariant w0 m'.
Proof.
  unfold deliver. intros Hinv H.
  destruct (completed m) eqn:Hc; [|discriminate].
  destruct ev as [header|which percent| |which ret body].
  - destruct (images_job (session m)) as [j|] eqn:Hj; [|discriminate].
    destruct (job_finished j); [discriminate|].
    assert (forall i',
               (i' = session m
                \/ (exists t, i' = set_response_token t (session m))
                \/ (exists l, i' = set_response_registries l (session m))) ->
               pull_invariant w0 (set_session i' m)
               /\ completed (set_session i' m) = []) as Hset.
    { intros i' [->|[[t ->]|[l ->]]]; (split; [|exact Hc]);
        unfold_invariants; fields; rewrite ?Hj in *; invariant_leaf. }
    unfold dkr_import_job_on_header in H.
    destruct (curl_header_strdup header HEADER_TOKEN) as [token|].
    + cbn [Z.ltb Z.compare] in H. inversion H; subst.
      apply Hset. right. left. eexists; reflexivity.
    + destruct (curl_header_strdup header HEADER_REGISTRY) as [registry|].
      * destruct (forallb hostname_is_valid _).
        -- cbn [Z.ltb Z.compare] in H. inversion H; subst.
           apply Hset. right. right. eexists; reflexivity.
        -- destruct (- EBADMSG <? 0);
             [|inversion H; subst; apply Hset; left; reflexivity].
           destruct (Hset (session m) (or_introl eq_refl)) as [Hi1 Hc1].
           eapply import_job_finish_invariant; eassumption.
      * cbn [Z.ltb Z.compare] in H. inversion H; subst.
        apply Hset. left. reflexivity.
  - destruct (job_of which (session m)) as [j|] eqn:Hj; [|discriminate].
    destruct (job_finished j) eqn:Hfin; [discriminate|].
    destruct ((progress_percent j <=? percent) && (percent <=? 100));
      [|discriminate].
    inversion H; subst; clear H.
    pose proof (set_job_invariant w0 which j
                  (job_set_progress_percent percent j) m Hinv Hj Hfin) as Hi1.
    revert Hi1. generalize (set_job which
      (Some (job_set_progress_percent percent j)) (session m)).
    intros i1 Hi1. unfold_invariants. fields. exact Hi1.
  - destruct (layer_job (session m)) as [j|] eqn:Hj; [|discriminate].
    destruct (job_finished j) eqn:Hfin; [discriminate|].
    unfold dkr_import_job_on_open_disk in H. rewrite Hj in H.
    destruct (final_path (session m)) as [final|] eqn:Hfinal; [|discriminate].
    destruct (temp_path (session m)) as [temp|] eqn:Htemp; [discriminate|].
    destruct (0 <? tar_pid (session m)) eqn:Hpid; [discriminate|].
    apply Z.ltb_ge in Hpid.
    destruct (match dkr_import_current_base_layer _ with
              | Some base => _
              | None => _
              end) as [r w] eqn:Hsub.
    clear Hsub.
    destruct (r <? 0) eqn:Hr.
    + cbv beta iota in H. rewrite Hr in H.
      apply import_job_finish_error in H; [|apply Z.ltb_lt in Hr; lia].
      destruct H as [j2 [_ [_ ->]]].
      unfold_invariants; fields; rewrite ?Hj, ?Hfinal, ?Htemp in *;
        invariant_leaf.
    + destruct (import_fork_tar w _) as [[e|[fd pid]] w2].
      * cbv beta iota in H. cbn [Z.ltb Z.compare] in H.
        apply import_job_finish_error in H; [|discriminate].
        destruct H as [j2 [_ [_ ->]]].
        unfold_invariants; fields; rewrite ?Hj, ?Hfinal, ?Htemp in *;
          invariant_leaf.
      * cbv beta iota in H. cbn [Z.ltb Z.compare] in H.
        inversion H; subst; clear H.
        unfold_invariants; fields; rewrite ?Hj, ?Hfinal, ?Htemp in *;
          invariant_leaf.
  - eapply import_job_finish_invariant; eassumption.
Qed.

(** Every state of a pull satisfies the invariant. *)
Lemma reachable_invariant w0 m : reachable w0 m -> pull_invariant w0 m.
Proof.
  induction 1 as [event url_arg root i name_arg tag_arg local_arg force r m Hnew Hpull Hr
                 |m ev m' _ IH Hdel].
  - exact (proj1 (pull_invariant_start _ _ _ _ _ _ _ _ _ _ _ Hnew Hpull Hr)).
  - exact (deliver_invariant _ _ _ _ IH Hdel).
Qed.

Lemma reachable_run w0 evs :
  forall m m', reachable w0 m -> run evs m = Some m' -> reachable w0 m'.
Proof.
  induction evs as [|ev evs IH]; intros m m' Hr H; simpl in H.
  - inversion H; subst. exact Hr.
  - destruct (deliver ev m) as [m1|] eqn:Hd; [|discriminate].
    apply (IH m1); [|exact H]. econstructor; eassumption.
Qed.

(** Once the result has been delivered no event is taken. *)
Lemma run_after_completion evs m m' :
  completed m <> [] -> run evs m = Some m' -> evs = [] /\ m' = m.
Proof.
  intros Hc H. destruct evs as [|ev evs]; simpl in H.
  - inversion H. split; reflexivity.
  - unfold deliver in H. destruct (completed m); [contradiction | discriminate].
Qed.

(** ** The phases of a pull *)

Lemma job_done_some (j : option ImportJob) : job_done j = true -> j <> None.
Proof. destruct j; [discriminate | discriminate]. Qed.

(** C1, as the code has it.  In every state of a pull, a layer request
    has been issued only after the images, tags and ancestry jobs were
    done; the json job is not waited for.  What waits for both METADATA
    jobs is the end of the pull: [dkr_import_is_done] holds only when the
    ancestry job and the json job are done. *)
Theorem download_follows_ancestry (w0 : World) (m : Machine) :
  reachable w0 m ->
  (layer_requests m <> [] ->
   job_done (images_job (session m)) = true
   /\ job_done (tags_job (session m)) = true
   /\ job_done (ancestry_job (session m)) = true)
  /\ (dkr_import_is_done (session m) = Some true ->
      job_done (ancestry_job (session m)) = true
      /\ job_done (json_job (session m)) = true).
Proof.
  intro Hr. apply reachable_invariant in Hr.
  destruct Hr as [_ [Himg [Htag [Hns _]]]]. split.
  - intro Hreq.
    assert (job_done (ancestry_job (session m)) = true) as Ha.
    { destruct (job_done (ancestry_job (session m))) eqn:Hd; [reflexivity|].
      destruct (Hns eq_refl) as [_ [_ [_ [_ [Hnone _]]]]]. contradiction. }
    pose proof (Htag (job_done_some _ Ha)) as Ht.
    pose proof (Himg (job_done_some _ Ht)) as Hi.
    repeat split; assumption.
  - intro Hdone. apply is_done_true in Hdone.
    destruct Hdone as [_ [_ [Ha [Hj _]]]]. split; assumption.
Qed.

(** C8, for the states in which the pull has not ended.  While no result
    has been delivered, [temp_path] is set exactly when the tar child is,
    a layer job exists then, and at most one layer job is allocated; every
    event that leaves the pull running keeps this. *)
Theorem extraction_invariant_while_running (w0 : World) (m : Machine) :
  reachable w0 m ->
  (completed m = [] ->
   extraction_invariant m /\ (live_layer_jobs m <= 1)%nat)
  /\ (forall ev m',
        deliver ev m = Some m' -> completed m' = [] ->
        extraction_invariant m' /\ (live_layer_jobs m' <= 1)%nat).
Proof.
  intro Hr.
  assert (forall m1, reachable w0 m1 -> completed m1 = [] ->
                     extraction_invariant m1 /\ (live_layer_jobs m1 <= 1)%nat)
    as Hgen.
  { intros m1 Hr1 Hc1. apply reachable_invariant in Hr1.
    destruct Hr1 as [_ [_ [_ [_ Hex]]]]. specialize (Hex Hc1).
    split; [exact Hex|]. destruct Hex as [_ [_ Hlive]]. rewrite Hlive.
    destruct (layer_job (session m1)); lia. }
  split.
  - apply Hgen. exact Hr.
  - intros ev m' Hd Hc. apply Hgen; [|exact Hc].
    econstructor; eassumption.
Qed.

(** C10, with the order of the checks in [dkr_import_pull].  In every
    state of a pull, also after its result was delivered, a further call
    of [dkr_import_pull] changes nothing and returns [-EBUSY] when its
    arguments pass the checks, and [-EINVAL] when they do not: the images
    job is never released. *)
Theorem pull_is_single_use (w0 : World) (m : Machine) (name_arg : string)
    (tag_arg local_arg : option string) (force : bool) :
  reachable w0 m ->
  dkr_import_pull name_arg tag_arg local_arg force m
  = (if pull_arguments_valid name_arg tag_arg local_arg then - EBUSY
     else - EINVAL, m).
Proof.
  intro Hr. apply reachable_invariant in Hr. destruct Hr as [Himg _].
  unfold dkr_import_pull, pull_arguments_valid.
  destruct (dkr_name_is_valid name_arg); [|reflexivity]. cbn [negb andb].
  destruct tag_arg as [t|].
  - destruct (dkr_tag_is_valid t); [|reflexivity]. cbn [negb andb].
    destruct local_arg as [l|].
    + destruct (machine_name_is_valid l); [|reflexivity]. cbn [negb].
      destruct (images_job (session m)); [reflexivity | contradiction].
    + destruct (images_job (session m)); [reflexivity | contradiction].
  - cbn [andb]. destruct local_arg as [l|].
    + destruct (machine_name_is_valid l); [|reflexivity]. cbn [negb].
      destruct (images_job (session m)); [reflexivity | contradiction].
    + destruct (images_job (session m)); [reflexivity | contradiction].
Qed.

(** C4.  In a running pull whose ancestry job has not ended, let the job
    end well with a payload that [parse_ancestry] accepts and whose last
    element (after the reversal) differs from the resolved id.  Then the
    callback delivers [-EBADMSG], no layer request has been issued, the
    world is the one the pull started in, and no later event is taken. *)
Theorem ancestry_mismatch_fails (w0 : World) (m : Machine) (j : ImportJob)
    (body : string) (l : list string) :
  reachable w0 m ->
  completed m = [] ->
  ancestry_job (session m) = Some j ->
  job_finished j = false ->
  parse_ancestry body = Some (inr l) ->
  last l EmptyString <> id (session m) ->
  exists m',
    deliver (EvFinished ANCESTRY 0 body) m = Some m'
    /\ completed m' = [- EBADMSG]
    /\ layer_requests m' = []
    /\ world m' = w0
    /\ (forall evs m'', run evs m' = Some m'' -> evs = [] /\ m'' = m').
Proof.
  intros Hr Hc Hj Hfin Hparse Hlast.
  apply reachable_invariant in Hr. destruct Hr as [_ [_ [_ [Hns _]]]].
  pose proof (Hns (eq_trans (f_equal job_done Hj) (job_done_unfinished _ Hfin)))
    as [Hlayer [_ [_ [_ [Hreq [Hw _]]]]]].
  unfold deliver. rewrite Hc.
  unfold import_job_finish. cbn [job_of]. rewrite Hj, Hfin. cbn [Z.eqb].
  unfold dkr_import_job_on_finished.
  cbn [session set_session set_job job_of ancestry_job set_ancestry_job
       error job_set_error Z.eqb negb on_finished_branch].
  unfold on_finished_ancestry.
  cbn [session set_session layer_job set_ancestry_job payload job_set_error
       job_set_payload].
  rewrite Hlayer, Hparse.
  assert (String.eqb (last l EmptyString)
            (id (set_ancestry_job
                   (Some (job_set_error 0
                            (job_set_payload body
                               (job_set_state IMPORT_JOB_DONE j))))
                   (session m))) = false) as Hneq.
  { apply String.eqb_neq. destruct (session m); exact Hlast. }
  rewrite Hneq. rewrite orb_true_r.
  eexists. split; [reflexivity|].
  unfold layer_requests in *. cbn [completed finish add_completed set_session
    requests world]. rewrite Hc.
  split; [reflexivity|]. split; [exact Hreq|]. split; [exact Hw|].
  intros evs m'' H. apply run_after_completion in H; [exact H|].
  cbn [completed finish add_completed set_session]. rewrite Hc. discriminate.
Qed.

(** ** Layers that are present *)





Lemma parse_ancestry_nonempty body l :
  parse_ancestry body = Some (inr l) -> l <> [].
Proof.
  intro H. apply parse_ancestry_accepts in H.
  destruct H as [_ [_ [ids [tr [_ [_ [Hne [_ [_ ->]]]]]]]]].
  intro Hrev. apply Hne. apply (f_equal (@rev string)) in Hrev.
  rewrite rev_involutive in Hrev. exact Hrev.
Qed.







(** ** Writing a layer *)

Lemma base_layer_of_temp t i :
  dkr_import_current_base_layer (set_temp_path t i)
  = dkr_import_current_base_layer i.
Proof. destruct i; reflexivity. Qed.

(** C7, without the test the code does not make.  When
    [dkr_import_job_on_open_disk] runs for the layer job, [temp_path]
    becomes [tempfn_random] of [final_path] and its parent directories
    are made; if the cursor is greater than 0 the subvolume is a writable
    snapshot of the final directory of the layer before the cursor,
    whether or not that directory exists, and if the cursor is 0 it is a
    fresh subvolume; a failure of either is the result of the callback,
    and only after success tar is started.  Where the parent's final
    directory is present (or the cursor is 0) this is what the spec
    says. *)
Theorem on_open_disk_subvolume (m : Machine) (j : ImportJob)
    (final : string) :
  layer_job (session m) = Some j ->
  final_path (session m) = Some final ->
  temp_path (session m) = None ->
  tar_pid (session m) <= 0 ->
  let temp := tempfn_random (world m) final in
  let w1 := mkdir_parents_label (world m) temp in
  exists r m',
    dkr_import_job_on_open_disk m = Some (r, m')
    /\ temp_path (session m') = Some temp
    /\ (forall base,
          0 < current_ancestry (session m) ->
          nth_error (ancestry (session m))
            (Z.to_nat (current_ancestry (session m) - 1)) = Some base ->
          let (r1, w2) :=
            btrfs_subvol_snapshot w1
              (layer_path (image_root (session m)) base) temp false true in
          (r1 < 0 -> r = r1 /\ world m' = w2)
          /\ (0 <= r1 -> world m' = snd (import_fork_tar w2 temp)))
    /\ (current_ancestry (session m) <= 0 ->
        let (r1, w2) := btrfs_subvol_make w1 temp in
        (r1 < 0 -> r = r1 /\ world m' = w2)
        /\ (0 <= r1 -> world m' = snd (import_fork_tar w2 temp)))
    /\ ((forall base,
           dkr_import_current_base_layer (session m) = Some base ->
           layer_present w1 (image_root (session m)) base) ->
        dkr_import_job_on_open_disk m = on_open_disk_as_specified m).
Proof.
  intros Hj Hfinal Htemp Hpid temp w1.
  assert ((0 <? tar_pid (session m)) = false) as Hpid'
    by (apply Z.ltb_ge; exact Hpid).
  assert (image_root (set_temp_path (Some temp) (session m))
          = image_root (session m)) as Hroot
    by (destruct (session m); reflexivity).
  unfold dkr_import_job_on_open_disk, on_open_disk_as_specified.
  rewrite Hj, Hfinal, Htemp, Hpid'. fold temp. fold w1.
  rewrite base_layer_of_temp, Hroot.
  destruct (match dkr_import_current_base_layer (session m) with
            | Some base =>
                btrfs_subvol_snapshot w1
                  (layer_path (image_root (session m)) base) temp false true
            | None => btrfs_subvol_make w1 temp
            end) as [r1 w2] eqn:Hsub.
  assert (exists r m',
             (if r1 <? 0
              then Some (r1, set_world w2
                               (set_session
                                  (set_temp_path (Some temp) (session m)) m))
              else
                match import_fork_tar w2 temp with
                | (inl e, w) =>
                    Some (Z.neg e,
                          set_world w
                            (set_session
                               (set_layer_job
                                  (Some (job_set_disk_fd (Z.neg e) j))
                                  (set_temp_path (Some temp) (session m))) m))
                | (inr (fd, pid), w) =>
                    Some (0,
                          set_world w
                            (set_session
                               (set_tar_pid (Z.pos pid)
                                  (set_layer_job
                                     (Some (job_set_disk_fd (Z.of_N fd) j))
                                     (set_temp_path (Some temp) (session m))))
                               m))
                end) = Some (r, m')
             /\ temp_path (session m') = Some temp
             /\ (r1 < 0 -> r = r1 /\ world m' = w2)
             /\ (0 <= r1 -> world m' = snd (import_fork_tar w2 temp)))
    as [r [m' [Hres [Htp [Hneg Hpos]]]]].
  { destruct (r1 <? 0) eqn:Hr1.
    - apply Z.ltb_lt in Hr1. eexists. eexists. split; [reflexivity|].
      fields. repeat split; lia.
    - apply Z.ltb_ge in Hr1.
      destruct (import_fork_tar w2 temp) as [[e|[fd pid]] w3];
        (eexists; eexists; split; [reflexivity|]);
        fields; repeat split; lia. }
  exists r, m'. split; [exact Hres|]. split; [exact Htp|].
  split; [|split].
  - intros base Hcur Hnth.
    assert (dkr_import_current_base_layer (session m) = Some base) as Hbase.
    { unfold dkr_import_current_base_layer.
      destruct (ancestry (session m)) as [|a rest] eqn:Ha.
      - destruct (Z.to_nat (current_ancestry (session m) - 1)); discriminate.
      - cbn [strv_isempty].
        assert ((current_ancestry (session m) <=? 0) = false) as ->
          by (apply Z.leb_gt; exact Hcur).
        exact Hnth. }
    rewrite Hbase in Hsub. rewrite Hsub. split; assumption.
  - intro Hcur.
    assert (dkr_import_current_base_layer (session m) = None) as Hbase.
    { unfold dkr_import_current_base_layer.
      destruct (strv_isempty (ancestry (session m))); [reflexivity|].
      assert ((current_ancestry (session m) <=? 0) = true) as ->
        by (apply Z.leb_le; exact Hcur).
      reflexivity. }
    rewrite Hbase in Hsub. rewrite Hsub. split; assumption.
  - intro Hpresent.
    destruct (dkr_import_current_base_layer (session m)) as [base|] eqn:Hbase.
    + specialize (Hpresent base eq_refl). unfold layer_present in Hpresent.
      assert ((0 <=? laccess w1 (layer_path (image_root (session m)) base))
              = true) as -> by (apply Z.leb_le; exact Hpresent).
      rewrite Hsub. reflexivity.
    + rewrite Hsub. reflexivity.
Qed.

(** What [dkr_import_job_on_finished] makes of a failing [rename] when
    sealing a layer: the result delivered at [finish:] is the value
    [btrfs_subvol_set_read_only] returned, which is not negative, and not
    the error of [rename]; [temp_path] stays set, and the teardown removes
    the temporary subvolume. *)
Lemma rename_failure_reports_last_result m j temp final r1 w1 r2 w2 r3 w3
    e w4 :
  layer_job (session m) = Some j -> error j = 0 ->
  temp_path (session m) = Some temp -> final_path (session m) = Some final ->
  0 < tar_pid (session m) ->
  wait_for_terminate_and_warn (world m) (tar_pid (session m)) = (r1, w1) ->
  0 <= r1 ->
  aufs_resolve w1 temp = (r2, w2) -> 0 <= r2 ->
  btrfs_subvol_set_read_only w2 temp true = (r3, w3) -> 0 <= r3 ->
  rename w3 temp final = (e, w4) -> e < 0 ->
  exists m',
    dkr_import_job_on_finished LAYER m = Some m'
    /\ completed m' = completed m ++ [r3]
    /\ temp_path (session m') = Some temp
    /\ dkr_import_unref m'
       = rm_rf_dangerous (btrfs_subvol_remove w4 temp) temp.
Proof.
  intros Hj Herr Htemp Hfinal Hpid Hwait Hr1 Haufs Hr2 Hro Hr3 Hren He.
  unfold dkr_import_job_on_finished. cbn [job_of]. rewrite Hj, Herr.
  cbn [Z.eqb negb on_finished_branch]. unfold on_finished_layer.
  rewrite Htemp, Hfinal. fields.
  apply Z.ltb_lt in Hpid. rewrite Hpid, Hwait.
  apply Z.ltb_ge in Hr1. rewrite Hr1, Haufs.
  apply Z.ltb_ge in Hr2. rewrite Hr2, Hro.
  apply Z.ltb_ge in Hr3. rewrite Hr3, Hren.
  apply Z.ltb_lt in He. rewrite He.
  eexists. split; [reflexivity|]. unfold dkr_import_unref. fields.
  rewrite Htemp. cbn [Z.ltb Z.compare]. repeat split.
Qed.

(** ** The id parser *)

(** X1.  [parse_id] accepts exactly the payloads that are non-empty, hold no
    NUL and consist of one JSON string that is a valid id, and returns
    that string; every error is [-EBADMSG] or the error with which the
    tokenizer failed on one of the two tokens read. *)
Theorem parse_id_spec (body : string) :
  (forall s,
      parse_id body = inr s <->
      body <> EmptyString /\ memchr_nul body = false
      /\ tokenizes body [JSON_STRING s] /\ dkr_id_is_valid s = true)
  /\ (forall e,
        parse_id body = inl e ->
        e = - EBADMSG
        \/ (exists toks p js,
              reads body json_state_null toks p js
              /\ (List.length toks <= 1)%nat
              /\ json_tokenize p js = inl e)).
Proof.
  unfold parse_id, tokenizes. split.
  - intro s. split.
    + intro H.
      destruct body as [|c rest]; [discriminate|].
      cbn [String.length Nat.leb] in H.
      destruct (memchr_nul (String c rest)) eqn:Hnul; [discriminate|].
      destruct (json_tokenize (String c rest) json_state_null)
        as [t|[[t p] js]] eqn:H1; [discriminate|].
      destruct t; try discriminate.
      destruct (json_tokenize p js) as [t2|[[t2 p2] js2]] eqn:H2;
        [discriminate|].
      destruct t2; try discriminate.
      destruct (dkr_id_is_valid str) eqn:Hv; [|discriminate].
      inversion H; subst s.
      split; [discriminate|]. split; [reflexivity|]. split; [|exact Hv].
      exists p2, js2. cbn [app].
      econstructor; [exact H1|]. econstructor; [exact H2|]. constructor.
    + intros [Hne [Hnul [[p2 [js2 Hr]] Hv]]].
      destruct body as [|c rest]; [contradiction|].
      cbn [String.length Nat.leb]. rewrite Hnul.
      cbn [app] in Hr.
      inversion Hr as [|? ? ? p1 js1 ? ? ? H1 Hr1]; subst.
      inversion Hr1 as [|? ? ? p3 js3 ? ? ? H2 Hr2]; subst.
      rewrite H1, H2, Hv. reflexivity.
  - intros e H.
    destruct (String.length body <=? 0)%nat;
      [inversion H; left; reflexivity|].
    destruct (memchr_nul body); [inversion H; left; reflexivity|].
    destruct (json_tokenize body json_state_null)
      as [t|[[t p] js]] eqn:H1.
    + inversion H; subst. right. exists [], body, json_state_null.
      split; [constructor|]. split; [simpl; lia | exact H1].
    + destruct t; try (inversion H; left; reflexivity).
      destruct (json_tokenize p js) as [t2|[[t2 p2] js2]] eqn:H2.
      * inversion H; subst. right. exists [JSON_STRING str], p, js.
        split; [econstructor; [exact H1 | constructor]|].
        split; [simpl; lia | exact H2].
      * destruct t2; try (inversion H; left; reflexivity).
        destruct (negb (dkr_id_is_valid str)); inversion H. left. reflexivity.
Qed.

(** ** The progress formulas *)

Lemma u32_small x : 0 <= x < 2 ^ 32 -> u32 x = x.
Proof. intro H. unfold u32. apply Z.mod_small. exact H. Qed.

(** The share a job's progress adds to the searching, resolving and
    metadata phases: between 0 and 5. *)
Lemma progress_share p :
  0 <= p <= 100 -> 0 <= u32 (p * 5) / 100 <= 5.
Proof.
  intro H. rewrite u32_small by lia. split.
  - apply Z.div_pos; lia.
  - apply Z.div_le_upper_bound; lia.
Qed.

(** The share of the layers in the downloading phase: between 0 and 75,
    the current layer's progress included. *)
Lemma download_share cur n p :
  0 <= cur -> cur + 1 <= n -> n <= LAYERS_MAX -> 0 <= p <= 100 ->
  0 <= u32 (75 * cur) / Z.max 1 n /\ 0 <= u32 (p * 75) / Z.max 1 n / 100
  /\ u32 (75 * cur) / Z.max 1 n + u32 (p * 75) / Z.max 1 n / 100 <= 75.
Proof.
  unfold LAYERS_MAX. intros Hc Hn Hmax Hp.
  rewrite !u32_small by lia. rewrite Z.max_r by lia.
  pose proof (Z.mul_div_le (75 * cur) n ltac:(lia)) as Ha.
  pose proof (Z.mul_div_le (p * 75) n ltac:(lia)) as Hb.
  pose proof (Z.mul_div_le (p * 75 / n) 100 ltac:(lia)) as Hb2.
  assert (0 <= 75 * cur / n) as Ha0 by (apply Z.div_pos; lia).
  assert (0 <= p * 75 / n) as Hb0 by (apply Z.div_pos; lia).
  assert (0 <= p * 75 / n / 100) as Hb1 by (apply Z.div_pos; lia).
  split; [exact Ha0|]. split; [exact Hb1|].
  assert (n * (p * 75 / n / 100) <= 75) as Hb3 by nia.
  nia.
Qed.

(** The value [dkr_import_report_progress] computes lies in the range
    of its phase, for a session whose jobs report between 0 and 100,
    whose cursor is within the ancestry (before its end while a layer job
    exists) and whose ancestry has at most [LAYERS_MAX] layers. *)
Lemma progress_value_bands (i : DkrImport) :
  (forall s, progress_in_range (job_of s i)) ->
  0 <= current_ancestry i <= n_ancestry i ->
  n_ancestry i <= LAYERS_MAX ->
  (layer_job i <> None -> current_ancestry i < n_ancestry i) ->
  0 <= progress_value i DKR_SEARCHING <= 5
  /\ 5 <= progress_value i DKR_RESOLVING <= 10
  /\ 10 <= progress_value i DKR_METADATA <= 20
  /\ 20 <= progress_value i DKR_DOWNLOADING <= 95
  /\ progress_value i DKR_COPYING = 95.
Proof.
  intros Hp Hcur Hmax Hlayer.
  pose proof (Hp IMAGES) as Hi. pose proof (Hp TAGS) as Ht.
  pose proof (Hp ANCESTRY) as Ha. pose proof (Hp JSON) as Hj.
  pose proof (Hp LAYER) as Hl. cbn [job_of] in Hi, Ht, Ha, Hj, Hl.
  unfold progress_value, progress_in_range in *.
  split; [|split; [|split; [|split; [|reflexivity]]]].
  - destruct (images_job i) as [j|]; [|lia].
    pose proof (progress_share _ Hi). rewrite u32_small; lia.
  - destruct (tags_job i) as [j|]; [|lia].
    pose proof (progress_share _ Ht). rewrite u32_small; lia.
  - destruct (ancestry_job i) as [ja|]; destruct (json_job i) as [jj|];
      try pose proof (progress_share _ Ha);
      try pose proof (progress_share _ Hj);
      rewrite ?(u32_small (10 + _)) by lia;
      rewrite ?(u32_small (_ + _)) by lia; lia.
  - destruct (layer_job i) as [j|].
    + assert (current_ancestry i < n_ancestry i) as Hlt
        by (apply Hlayer; discriminate).
      destruct (download_share (current_ancestry i) (n_ancestry i)
                  (progress_percent j)) as [H1 [H2 H3]]; try lia.
      rewrite (u32_small (20 + _)) by lia.
      rewrite (u32_small (_ + _)) by lia. lia.
    + assert (0 <= u32 (75 * current_ancestry i) / Z.max 1 (n_ancestry i)
              <= 75) as H1.
      { unfold LAYERS_MAX in Hmax. rewrite u32_small by lia. split.
        - apply Z.div_pos; lia.
        - apply Z.div_le_upper_bound; lia. }
      rewrite u32_small; lia.
Qed.

(** ** The scan of dkr_import_pull_layer *)

Lemma current_layer_nth i layer :
  0 <= current_ancestry i ->
  dkr_import_current_layer i = Some layer <->
  nth_error (ancestry i) (Z.to_nat (current_ancestry i)) = Some layer.
Proof.
  intros _. unfold dkr_import_current_layer.
  destruct (ancestry i) as [|a rest]; cbn [strv_isempty].
  - split; [discriminate|]. destruct (Z.to_nat _); discriminate.
  - split; intro H; exact H.
Qed.

Lemma current_layer_none i :
  0 <= current_ancestry i <= strv_length (ancestry i) ->
  dkr_import_current_layer i = None ->
  current_ancestry i = strv_length (ancestry i).
Proof.
  unfold dkr_import_current_layer, strv_length. intros Hc H.
  destruct (ancestry i) as [|a rest] eqn:Ha; cbn [strv_isempty] in H.
  - simpl in *. lia.
  - apply nth_error_None in H. lia.
Qed.

(** What the scan of [dkr_import_pull_layer] does: from the cursor on it
    steps over the layers that are present and stops at the end of the
    ancestry, at the first layer [laccess] reports missing, or at the
    first one for which [laccess] fails otherwise. *)
Lemma pull_layer_scan_stops w fuel :
  forall i res,
    pull_layer_scan fuel w i = Some res ->
    0 <= current_ancestry i <= strv_length (ancestry i) ->
    exists c,
      current_ancestry i <= c <= strv_length (ancestry i)
      /\ scan_session res = set_current_ancestry c i
      /\ (forall k, current_ancestry i <= k < c ->
          exists layer,
            nth_error (ancestry i) (Z.to_nat k) = Some layer
            /\ layer_present w (image_root i) layer)
      /\ match res with
         | NoMoreLayers _ => c = strv_length (ancestry i)
         | ScanFailed r _ =>
             exists layer,
               nth_error (ancestry i) (Z.to_nat c) = Some layer
               /\ r = laccess w (layer_path (image_root i) layer)
               /\ r < 0 /\ r <> - ENOENT
         | LayerMissing layer path _ =>
             nth_error (ancestry i) (Z.to_nat c) = Some layer
             /\ path = layer_path (image_root i) layer
             /\ laccess w path = - ENOENT
         end.
Proof.
  induction fuel as [|fuel IH]; intros i res H Hc; [discriminate|].
  cbn [pull_layer_scan] in H.
  destruct (dkr_import_current_layer i) as [layer|] eqn:Hcur.
  - pose proof (proj1 (current_layer_nth i layer (proj1 Hc)) Hcur) as Hnth.
    assert (current_ancestry i < strv_length (ancestry i)) as Hlt.
    { unfold strv_length.
      assert (Z.to_nat (current_ancestry i) < List.length (ancestry i))%nat
        by (apply nth_error_Some; congruence).
      lia. }
    destruct (laccess w (layer_path (image_root i) layer) <? 0) eqn:Hneg.
    + exists (current_ancestry i). rewrite set_current_ancestry_same.
      split; [lia|].
      apply Z.ltb_lt in Hneg.
      destruct (laccess w (layer_path (image_root i) layer) =? - ENOENT)
        eqn:He; inversion H; subst; clear H; cbn [scan_session].
      * split; [reflexivity|]. split; [intros k Hk; lia|].
        apply Z.eqb_eq in He. repeat split; assumption.
      * split; [reflexivity|]. split; [intros k Hk; lia|].
        apply Z.eqb_neq in He. exists layer. repeat split; assumption.
    + apply Z.ltb_ge in Hneg.
      apply IH in H.
      2:{ destruct i; cbn in *. lia. }
      destruct H as [c [Hb [Hs [Hskip Hres]]]].
      assert (ancestry (set_current_ancestry (current_ancestry i + 1) i)
              = ancestry i) as Ha by (destruct i; reflexivity).
      assert (image_root (set_current_ancestry (current_ancestry i + 1) i)
              = image_root i) as Hroot by (destruct i; reflexivity).
      assert (current_ancestry
                (set_current_ancestry (current_ancestry i + 1) i)
              = current_ancestry i + 1) as Hcc by (destruct i; reflexivity).
      rewrite Ha, Hroot, Hcc in *.
      exists c. split; [lia|].
      split; [rewrite Hs; destruct i; reflexivity|].
      split; [|exact Hres].
      intros k Hk.
      destruct (Z.eq_dec k (current_ancestry i)) as [->|Hne].
      * exists layer. split; [exact Hnth | exact Hneg].
      * apply Hskip. lia.
  - inversion H; subst; clear H. exists (current_ancestry i).
    rewrite set_current_ancestry_same. cbn [scan_session].
    pose proof (current_layer_none i Hc Hcur).
    split; [lia|]. split; [reflexivity|]. split; [intros k Hk; lia|].
    assumption.
Qed.

(** [dkr_import_pull_layer], called as its assertions demand on a
    session whose cursor is within the ancestry and that knows a registry,
    returns; the cursor moves to [c], over layers that are present. *)
Lemma pull_layer_outcome (m : Machine) :
  layer_job (session m) = None ->
  temp_path (session m) = None ->
  final_path (session m) = None ->
  0 <= current_ancestry (session m) <= strv_length (ancestry (session m)) ->
  response_registries (session m) <> [] ->
  exists r m' c,
    dkr_import_pull_layer m = Some (r, m')
    /\ current_ancestry (session m) <= c <= strv_length (ancestry (session m))
    /\ (forall k, current_ancestry (session m) <= k < c ->
        exists layer,
          nth_error (ancestry (session m)) (Z.to_nat k) = Some layer
          /\ layer_present (world m) (image_root (session m)) layer)
    /\ ((c = strv_length (ancestry (session m)) /\ r = 0
         /\ m' = set_session (set_current_ancestry c (session m)) m)
        \/ (exists layer,
              nth_error (ancestry (session m)) (Z.to_nat c) = Some layer
              /\ r = laccess (world m)
                       (layer_path (image_root (session m)) layer)
              /\ r < 0 /\ r <> - ENOENT
              /\ m' = set_session (set_current_ancestry c (session m)) m)
        \/ (exists layer registry rest,
              let i := set_final_path
                         (Some (layer_path (image_root (session m)) layer))
                         (set_current_ancestry c (session m)) in
              let j := new_layer_job i registry layer in
              nth_error (ancestry (session m)) (Z.to_nat c) = Some layer
              /\ laccess (world m)
                   (layer_path (image_root (session m)) layer) = - ENOENT
              /\ response_registries (session m) = registry :: rest
              /\ r = (if import_job_begin j <? 0 then import_job_begin j
                      else 0)
              /\ m' = add_request LAYER (url j)
                        (set_live_layer_jobs (S (live_layer_jobs m))
                           (set_session (set_layer_job (Some j) i) m)))).
Proof.
  intros Hl Ht Hf Hc Hreg. unfold dkr_import_pull_layer.
  rewrite Hl, Ht, Hf.
  destruct (pull_layer_scan_total (world m)
              (S (List.length (ancestry (session m)))) (session m))
    as [res Hscan]; [lia | lia |].
  rewrite Hscan.
  destruct (pull_layer_scan_stops _ _ _ _ Hscan Hc)
    as [c [Hb [Hs [Hskip Hres]]]].
  destruct res as [i'|r' i'|layer path i']; cbn [scan_session] in Hs; subst i'.
  - eexists _, _, c. split; [reflexivity|]. split; [exact Hb|].
    split; [exact Hskip|]. left. repeat split. exact Hres.
  - destruct Hres as [layer [Hnth [Hr [Hneg Hne]]]].
    eexists _, _, c. split; [reflexivity|]. split; [exact Hb|].
    split; [exact Hskip|]. right. left. exists layer.
    repeat split; assumption.
  - destruct Hres as [Hnth [Hpath Hacc]]. subst path.
    assert (response_registries (set_final_path
              (Some (layer_path (image_root (session m)) layer))
              (set_current_ancestry c (session m)))
            = response_registries (session m)) as Hrr
      by (destruct (session m); reflexivity).
    rewrite Hrr.
    destruct (response_registries (session m)) as [|registry rest] eqn:Hregs;
      [contradiction|].
    unfold begin_job, new_layer_job. cbv beta iota zeta.
    destruct (import_job_begin _ <? 0) eqn:Hneg;
      (eexists _, _, c; split; [reflexivity|]; split; [exact Hb|];
       split; [exact Hskip|]; right; right;
       exists layer, registry, rest; cbv zeta; unfold new_layer_job;
       rewrite Hneg;
       split; [exact Hnth|]; split; [exact Hacc|]; split; [reflexivity|];
       split; reflexivity).
Qed.

(** ** What each callback returns and changes, case by case *)

Lemma set_session_same m : set_session (session m) m = m.
Proof. destruct m; reflexivity. Qed.

(** What [dkr_import_job_on_header] returns and changes. *)
Lemma on_header_cases header i r i' :
  dkr_import_job_on_header header i = (r, i') ->
  (r = 0 /\ i' = i)
  \/ (r = - EBADMSG /\ i' = i)
  \/ (r = 0 /\ exists t, i' = set_response_token (Some t) i)
  \/ (r = 0
      /\ exists l,
           forallb hostname_is_valid l = true
           /\ i' = set_response_registries l i).
Proof.
  unfold dkr_import_job_on_header. intro H.
  destruct (curl_header_strdup header HEADER_TOKEN) as [token|].
  - inversion H; subst. right. right. left. split; [reflexivity|].
    exists token. reflexivity.
  - destruct (curl_header_strdup header HEADER_REGISTRY) as [registry|].
    + destruct (forallb hostname_is_valid _) eqn:Hv; inversion H; subst.
      * right. right. right. split; [reflexivity|]. eexists.
        split; [exact Hv | reflexivity].
      * right. left. split; reflexivity.
    + inversion H; subst. left. split; reflexivity.
Qed.

(** The images branch of [dkr_import_job_on_finished]. *)
Lemma on_finished_images_cases m b :
  on_finished_images m = Some b ->
  tags_job (session m) = None /\ ancestry_job (session m) = None
  /\ json_job (session m) = None /\ layer_job (session m) = None
  /\ ((response_registries (session m) = []
       /\ b = GotoFinish (- EBADMSG) m)
      \/ exists registry rest,
           let j := new_job (session m)
                      (tags_url registry (name (session m))
                         (tag (session m))) in
           let m2 := add_request TAGS (url j)
                       (set_session (set_tags_job (Some j) (session m))
                          (dkr_import_report_progress DKR_RESOLVING m)) in
           response_registries (session m) = registry :: rest
           /\ b = if import_job_begin j <? 0
                  then GotoFinish (import_job_begin j) m2
                  else FallThrough m2).
Proof.
  unfold on_finished_images, begin_job. intro H.
  destruct (tags_job (session m)); [discriminate|].
  destruct (ancestry_job (session m)); [discriminate|].
  destruct (json_job (session m)); [discriminate|].
  destruct (layer_job (session m)); [discriminate|].
  repeat (split; [reflexivity|]).
  destruct (response_registries (session m)) as [|registry rest].
  - inversion H. left. split; reflexivity.
  - right. exists registry, rest. cbv zeta. split; [reflexivity|].
    unfold new_job, tags_url.
    destruct (import_job_begin _ <? 0); inversion H; reflexivity.
Qed.

(** The tags branch. *)
Lemma on_finished_tags_cases j m b :
  on_finished_tags j m = Some b ->
  ancestry_job (session m) = None /\ json_job (session m) = None
  /\ layer_job (session m) = None
  /\ ((exists r, parse_id (payload j) = inl r /\ b = GotoFinish r m)
      \/ exists new_id registry rest,
           let i1 := set_id new_id (session m) in
           let ja := new_job i1 (image_url registry new_id "/ancestry") in
           let jj := new_job i1 (image_url registry new_id "/json") in
           let m1 := set_session
                       (set_json_job (Some jj)
                          (set_ancestry_job (Some ja) i1))
                       (add_notified (progress_value i1 DKR_METADATA) m) in
           let m2 := add_request ANCESTRY (url ja) m1 in
           let m3 := add_request JSON (url jj) m2 in
           parse_id (payload j) = inr new_id
           /\ response_registries (session m) = registry :: rest
           /\ b = if import_job_begin ja <? 0
                  then GotoFinish (import_job_begin ja) m2
                  else if import_job_begin jj <? 0
                       then GotoFinish (import_job_begin jj) m3
                       else FallThrough m3).
Proof.
  unfold on_finished_tags, begin_job. intro H.
  destruct (ancestry_job (session m)); [discriminate|].
  destruct (json_job (session m)); [discriminate|].
  destruct (layer_job (session m)); [discriminate|].
  repeat (split; [reflexivity|]).
  destruct (parse_id (payload j)) as [r|new_id].
  - inversion H. left. exists r. split; reflexivity.
  - right. fields.
    destruct (response_registries (session m)) as [|registry rest] eqn:Hreg;
      [discriminate|].
    exists new_id, registry, rest. cbv zeta.
    split; [reflexivity|]. split; [reflexivity|].
    unfold new_job, image_url. fields.
    destruct (import_job_begin _ <? 0);
      [|destruct (import_job_begin _ <? 0)]; inversion H; reflexivity.
Qed.

(** The ancestry branch. *)
Lemma on_finished_ancestry_cases j m b :
  on_finished_ancestry j m = Some b ->
  layer_job (session m) = None
  /\ ((exists r,
         parse_ancestry (payload j) = Some (inl r) /\ b = GotoFinish r m)
      \/ (exists l,
            parse_ancestry (payload j) = Some (inr l)
            /\ (l = [] \/ last l EmptyString <> id (session m))
            /\ b = GotoFinish (- EBADMSG) m)
      \/ (exists l r m3,
            parse_ancestry (payload j) = Some (inr l)
            /\ l <> [] /\ last l EmptyString = id (session m)
            /\ dkr_import_pull_layer
                 (dkr_import_report_progress DKR_DOWNLOADING
                    (set_session (with_ancestry l (session m)) m))
               = Some (r, m3)
            /\ b = if r <? 0 then GotoFinish r m3 else FallThrough m3)).
Proof.
  unfold on_finished_ancestry. intro H.
  destruct (layer_job (session m)); [discriminate|].
  split; [reflexivity|].
  destruct (parse_ancestry (payload j)) as [[r|l]|]; [| |discriminate].
  - inversion H. left. exists r. split; reflexivity.
  - right.
    destruct ((strv_length l <=? 0)
              || negb (String.eqb (last l EmptyString) (id (session m))))
      eqn:Htest.
    + inversion H. left. exists l. split; [reflexivity|].
      split; [|reflexivity].
      apply orb_true_iff in Htest. destruct Htest as [Hn|Hne].
      * left. apply Z.leb_le in Hn. unfold strv_length in Hn.
        destruct l; [reflexivity | simpl in Hn; lia].
      * right. apply negb_true_iff, String.eqb_neq in Hne. exact Hne.
    + apply orb_false_iff in Htest. destruct Htest as [Hn He].
      apply negb_false_iff, String.eqb_eq in He.
      apply Z.leb_gt in Hn.
      destruct (dkr_import_pull_layer _) as [[r m3]|] eqn:Hpl;
        [|discriminate].
      right. exists l, r, m3. split; [reflexivity|].
      split; [intros ->; unfold strv_length in Hn; simpl in Hn; lia|].
      split; [exact He|]. split; [exact Hpl|].
      destruct (r <? 0); inversion H; reflexivity.
Qed.

(** The layer branch: either it leaves for [finish:] with the layer job
    and both paths still in place, or the layer is sealed, the job and
    the paths are released, the cursor moves on and
    [dkr_import_pull_layer] is called. *)
Lemma on_finished_layer_cases j m b :
  on_finished_layer j m = Some b ->
  exists temp final i1,
    temp_path (session m) = Some temp /\ final_path (session m) = Some final
    /\ ((tar_pid (session m) <= 0
         /\ i1 = set_layer_job (Some (job_set_disk_fd (-1) j)) (session m))
        \/ i1 = set_tar_pid 0
                  (set_layer_job (Some (job_set_disk_fd (-1) j)) (session m)))
    /\ ((exists r w, b = GotoFinish r (set_world w (set_session i1 m)))
        \/ (exists w r m3,
              dkr_import_pull_layer
                (set_live_layer_jobs (Nat.pred (live_layer_jobs m))
                   (set_world w (set_session (layer_released i1) m)))
              = Some (r, m3)
              /\ b = if r <? 0 then GotoFinish r m3 else FallThrough m3)).
Proof.
  unfold on_finished_layer. intro H.
  destruct (temp_path (session m)) as [temp|]; [|discriminate].
  destruct (final_path (session m)) as [final|]; [|discriminate].
  exists temp, final.
  destruct (0 <? tar_pid _) eqn:Hpid;
    [destruct (wait_for_terminate_and_warn _ _) as [r1 w1];
     exists (set_tar_pid 0
               (set_layer_job (Some (job_set_disk_fd (-1) j)) (session m)))
    |exists (set_layer_job (Some (job_set_disk_fd (-1) j)) (session m))];
    (split; [reflexivity|]); (split; [reflexivity|]);
    (split;
     [first [left; split; [apply Z.ltb_ge; exact Hpid | reflexivity]
            | right; reflexivity]|]);
    cbv beta iota zeta in H;
    (destruct (_ <? 0);
     [inversion H; left; eexists _, _; reflexivity|]);
    (destruct (aufs_resolve _ _) as [r2 w2]);
    (destruct (r2 <? 0);
     [inversion H; left; eexists _, _; reflexivity|]);
    (destruct (btrfs_subvol_set_read_only _ _ _) as [r3 w3]);
    (destruct (r3 <? 0);
     [inversion H; left; eexists _, _; reflexivity|]);
    (destruct (rename _ _ _) as [e w4]);
    (destruct (e <? 0);
     [inversion H; left; eexists _, _; reflexivity|]);
    (destruct (dkr_import_pull_layer _) as [[r m3]|] eqn:Hpl;
     [|discriminate]);
    right; exists w4, r, m3; unfold layer_released;
    (split; [exact Hpl|]);
    destruct (r <? 0); inversion H; reflexivity.
Qed.

(** [dkr_import_make_local_copy] touches the world and [final_path]
    only, and only when a local name was given. *)
Lemma make_local_copy_cases m r m2 :
  dkr_import_make_local_copy m = (r, m2) ->
  (local (session m) = None /\ r = 0 /\ m2 = m)
  \/ (exists loc final w,
        local (session m) = Some loc
        /\ r <= 0
        /\ m2 = set_world w
                  (set_session (set_final_path (Some final) (session m)) m)).
Proof.
  unfold dkr_import_make_local_copy. intro H.
  destruct (local (session m)) as [loc|].
  - right. destruct (import_make_local_copy _ _ _ _ _) as [r1 w].
    exists loc. eexists _, w. split; [reflexivity|].
    destruct (r1 <? 0) eqn:Hneg; inversion H; subst;
      (split; [try (apply Z.ltb_lt in Hneg); lia | reflexivity]).
  - inversion H. left. repeat split.
Qed.

(** The end of [dkr_import_job_on_finished]. *)
Lemma on_finished_tail_cases m m' :
  on_finished_tail m = Some m' ->
  (dkr_import_is_done (session m) = Some false /\ m' = m)
  \/ (dkr_import_is_done (session m) = Some true
      /\ exists r m2,
           dkr_import_make_local_copy
             (dkr_import_report_progress DKR_COPYING m) = (r, m2)
           /\ m' = finish r m2).
Proof.
  unfold on_finished_tail. intro H.
  destruct (dkr_import_is_done (session m)) as [[|]|]; [| |discriminate].
  - right. split; [reflexivity|].
    destruct (dkr_import_make_local_copy _) as [r m2] eqn:Hcopy.
    exists r, m2. split; [reflexivity|].
    destruct (make_local_copy_cases _ _ _ Hcopy)
      as [[_ [-> _]]|[loc [final [w [_ [Hr _]]]]]].
    + cbn [Z.ltb Z.compare] in H. inversion H. reflexivity.
    + destruct (r <? 0) eqn:Hneg; inversion H; [reflexivity|].
      apply Z.ltb_ge in Hneg. assert (r = 0) as -> by lia. reflexivity.
  - inversion H. left. split; reflexivity.
Qed.

(** [dkr_import_job_on_open_disk]: the temporary path is set whatever
    the outcome; the tar child and the descriptor only on success. *)
Lemma on_open_disk_cases m r m1 :
  dkr_import_job_on_open_disk m = Some (r, m1) ->
  exists j final temp w,
    layer_job (session m) = Some j /\ final_path (session m) = Some final
    /\ temp_path (session m) = None /\ tar_pid (session m) <= 0
    /\ let i1 := set_temp_path (Some temp) (session m) in
       (r < 0 /\ m1 = set_world w (set_session i1 m))
       \/ (r < 0
           /\ m1 = set_world w
                     (set_session
                        (set_layer_job (Some (job_set_disk_fd r j)) i1) m))
       \/ (r = 0
           /\ exists fd pid,
                m1 = set_world w
                       (set_session
                          (set_tar_pid (Z.pos pid)
                             (set_layer_job
                                (Some (job_set_disk_fd (Z.of_N fd) j)) i1))
                          m)).
Proof.
  unfold dkr_import_job_on_open_disk. intro H.
  destruct (layer_job (session m)) as [j|]; [|discriminate].
  destruct (final_path (session m)) as [final|]; [|discriminate].
  destruct (temp_path (session m)); [discriminate|].
  destruct (0 <? tar_pid (session m)) eqn:Hpid; [discriminate|].
  apply Z.ltb_ge in Hpid.
  exists j, final, (tempfn_random (world m) final).
  destruct (match dkr_import_current_base_layer _ with
            | Some base => _
            | None => _
            end) as [r1 w1].
  destruct (r1 <? 0) eqn:Hneg.
  - apply Z.ltb_lt in Hneg. inversion H; subst. exists w1.
    repeat (split; [reflexivity || assumption|]). left.
    split; [assumption | reflexivity].
  - destruct (import_fork_tar w1 _) as [[e|[fd pid]] w2];
      inversion H; subst; exists w2;
      repeat (split; [reflexivity || assumption|]); right.
    + left. split; [reflexivity|reflexivity].
    + right. split; [reflexivity|]. exists fd, pid. reflexivity.
Qed.

(** A branch of [dkr_import_job_on_finished], entered for a job that just
    ended well, leaves the invariant of the pull in place. *)
Lemma on_finished_branch_invariant w0 which j body m b :
  pull_invariant w0 m -> completed m = [] ->
  job_of which (session m) = Some j -> job_finished j = false ->
  on_finished_branch which (job_ended_well body j)
    (with_job which (job_ended_well body j) m) = Some b ->
  exit_invariant w0 b.
Proof.
  intros Hinv Hc Hj Hfin Hb. unfold with_job in Hb.
  pose proof (set_job_invariant w0 which j (job_ended_well body j) m
                Hinv Hj Hfin) as Hinv1.
  remember (job_ended_well body j) as j'.
  remember (set_session (set_job which (Some j') (session m)) m) as m1.
  assert (job_of which (session m1) = Some j') as Hj1
    by (subst m1; cbn [session set_session]; apply job_of_set_job).
  assert (completed m1 = []) as Hc1 by (subst m1; exact Hc).
  assert (job_done (Some j') = true) as Hdone by (subst j'; reflexivity).
  destruct which; cbn [on_finished_branch] in Hb; cbn [job_of] in Hj1.
  - eapply on_finished_images_invariant; try eassumption.
    rewrite Hj1. exact Hdone.
  - eapply on_finished_tags_invariant; try eassumption.
    rewrite Hj1. exact Hdone.
  - eapply on_finished_ancestry_invariant; try eassumption.
    + subst m1. eapply set_job_download_not_started; try eassumption.
      reflexivity.
    + rewrite Hj1. exact Hdone.
  - inversion Hb; subst b. split; assumption.
  - eapply on_finished_layer_invariant; eassumption.
Qed.

(** ** An induction principle for the states of a pull *)

Section PullInduction.

Variable w0 : World.
Variable P : Machine -> Prop.

Hypothesis P_start :
  forall event url_arg root i name_arg tag_arg local_arg force r m,
    dkr_import_new event url_arg root = inr i ->
    dkr_import_pull name_arg tag_arg local_arg force (machine_of i w0)
    = (r, m) ->
    0 <= r -> P m.

Hypothesis P_header :
  forall m j i',
    reachable w0 m -> completed m = [] -> P m ->
    images_job (session m) = Some j -> job_finished j = false ->
    ((exists t, i' = set_response_token (Some t) (session m))
     \/ (exists l,
           forallb hostname_is_valid l = true
           /\ i' = set_response_registries l (session m))) ->
    P (set_session i' m).

Hypothesis P_progress :
  forall m which j percent,
    reachable w0 m -> completed m = [] -> P m ->
    job_of which (session m) = Some j -> job_finished j = false ->
    progress_percent j <= percent <= 100 ->
    P (dkr_import_job_on_progress which
         (with_job which (job_set_progress_percent percent j) m)).

Hypothesis P_open_disk :
  forall m j r m1,
    reachable w0 m -> completed m = [] -> P m ->
    layer_job (session m) = Some j -> job_finished j = false ->
    dkr_import_job_on_open_disk m = Some (r, m1) ->
    (0 <= r -> P m1)
    /\ (r < 0 ->
        forall j1,
          layer_job (session m1) = Some j1 ->
          P (finish r (with_job LAYER (job_ended_badly r j1) m1))).

Hypothesis P_failed :
  forall m which j ret,
    reachable w0 m -> completed m = [] -> P m ->
    job_of which (session m) = Some j -> job_finished j = false ->
    ret <> 0 ->
    P (finish ret (with_job which (job_ended_badly ret j) m)).

Hypothesis P_branch :
  forall m which j body b,
    reachable w0 m -> completed m = [] -> P m ->
    job_of which (session m) = Some j -> job_finished j = false ->
    on_finished_branch which (job_ended_well body j)
      (with_job which (job_ended_well body j) m) = Some b ->
    exit_holds P b.

Hypothesis P_tail :
  forall m m',
    pull_invariant w0 m -> completed m = [] -> P m ->
    on_finished_tail m = Some m' -> P m'.

Lemma import_job_finish_keeps which ret body m m' :
  reachable w0 m -> completed m = [] -> P m ->
  import_job_finish which ret body m = Some m' -> P m'.
Proof.
  intros Hr Hc HP H.
  destruct (Z.eq_dec ret 0) as [->|Hret].
  - unfold import_job_finish in H.
    destruct (job_of which (session m)) as [j|] eqn:Hj; [|discriminate].
    destruct (job_finished j) eqn:Hfin; [discriminate|].
    cbn [Z.eqb] in H.
    change (job_set_error 0
              (job_set_payload body (job_set_state IMPORT_JOB_DONE j)))
      with (job_ended_well body j) in H.
    change (set_session
              (set_job which (Some (job_ended_well body j)) (session m)) m)
      with (with_job which (job_ended_well body j) m) in H.
    unfold dkr_import_job_on_finished in H.
    assert (job_of which (session (with_job which (job_ended_well body j) m))
            = Some (job_ended_well body j)) as Hj1
      by (unfold with_job; cbn [session set_session]; apply job_of_set_job).
    rewrite Hj1 in H.
    change (error (job_ended_well body j)) with 0 in H.
    cbn [Z.eqb negb] in H.
    destruct (on_finished_branch which (job_ended_well body j)
                (with_job which (job_ended_well body j) m))
      as [b|] eqn:Hb; [|discriminate].
    pose proof (P_branch m which j body b Hr Hc HP Hj Hfin Hb) as Hexit.
    pose proof (on_finished_branch_invariant w0 which j body m b
                  (reachable_invariant _ _ Hr) Hc Hj Hfin Hb) as Hinv.
    destruct b as [m2|r m2]; cbn [exit_holds exit_invariant] in *.
    + destruct Hinv as [Hinv2 Hc2].
      exact (P_tail m2 m' Hinv2 Hc2 Hexit H).
    + inversion H; subst. exact Hexit.
  - apply import_job_finish_error in H; [|exact Hret].
    destruct H as [j [Hj [Hfin ->]]].
    exact (P_failed m which j ret Hr Hc HP Hj Hfin Hret).
Qed.

(** A property that holds when a pull has started and that every
    callback keeps holds in every state of the pull. *)
Lemma pull_induction m : reachable w0 m -> P m.
Proof.
  induction 1 as [event url_arg root i name_arg tag_arg local_arg force r m
                    Hnew Hpull Hr
                 |m ev m' Hreach IH Hdel].
  - exact (P_start _ _ _ _ _ _ _ _ _ _ Hnew Hpull Hr).
  - unfold deliver in Hdel.
    destruct (completed m) eqn:Hc; [|discriminate].
    destruct ev as [header|which percent| |which ret body].
    + destruct (images_job (session m)) as [j|] eqn:Hj; [|discriminate].
      destruct (job_finished j) eqn:Hfin; [discriminate|].
      destruct (dkr_import_job_on_header header (session m)) as [r i']
        eqn:Hh.
      destruct (on_header_cases _ _ _ _ Hh)
        as [[-> ->]|[[-> ->]|[[-> Ht]|[-> Hl]]]].
      * cbn [Z.ltb Z.compare] in Hdel. inversion Hdel.
        rewrite set_session_same. exact IH.
      * change (- EBADMSG <? 0) with true in Hdel. cbv iota in Hdel.
        rewrite set_session_same in Hdel.
        exact (import_job_finish_keeps _ _ _ _ _ Hreach Hc IH Hdel).
      * cbn [Z.ltb Z.compare] in Hdel. inversion Hdel.
        apply (P_header m j i' Hreach Hc IH Hj Hfin). left. exact Ht.
      * cbn [Z.ltb Z.compare] in Hdel. inversion Hdel.
        apply (P_header m j i' Hreach Hc IH Hj Hfin). right. exact Hl.
    + destruct (job_of which (session m)) as [j|] eqn:Hj; [|discriminate].
      destruct (job_finished j) eqn:Hfin; [discriminate|].
      destruct ((progress_percent j <=? percent) && (percent <=? 100))
        eqn:Hrange; [|discriminate].
      apply andb_true_iff in Hrange. destruct Hrange as [H1 H2].
      apply Z.leb_le in H1. apply Z.leb_le in H2.
      inversion Hdel.
      exact (P_progress m which j percent Hreach Hc IH Hj Hfin
               (conj H1 H2)).
    + destruct (layer_job (session m)) as [j|] eqn:Hj; [|discriminate].
      destruct (job_finished j) eqn:Hfin; [discriminate|].
      destruct (dkr_import_job_on_open_disk m) as [[r m1]|] eqn:Hod;
        [|discriminate].
      destruct (P_open_disk m j r m1 Hreach Hc IH Hj Hfin Hod)
        as [Hok Hbad].
      destruct (r <? 0) eqn:Hneg.
      * apply Z.ltb_lt in Hneg.
        apply import_job_finish_error in Hdel; [|lia].
        destruct Hdel as [j1 [Hj1 [_ ->]]].
        exact (Hbad Hneg j1 Hj1).
      * apply Z.ltb_ge in Hneg. inversion Hdel; subst. exact (Hok Hneg).
    + exact (import_job_finish_keeps _ _ _ _ _ Hreach Hc IH Hdel).
Qed.

End PullInduction.

(** ** The shape of the session *)

Create HintDb shape.
#[local] Hint Extern 3 => congruence : shape.
#[local] Hint Extern 3 => lia : shape.
#[local] Hint Extern 3 => discriminate : shape.

Ltac split_hyps :=
  repeat match goal with
         | H : _ /\ _ |- _ => destruct H
         end.

Ltac forward_hyps :=
  repeat match goal with
         | H : ?A -> ?B |- _ =>
             match type of A with
             | Prop =>
                 let HA := fresh in
                 assert (HA : A)
                   by first [assumption | discriminate | congruence];
                 specialize (H HA); clear HA
             end
         end.

Ltac shape_leaf :=
  unfold exit_holds, session_shape, ancestry_well_formed, progress_in_range,
    with_job, job_ended_well, job_ended_badly, new_job, with_ancestry,
    layer_released in *;
  fields; split_hyps; forward_hyps; split_hyps;
  repeat split; auto with shape.


Ltac shape_parts H :=
  unfold session_shape in H;
  destruct H as [Shvalid [Shregs [Shaj [Shja [Shidv [Shwf [Shnone [Shfinal
                   [Shcur [Shp1 [Shp2 [Shp3 [Shp4 [Shp5 [Shpid0
                      Shpidt]]]]]]]]]]]]]]];
  unfold ancestry_well_formed in Shwf;
  destruct Shwf as [Shn [[Shcur0 Shcurn] [Shmax [Shnd [Shids Shlast]]]]].

Lemma session_shape_start w0 event url_arg root i name_arg tag_arg local_arg
    force r m :
  dkr_import_new event url_arg root = inr i ->
  dkr_import_pull name_arg tag_arg local_arg force (machine_of i w0) = (r, m) ->
  0 <= r ->
  session_shape m.
Proof.
  intros Hnew Hpull Hr.
  apply dkr_import_new_session in Hnew. destruct Hnew as [_ [_ [_ ->]]].
  unfold dkr_import_pull, machine_of in Hpull. fields.
  repeat (break_match_hyp Hpull;
          [inversion Hpull; subst; unfold EINVAL in Hr; lia|]).
  unfold begin_job in Hpull. inversion Hpull; subst.
  unfold session_shape, ancestry_well_formed, progress_in_range, strv_length,
    LAYERS_MAX.
  fields. cbn [forallb List.length Z.of_nat].
  repeat split; try congruence; try lia; try discriminate; try constructor.
Qed.

Lemma session_shape_header w0 m j i' :
  reachable w0 m -> completed m = [] -> session_shape m ->
  images_job (session m) = Some j -> job_finished j = false ->
  ((exists t, i' = set_response_token (Some t) (session m))
   \/ (exists l,
         forallb hostname_is_valid l = true
         /\ i' = set_response_registries l (session m))) ->
  session_shape (set_session i' m).
Proof.
  intros Hr Hc Hs Hj Hfin Hi.
  apply reachable_invariant in Hr. destruct Hr as [_ [Himg _]].
  apply job_done_unfinished in Hfin. rewrite Hj in Himg.
  assert (tags_job (session m) = None) as Ht.
  { destruct (tags_job (session m)); [|reflexivity].
    assert (job_done (Some j) = true) by (apply Himg; discriminate).
    congruence. }
  destruct Hi as [[t ->]|[l [Hl ->]]]; shape_leaf.
Qed.

Lemma session_shape_progress w0 m which j percent :
  reachable w0 m -> completed m = [] -> session_shape m ->
  job_of which (session m) = Some j -> job_finished j = false ->
  progress_percent j <= percent <= 100 ->
  session_shape
    (dkr_import_job_on_progress which
       (with_job which (job_set_progress_percent percent j) m)).
Proof.
  intros _ _ Hs Hj _ Hp.
  destruct which; cbn [job_of] in Hj;
    unfold session_shape, progress_in_range in Hs; rewrite Hj in Hs;
    shape_leaf.
Qed.

Lemma session_shape_failed w0 m which j ret :
  reachable w0 m -> completed m = [] -> session_shape m ->
  job_of which (session m) = Some j -> job_finished j = false ->
  ret <> 0 ->
  session_shape (finish ret (with_job which (job_ended_badly ret j) m)).
Proof.
  intros _ _ Hs Hj Hfin _. apply job_done_unfinished in Hfin.
  destruct which; cbn [job_of] in Hj;
    unfold session_shape, progress_in_range in Hs; rewrite Hj in Hs;
    shape_leaf.
Qed.

Lemma session_shape_open_disk w0 m j r m1 :
  reachable w0 m -> completed m = [] -> session_shape m ->
  layer_job (session m) = Some j -> job_finished j = false ->
  dkr_import_job_on_open_disk m = Some (r, m1) ->
  (0 <= r -> session_shape m1)
  /\ (r < 0 ->
      forall j1,
        layer_job (session m1) = Some j1 ->
        session_shape (finish r (with_job LAYER (job_ended_badly r j1) m1))).
Proof.
  intros _ _ Hs Hj _ Hod.
  destruct (on_open_disk_cases _ _ _ Hod)
    as [j0 [final [temp [w [Hj0 [Hfinal [Htemp [Hpid Hm1]]]]]]]].
  cbv zeta in Hm1. rewrite Hj in Hj0. inversion Hj0; subst j0.
  unfold session_shape, progress_in_range in Hs; rewrite Hj in Hs.
  destruct Hm1 as [[Hneg ->]|[[Hneg ->]|[-> [fd [pid ->]]]]].
  - split; [lia|]. intros _ j1 Hj1. fields. rewrite Hj in Hj1.
    inversion Hj1; subst j1. shape_leaf.
  - split; [lia|]. intros _ j1 Hj1. fields. inversion Hj1; subst j1.
    shape_leaf.
  - split; [|lia]. intros _. shape_leaf.
Qed.

(** What [parse_ancestry] hands back: at least one and at most
    [LAYERS_MAX] ids, all valid, no two equal. *)
Lemma parse_ancestry_result body l :
  parse_ancestry body = Some (inr l) ->
  l <> [] /\ NoDup l /\ forallb dkr_id_is_valid l = true
  /\ 0 < strv_length l <= LAYERS_MAX.
Proof.
  intro H. pose proof (parse_ancestry_nonempty _ _ H) as Hne.
  apply parse_ancestry_accepts in H.
  destruct H as [_ [_ [ids [tr [_ [Hv [_ [Hnd [Hlen ->]]]]]]]]].
  split; [exact Hne|]. split; [apply NoDup_rev; exact Hnd|].
  split.
  - apply forallb_forall. intros x Hx. apply in_rev in Hx.
    exact (proj1 (forallb_forall _ _) Hv x Hx).
  - unfold strv_length in *. rewrite length_rev.
    split; [|exact Hlen].
    destruct ids; [contradiction Hne; reflexivity | simpl; lia].
Qed.

Lemma parse_id_valid body s :
  parse_id body = inr s -> dkr_id_is_valid s = true.
Proof.
  unfold parse_id. intro H.
  destruct (String.length body <=? 0)%nat; [discriminate|].
  destruct (memchr_nul body); [discriminate|].
  destruct (json_tokenize body json_state_null) as [t|[[t p] js]];
    [discriminate|].
  destruct t; try discriminate.
  destruct (json_tokenize p js) as [t2|[[t2 p2] js2]]; [discriminate|].
  destruct t2; try discriminate.
  destruct (dkr_id_is_valid str) eqn:Hv; [|discriminate].
  inversion H; subst. exact Hv.
Qed.

(** [dkr_import_pull_layer] keeps the shape of the session. *)
Lemma pull_layer_shape m r m3 :
  session_shape m -> response_registries (session m) <> [] ->
  dkr_import_pull_layer m = Some (r, m3) ->
  session_shape m3.
Proof.
  intros Hs Hreg H.
  destruct (pull_layer_cases _ _ _ H) as [Hl [Ht [Hf _]]].
  assert (0 <= current_ancestry (session m)
          <= strv_length (ancestry (session m))) as Hc.
  { unfold session_shape, ancestry_well_formed in Hs. split_hyps. lia. }
  destruct (pull_layer_outcome m Hl Ht Hf Hc Hreg)
    as [r' [m' [c [Heq [Hb [_ Hcases]]]]]].
  rewrite Heq in H. inversion H; subst r' m'. clear H Heq.
  assert (n_ancestry (session m) = strv_length (ancestry (session m)))
    as Hn by (unfold session_shape, ancestry_well_formed in Hs;
              split_hyps; assumption).
  destruct Hcases
    as [[Hend [-> ->]]
       |[[layer [Hnth [_ [_ [_ ->]]]]]
        |[layer [registry [rest Hm]]]]].
  - shape_leaf.
  - shape_leaf.
  - cbv zeta in Hm. destruct Hm as [Hnth [_ [_ [_ ->]]]].
    assert (c < strv_length (ancestry (session m))) as Hlt.
    { unfold strv_length.
      assert (Z.to_nat c < List.length (ancestry (session m)))%nat
        by (apply nth_error_Some; congruence).
      lia. }
    shape_leaf.
Qed.

Lemma exit_holds_if (P : Machine -> Prop) (c : bool) r m :
  P m -> P (finish r m) ->
  exit_holds P (if c then GotoFinish r m else FallThrough m).
Proof. intros H1 H2. destruct c; assumption. Qed.

Lemma session_shape_finish r m : session_shape m -> session_shape (finish r m).
Proof. intro H. exact H. Qed.

Lemma session_shape_branch w0 m which j body b :
  reachable w0 m -> completed m = [] -> session_shape m ->
  job_of which (session m) = Some j -> job_finished j = false ->
  on_finished_branch which (job_ended_well body j)
    (with_job which (job_ended_well body j) m) = Some b ->
  exit_holds session_shape b.
Proof.
  intros Hr Hc Hs Hj Hfin Hb.
  pose proof (reachable_invariant _ _ Hr) as Hinv.
  pose proof (job_done_unfinished _ Hfin) as Hnd.
  assert (session_shape (with_job which (job_ended_well body j) m)) as Hs1.
  { destruct which; cbn [job_of] in Hj;
      unfold session_shape, progress_in_range in Hs; rewrite Hj in Hs;
      shape_leaf. }
  destruct which; cbn [on_finished_branch job_of] in Hb, Hj.
  - destruct (on_finished_images_cases _ _ Hb)
      as [Ht [Ha [Hjs [Hl [[Hreg ->]|[registry [rest Hm]]]]]]].
    + exact Hs1.
    + cbv zeta in Hm. destruct Hm as [Hreg ->].
      apply exit_holds_if; [|apply session_shape_finish];
        unfold with_job in *; fields; shape_leaf.
  - destruct (on_finished_tags_cases _ _ _ Hb)
      as [Ha [Hjs [Hl [[r [_ ->]]|[new_id [registry [rest Hm]]]]]]].
    + exact Hs1.
    + cbv zeta in Hm. destruct Hm as [Hid [Hreg ->]].
      change (payload (job_ended_well body j)) with body in Hid.
      apply parse_id_valid in Hid.
      assert (ancestry (session m) = []) as Hanc.
      { unfold session_shape in Hs. split_hyps.
        unfold with_job in Ha. fields. rewrite Ha in *. auto. }
      assert (forall r1 r2 : Z, forall c1 c2 : bool, forall m2 m3,
                 session_shape m2 -> session_shape m3 ->
                 exit_holds session_shape
                   (if c1 then GotoFinish r1 m2
                    else if c2 then GotoFinish r2 m3 else FallThrough m3))
        as Hexit by (intros r1 r2 [|] [|] m2 m3 H2 H3; assumption).
      apply Hexit; unfold with_job in *; fields; shape_leaf.
  - destruct (on_finished_ancestry_cases _ _ _ Hb)
      as [Hl [[r [_ ->]]|[[l [_ [_ ->]]]|[l [r [m3 Hm]]]]]].
    + exact Hs1.
    + exact Hs1.
    + destruct Hm as [Hparse [Hne [Hlast [Hpl ->]]]].
      change (payload (job_ended_well body j)) with body in Hparse.
      destruct (parse_ancestry_result _ _ Hparse) as [_ [Hnd2 [Hv Hlen]]].
      assert (session_shape m3) as Hs3.
      { eapply pull_layer_shape; [| |exact Hpl].
        - unfold with_job in *. fields. shape_leaf.
        - unfold with_job in *. fields.
          destruct Hinv as [_ [_ [Htag _]]]. rewrite Hj in Htag.
          unfold session_shape in Hs. split_hyps.
          assert (tags_job (session m) <> None) as Htj.
          { apply job_done_some. apply Htag. discriminate. }
          unfold with_ancestry. fields. auto. }
      destruct (r <? 0); exact Hs3.
  - inversion Hb; subst b. exact Hs1.
  - destruct (on_finished_layer_cases _ _ _ Hb)
      as [temp [final [i1 [Htemp [Hfinal [Hi1 [[r [w ->]]|[w [r [m3 Hm]]]]]]]]]].
    + unfold with_job in *. fields.
      destruct Hi1 as [[Hpid ->]| ->]; shape_leaf.
    + destruct Hm as [Hpl ->].
      assert (session_shape m3) as Hs3.
      { eapply pull_layer_shape; [| |exact Hpl].
        - unfold with_job in *. fields.
          destruct Hi1 as [[Hpid ->]| ->]; shape_leaf.
        - unfold with_job in *. fields.
          assert (tags_job (session m) <> None) as Htj.
          { destruct Hinv as [_ [_ [Htag [Hns _]]]].
            destruct (job_done (ancestry_job (session m))) eqn:Hd.
            - apply job_done_some. apply Htag. apply job_done_some.
              exact Hd.
            - destruct (Hns eq_refl) as [Hnone _]. congruence. }
          unfold session_shape in Hs. split_hyps.
          destruct Hi1 as [[Hpid ->]| ->]; unfold layer_released; fields; auto. }
      destruct (r <? 0); exact Hs3.
Qed.

Lemma session_shape_tail w0 m m' :
  pull_invariant w0 m -> completed m = [] -> session_shape m ->
  on_finished_tail m = Some m' -> session_shape m'.
Proof.
  intros _ _ Hs H.
  destruct (on_finished_tail_cases _ _ H)
    as [[_ ->]|[_ [r [m2 [Hcopy ->]]]]]; [exact Hs|].
  destruct (make_local_copy_cases _ _ _ Hcopy)
    as [[_ [_ ->]]|[loc [final [w [_ [_ ->]]]]]]; shape_leaf.
Qed.

(** Every state of a pull has the shape [session_shape]. *)
Lemma reachable_shape w0 m : reachable w0 m -> session_shape m.
Proof.
  apply pull_induction.
  - apply session_shape_start.
  - apply session_shape_header.
  - apply session_shape_progress.
  - apply session_shape_open_disk.
  - apply session_shape_failed.
  - apply session_shape_branch.
  - apply session_shape_tail.
Qed.

Lemma parse_ancestry_total body : exists r, parse_ancestry body = Some r.
Proof.
  unfold parse_ancestry.
  destruct (String.length body <=? 0)%nat; [eexists; reflexivity|].
  destruct (memchr_nul body); [eexists; reflexivity|].
  apply parse_ancestry_loop_begin_total.
Qed.

(** ** The assertions of the callbacks hold *)

Lemma on_finished_tail_returns m :
  images_job (session m) <> None -> exists m', on_finished_tail m = Some m'.
Proof.
  unfold on_finished_tail, dkr_import_is_done. intro Hi.
  destruct (images_job (session m)); [|contradiction]. cbv beta iota.
  match goal with
  | |- exists _, (if ?c then _ else _) = _ => destruct c
  end; [|eexists; reflexivity].
  destruct (dkr_import_make_local_copy _) as [r m2].
  destruct (r <? 0); eexists; reflexivity.
Qed.

Lemma on_finished_images_returns m :
  tags_job (session m) = None -> ancestry_job (session m) = None ->
  json_job (session m) = None -> layer_job (session m) = None ->
  exists b, on_finished_images m = Some b.
Proof.
  unfold on_finished_images, begin_job. intros -> -> -> ->.
  destruct (response_registries (session m)); [eexists; reflexivity|].
  destruct (import_job_begin _ <? 0); eexists; reflexivity.
Qed.

Lemma on_finished_tags_returns j m :
  ancestry_job (session m) = None -> json_job (session m) = None ->
  layer_job (session m) = None -> response_registries (session m) <> [] ->
  exists b, on_finished_tags j m = Some b.
Proof.
  unfold on_finished_tags, begin_job. intros -> -> -> Hreg.
  destruct (parse_id (payload j)); [eexists; reflexivity|].
  fields.
  destruct (response_registries (session m)); [contradiction|].
  destruct (import_job_begin _ <? 0); [eexists; reflexivity|].
  destruct (import_job_begin _ <? 0); eexists; reflexivity.
Qed.

Lemma on_finished_ancestry_returns j m :
  layer_job (session m) = None -> temp_path (session m) = None ->
  final_path (session m) = None -> response_registries (session m) <> [] ->
  exists b, on_finished_ancestry j m = Some b.
Proof.
  unfold on_finished_ancestry. intros Hl Ht Hf Hreg. rewrite Hl.
  destruct (parse_ancestry_total (payload j)) as [[r|l] ->];
    [eexists; reflexivity|].
  destruct ((strv_length l <=? 0) || _); [eexists; reflexivity|].
  destruct (pull_layer_outcome
              (dkr_import_report_progress DKR_DOWNLOADING
                 (set_session
                    (set_current_ancestry 0
                       (set_n_ancestry (strv_length l)
                          (set_ancestry l (session m)))) m)))
    as [r [m3 [c [Heq _]]]]; fields; try assumption.
  - pose proof (strv_length_nonneg l). lia.
  - rewrite Heq. destruct (r <? 0); eexists; reflexivity.
Qed.

Lemma on_finished_layer_returns j m :
  temp_path (session m) <> None -> final_path (session m) <> None ->
  0 <= current_ancestry (session m) ->
  current_ancestry (session m) + 1 <= strv_length (ancestry (session m)) ->
  response_registries (session m) <> [] ->
  exists b, on_finished_layer j m = Some b.
Proof.
  unfold on_finished_layer. intros Ht Hf Hc0 Hc1 Hreg.
  destruct (temp_path (session m)) as [temp|]; [|contradiction].
  destruct (final_path (session m)) as [final|]; [|contradiction].
  assert (forall i1 w,
             current_ancestry i1 = current_ancestry (session m) ->
             ancestry i1 = ancestry (session m) ->
             response_registries i1 = response_registries (session m) ->
             exists r m3,
               dkr_import_pull_layer
                 (set_live_layer_jobs (Nat.pred (live_layer_jobs m))
                    (set_world w
                       (set_session
                          (set_current_ancestry
                             (current_ancestry
                                (set_final_path None
                                   (set_temp_path None
                                      (set_layer_job None i1))) + 1)
                             (set_final_path None
                                (set_temp_path None (set_layer_job None i1))))
                          m)))
               = Some (r, m3)) as Hpl.
  { intros i1 w H1 H2 H3.
    destruct (pull_layer_outcome
                (set_live_layer_jobs (Nat.pred (live_layer_jobs m))
                   (set_world w
                      (set_session
                         (set_current_ancestry
                            (current_ancestry
                               (set_final_path None
                                  (set_temp_path None
                                     (set_layer_job None i1))) + 1)
                            (set_final_path None
                               (set_temp_path None (set_layer_job None i1))))
                         m))))
      as [r [m3 [c [Heq _]]]]; fields; try reflexivity.
    - rewrite H1, H2. lia.
    - rewrite H3. exact Hreg.
    - exists r, m3. exact Heq. }
  destruct (0 <? tar_pid _);
    [destruct (wait_for_terminate_and_warn _ _) as [r1 w1]|];
    cbv beta iota zeta;
    (destruct (_ <? 0); [eexists; reflexivity|]);
    (destruct (aufs_resolve _ _) as [r2 w2]);
    (destruct (r2 <? 0); [eexists; reflexivity|]);
    (destruct (btrfs_subvol_set_read_only _ _ _) as [r3 w3]);
    (destruct (r3 <? 0); [eexists; reflexivity|]);
    (destruct (rename _ _ _) as [e w4]);
    (destruct (e <? 0); [eexists; reflexivity|]);
    match goal with
    | |- context [dkr_import_pull_layer
                    (set_live_layer_jobs _ (set_world ?w (set_session
                       (set_current_ancestry _ (set_final_path None
                          (set_temp_path None (set_layer_job None ?i1)))) _)))]
      => destruct (Hpl i1 w) as [r [m3 Heq]];
         [reflexivity | reflexivity | reflexivity |]
    end;
    rewrite Heq; destruct (r <? 0); eexists; reflexivity.
Qed.

(** In a running pull, the jobs that exist beside a job that has not
    ended: none after the images job, none after the tags job, no layer
    job and no path beside the ancestry job. *)
Lemma later_jobs_absent w0 m :
  reachable w0 m ->
  (job_done (images_job (session m)) = false ->
   tags_job (session m) = None)
  /\ (job_done (tags_job (session m)) = false ->
      ancestry_job (session m) = None /\ json_job (session m) = None)
  /\ (job_done (ancestry_job (session m)) = false ->
      layer_job (session m) = None /\ temp_path (session m) = None
      /\ final_path (session m) = None)
  /\ (tags_job (session m) = None -> job_done (tags_job (session m)) = false)
  /\ (ancestry_job (session m) = None ->
      job_done (ancestry_job (session m)) = false).
Proof.
  intro Hr. pose proof (reachable_shape _ _ Hr) as Hs.
  destruct (reachable_invariant _ _ Hr) as [_ [Himg [Htag [Hns _]]]].
  shape_parts Hs.
  split.
  { intro Hd. destruct (tags_job (session m)); [|reflexivity].
    rewrite Himg in Hd; [discriminate | discriminate]. }
  split.
  { intro Hd.
    assert (ancestry_job (session m) = None) as Ha.
    { destruct (ancestry_job (session m)); [|reflexivity].
      rewrite Htag in Hd; [discriminate | discriminate]. }
    split; [exact Ha|].
    destruct (json_job (session m)); [|reflexivity].
    exfalso. apply Shja; [discriminate | exact Ha]. }
  split.
  { intro Hd. destruct (Hns Hd) as [Hl [Ht [Hf _]]].
    repeat split; assumption. }
  split; intros ->; reflexivity.
Qed.

(** A job that has not ended and ends with an error ends the pull with
    that error. *)
Lemma import_job_finish_failed which ret body m j :
  job_of which (session m) = Some j -> job_finished j = false -> ret <> 0 ->
  import_job_finish which ret body m
  = Some (finish ret (with_job which (job_ended_badly ret j) m)).
Proof.
  intros Hj Hfin Hret. unfold import_job_finish. rewrite Hj, Hfin.
  apply Z.eqb_neq in Hret. rewrite Hret.
  unfold dkr_import_job_on_finished.
  cbn [session set_session]. rewrite job_of_set_job.
  cbn [error job_set_error]. rewrite Hret. reflexivity.
Qed.

Lemma import_job_finish_returns w0 m which j ret body :
  reachable w0 m -> completed m = [] ->
  job_of which (session m) = Some j -> job_finished j = false ->
  (which = LAYER -> ret = 0 -> temp_path (session m) <> None) ->
  exists m', import_job_finish which ret body m = Some m'.
Proof.
  intros Hr Hc Hj Hfin Htemp.
  destruct (Z.eq_dec ret 0) as [->|Hret].
  - unfold import_job_finish. rewrite Hj, Hfin. cbn [Z.eqb].
    change (job_set_error 0
              (job_set_payload body (job_set_state IMPORT_JOB_DONE j)))
      with (job_ended_well body j).
    change (set_session
              (set_job which (Some (job_ended_well body j)) (session m)) m)
      with (with_job which (job_ended_well body j) m).
    unfold dkr_import_job_on_finished.
    assert (job_of which (session (with_job which (job_ended_well body j) m))
            = Some (job_ended_well body j)) as Hj1
      by (unfold with_job; cbn [session set_session]; apply job_of_set_job).
    rewrite Hj1.
    change (error (job_ended_well body j)) with 0. cbn [Z.eqb negb].
    assert (exists b,
               on_finished_branch which (job_ended_well body j)
                 (with_job which (job_ended_well body j) m) = Some b)
      as [b Hb].
    { pose proof (reachable_shape _ _ Hr) as Hs.
      destruct (later_jobs_absent _ _ Hr) as [Hi [Ht [Ha [Htn Han]]]].
      pose proof (job_done_unfinished _ Hfin) as Hnd.
      shape_parts Hs.
      destruct which; cbn [job_of] in Hj; cbn [on_finished_branch].
      - rewrite Hj in Hi. specialize (Hi Hnd).
        destruct (Ht (Htn Hi)) as [Hanc Hjs].
        destruct (Ha (Han Hanc)) as [Hl _].
        apply on_finished_images_returns; unfold with_job; fields;
          assumption.
      - rewrite Hj in Ht. destruct (Ht Hnd) as [Hanc Hjs].
        destruct (Ha (Han Hanc)) as [Hl _].
        apply on_finished_tags_returns; unfold with_job; fields;
          try assumption.
        apply Shregs. rewrite Hj. discriminate.
      - rewrite Hj in Ha. destruct (Ha Hnd) as [Hl [Htp Hfp]].
        apply on_finished_ancestry_returns; unfold with_job; fields;
          try assumption.
        apply Shregs. destruct (tags_job (session m)); [discriminate|].
        destruct (Ht eq_refl) as [Hanc _]. congruence.
      - eexists. reflexivity.
      - assert (layer_job (session m) <> None) as Hl
          by (rewrite Hj; discriminate).
        apply on_finished_layer_returns; unfold with_job; fields;
          try (apply Htemp; reflexivity); auto.
        + specialize (Shcur Hl). lia.
        + apply Shregs. destruct (tags_job (session m)); [discriminate|].
          destruct (Ht eq_refl) as [Hanc _].
          destruct (Ha (Han Hanc)) as [Hl2 _]. congruence. }
    rewrite Hb.
    pose proof (on_finished_branch_invariant w0 which j body m b
                  (reachable_invariant _ _ Hr) Hc Hj Hfin Hb) as Hinv.
    destruct b as [m2|r m2]; [|eexists; reflexivity].
    destruct Hinv as [[Himg _] _].
    apply on_finished_tail_returns. exact Himg.
  - eexists. apply import_job_finish_failed; eassumption.
Qed.

(** X6.  In a pull that has not ended, the callback of every event the jobs
    can raise returns: no assertion of the file fails, no registry is
    read from an empty vector, and the loops end.  The events are the
    ones a job raises: a header or progress of a job that has not ended,
    the first body byte of a layer job whose disk is not yet open, the
    end of a job that has not ended; a layer job ends well only after
    its disk was opened. *)
Theorem callbacks_keep_their_assertions (w0 : World) (m : Machine) :
  reachable w0 m -> completed m = [] ->
  (forall header j,
      images_job (session m) = Some j -> job_finished j = false ->
      exists m', deliver (EvHeader header) m = Some m')
  /\ (forall which j percent,
        job_of which (session m) = Some j -> job_finished j = false ->
        progress_percent j <= percent <= 100 ->
        exists m', deliver (EvProgress which percent) m = Some m')
  /\ (forall j,
        layer_job (session m) = Some j -> job_finished j = false ->
        temp_path (session m) = None ->
        exists m', deliver EvOpenDisk m = Some m')
  /\ (forall which j ret body,
        job_of which (session m) = Some j -> job_finished j = false ->
        (which = LAYER -> ret = 0 -> temp_path (session m) <> None) ->
        exists m', deliver (EvFinished which ret body) m = Some m').
Proof.
  intros Hr Hc. unfold deliver. rewrite Hc.
  split; [|split; [|split]].
  - intros header j Hj Hfin. rewrite Hj, Hfin.
    destruct (dkr_import_job_on_header header (session m)) as [r i'] eqn:Hh.
    destruct (on_header_cases _ _ _ _ Hh)
      as [[-> ->]|[[-> ->]|[[-> _]|[-> _]]]];
      try (cbn [Z.ltb Z.compare]; eexists; reflexivity).
    change (- EBADMSG <? 0) with true. cbv iota.
    rewrite set_session_same.
    apply (import_job_finish_returns w0 m IMAGES j); try assumption.
    discriminate.
  - intros which j percent Hj Hfin [H1 H2]. rewrite Hj, Hfin.
    apply Z.leb_le in H1. apply Z.leb_le in H2. rewrite H1, H2.
    eexists. reflexivity.
  - intros j Hj Hfin Htemp. rewrite Hj, Hfin.
    pose proof (reachable_shape _ _ Hr) as Hs.
    destruct (reachable_invariant _ _ Hr) as [_ [_ [_ [_ Hex]]]].
    destruct (Hex Hc) as [[Hpid _] _].
    shape_parts Hs.
    assert (final_path (session m) <> None) as Hfp
      by (apply Shfinal; rewrite Hj; discriminate).
    assert (tar_pid (session m) <= 0) as Hle.
    { destruct (Z.ltb_spec 0 (tar_pid (session m))) as [Hlt|Hge]; [|lia].
      exfalso. apply (Shpidt Hlt). exact Htemp. }
    unfold dkr_import_job_on_open_disk. rewrite Hj, Htemp.
    destruct (final_path (session m)) as [final|]; [|contradiction].
    apply Z.ltb_ge in Hle. rewrite Hle.
    destruct (match dkr_import_current_base_layer _ with
              | Some base => _
              | None => _
              end) as [r1 w1].
    destruct (r1 <? 0) eqn:Hneg.
    + cbv beta iota. rewrite Hneg. apply Z.ltb_lt in Hneg.
      eexists. apply import_job_finish_failed with (j := j);
        [exact Hj | exact Hfin | lia].
    + destruct (import_fork_tar w1 _) as [[e|[fd pid]] w2];
        cbv beta iota; cbn [Z.ltb Z.compare]; [|eexists; reflexivity].
      eexists.
      apply import_job_finish_failed
        with (j := job_set_disk_fd (Z.neg e) j);
        [reflexivity | exact Hfin | discriminate].
  - intros which j ret body Hj Hfin Htemp.
    exact (import_job_finish_returns w0 m which j ret body Hr Hc Hj Hfin
             Htemp).
Qed.

(** ** The progress sent *)

Lemma progress_value_bounded m p :
  session_shape m -> 0 <= progress_value (session m) p <= 95.
Proof.
  intro Hs. unfold session_shape, ancestry_well_formed in Hs. split_hyps.
  destruct (progress_value_bands (session m)) as [? [? [? [? ?]]]];
    try assumption.
  - intros []; assumption.
  - split; assumption.
  - destruct p; lia.
Qed.

Lemma progress_value_set_id s i p :
  progress_value (set_id s i) p = progress_value i p.
Proof. destruct i; reflexivity. Qed.

Lemma progress_value_download_start i :
  layer_job i = None -> current_ancestry i = 0 ->
  progress_value i DKR_DOWNLOADING = 20.
Proof.
  intros Hl Hc. unfold progress_value. rewrite Hl, Hc.
  rewrite Z.mul_0_r. change (u32 0) with 0. rewrite Z.div_0_l; [reflexivity|].
  lia.
Qed.

Lemma session_shape_job_ended which j body m :
  session_shape m -> job_of which (session m) = Some j ->
  session_shape (with_job which (job_ended_well body j) m).
Proof.
  intros Hs Hj.
  destruct which; cbn [job_of] in Hj;
    unfold session_shape, progress_in_range in Hs; rewrite Hj in Hs;
    shape_leaf.
Qed.

Lemma notified_in_range_add m p :
  notified_in_range m -> 0 <= p <= 95 ->
  notified_in_range (add_notified p m).
Proof.
  unfold notified_in_range. intros H Hp. cbn [notified add_notified].
  apply Forall_app. split; [exact H|]. constructor; [exact Hp | constructor].
Qed.

(** [dkr_import_pull_layer] sends no progress. *)
Lemma pull_layer_notified m r m3 :
  dkr_import_pull_layer m = Some (r, m3) -> notified m3 = notified m.
Proof.
  intro H. destruct (pull_layer_cases _ _ _ H)
    as [_ [_ [_ [c [_ [->|[layer [registry Hm]]]]]]]]; [reflexivity|].
  cbv zeta in Hm. destruct Hm as [_ [_ ->]]. reflexivity.
Qed.

Lemma notified_in_range_branch w0 m which j body b :
  reachable w0 m -> completed m = [] -> notified_in_range m ->
  job_of which (session m) = Some j -> job_finished j = false ->
  on_finished_branch which (job_ended_well body j)
    (with_job which (job_ended_well body j) m) = Some b ->
  exit_holds notified_in_range b.
Proof.
  intros Hr Hc Hn Hj Hfin Hb.
  pose proof (session_shape_job_ended which j body m
                (reachable_shape _ _ Hr) Hj) as Hs1.
  assert (notified_in_range (with_job which (job_ended_well body j) m))
    as Hn1 by exact Hn.
  destruct which; cbn [on_finished_branch] in Hb.
  - destruct (on_finished_images_cases _ _ Hb)
      as [_ [_ [_ [_ [[_ ->]|[registry [rest Hm]]]]]]]; [exact Hn1|].
    cbv zeta in Hm. destruct Hm as [_ ->].
    apply exit_holds_if;
      apply (notified_in_range_add _ _ Hn1 (progress_value_bounded _ _ Hs1)).
  - destruct (on_finished_tags_cases _ _ _ Hb)
      as [_ [_ [_ [[r [_ ->]]|[new_id [registry [rest Hm]]]]]]]; [exact Hn1|].
    cbv zeta in Hm. destruct Hm as [_ [_ ->]].
    pose proof (notified_in_range_add _ (progress_value
                  (set_id new_id
                     (session (with_job TAGS (job_ended_well body j) m)))
                  DKR_METADATA) Hn1) as Hadd.
    rewrite progress_value_set_id in Hadd.
    specialize (Hadd (progress_value_bounded _ _ Hs1)).
    rewrite <- (progress_value_set_id new_id) in Hadd.
    destruct (import_job_begin _ <? 0);
      [|destruct (import_job_begin _ <? 0)]; exact Hadd.
  - destruct (on_finished_ancestry_cases _ _ _ Hb)
      as [Hl [[r [_ ->]]|[[l [_ [_ ->]]]|[l [r [m3 Hm]]]]]];
      [exact Hn1 | exact Hn1 |].
    destruct Hm as [_ [_ [_ [Hpl ->]]]].
    apply pull_layer_notified in Hpl.
    assert (notified_in_range m3) as Hn3.
    { unfold notified_in_range. rewrite Hpl.
      cbn [notified dkr_import_report_progress add_notified session
           set_session].
      rewrite progress_value_download_start;
        [|unfold with_ancestry; destruct (session (with_job _ _ m));
          exact Hl
         |unfold with_ancestry; destruct (session (with_job _ _ m));
          reflexivity].
      apply Forall_app. split; [exact Hn1|].
      constructor; [lia | constructor]. }
    destruct (r <? 0); exact Hn3.
  - inversion Hb. exact Hn1.
  - destruct (on_finished_layer_cases _ _ _ Hb)
      as [temp [final [i1 [_ [_ [_ [[r [w ->]]|[w [r [m3 Hm]]]]]]]]]];
      [exact Hn1|].
    destruct Hm as [Hpl ->]. apply pull_layer_notified in Hpl.
    assert (notified_in_range m3) as Hn3
      by (unfold notified_in_range; rewrite Hpl; exact Hn1).
    destruct (r <? 0); exact Hn3.
Qed.

Lemma reachable_notified_in_range w0 m :
  reachable w0 m -> notified_in_range m.
Proof.
  apply pull_induction.
  - intros event url_arg root i name_arg tag_arg local_arg force r m0 Hnew Hpull
      Hr.
    unfold notified_in_range.
    assert (notified m0 = []) as ->; [|constructor].
    unfold dkr_import_pull, begin_job in Hpull.
    repeat (break_match_hyp Hpull; [inversion Hpull; reflexivity|]).
    inversion Hpull. reflexivity.
  - intros m0 j i' _ _ Hn _ _ _. exact Hn.
  - intros m0 which j percent Hr Hc Hn Hj Hfin Hp.
    pose proof (session_shape_progress w0 m0 which j percent Hr Hc
                  (reachable_shape _ _ Hr) Hj Hfin Hp) as Hs.
    unfold dkr_import_job_on_progress, dkr_import_report_progress in *.
    apply notified_in_range_add; [exact Hn|].
    exact (progress_value_bounded _ _ Hs).
  - intros m0 j r m1 _ _ Hn _ _ Hod.
    destruct (on_open_disk_cases _ _ _ Hod)
      as [j0 [final [temp [w [_ [_ [_ [_ Hm1]]]]]]]].
    cbv zeta in Hm1.
    destruct Hm1 as [[_ ->]|[[_ ->]|[_ [fd [pid ->]]]]];
      (split; [intros _; exact Hn | intros _ j1 _; exact Hn]).
  - intros m0 which j ret _ _ Hn _ _ _. exact Hn.
  - apply notified_in_range_branch.
  - intros m0 m' _ _ Hn H.
    destruct (on_finished_tail_cases _ _ H)
      as [[_ ->]|[_ [r [m2 [Hcopy ->]]]]]; [exact Hn|].
    assert (notified_in_range (dkr_import_report_progress DKR_COPYING m0))
      as Hn1.
    { apply notified_in_range_add; [exact Hn|].
      unfold progress_value. lia. }
    destruct (make_local_copy_cases _ _ _ Hcopy)
      as [[_ [_ ->]]|[loc [final [w [_ [_ ->]]]]]]; exact Hn1.
Qed.

(** ** The order of the requests *)

Lemma request_kinds_add s u m :
  request_kinds (add_request s u m) = request_kinds m ++ [s].
Proof.
  unfold request_kinds, add_request. cbn [requests].
  rewrite map_app. reflexivity.
Qed.

Lemma repeat_snoc {A} (x : A) n : repeat x n ++ [x] = repeat x (S n).
Proof. rewrite <- repeat_cons. reflexivity. Qed.

(** [dkr_import_pull_layer] issues no request or one layer request. *)
Lemma pull_layer_kinds m r m3 :
  dkr_import_pull_layer m = Some (r, m3) ->
  tags_job (session m3) = tags_job (session m)
  /\ ancestry_job (session m3) = ancestry_job (session m)
  /\ completed m3 = completed m
  /\ (request_kinds m3 = request_kinds m
      \/ request_kinds m3 = request_kinds m ++ [LAYER]).
Proof.
  intro H. destruct (pull_layer_cases _ _ _ H)
    as [_ [_ [_ [c [_ [->|[layer [registry Hm]]]]]]]].
  - repeat split. left. reflexivity.
  - cbv zeta in Hm. destruct Hm as [_ [_ ->]]. repeat split.
    right. rewrite request_kinds_add. reflexivity.
Qed.

Lemma requests_in_order_layers m m3 :
  requests_in_order m -> completed m = [] ->
  ancestry_job (session m) <> None ->
  tags_job (session m3) = tags_job (session m) ->
  ancestry_job (session m3) = ancestry_job (session m) ->
  (request_kinds m3 = request_kinds m
   \/ request_kinds m3 = request_kinds m ++ [LAYER]) ->
  forall c, completed m3 = c -> requests_in_order m3.
Proof.
  intros [H1 [H2 H3]] Hc Ha Ht3 Ha3 Hk c _.
  assert (tags_job (session m) <> None) as Ht.
  { intro Hn. specialize (H1 Hn).
    destruct (H3 Ha) as [[Hk3 _]|[n Hk3]]; rewrite Hk3 in H1;
      discriminate. }
  destruct (H3 Ha) as [[_ Hcc]|[n Hn]]; [contradiction|].
  unfold requests_in_order. rewrite Ht3, Ha3.
  split; [intro; contradiction|]. split; [intros _ Hx; contradiction|].
  intros _. right.
  destruct Hk as [->| ->]; rewrite Hn.
  - exists n. reflexivity.
  - exists (S n). rewrite <- app_assoc, repeat_snoc. reflexivity.
Qed.

Lemma requests_in_order_frame m m' :
  requests_in_order m ->
  (tags_job (session m') = None <-> tags_job (session m) = None) ->
  (ancestry_job (session m') = None <-> ancestry_job (session m) = None) ->
  request_kinds m' = request_kinds m ->
  (completed m <> [] -> completed m' <> []) ->
  requests_in_order m'.
Proof.
  unfold requests_in_order. intros [H1 [H2 H3]] Ht Ha -> Hc.
  split; [intro H; apply H1, Ht, H|].
  split.
  - intros Hn Han. apply H2; [|apply Ha, Han].
    intro Hx. apply Hn, Ht, Hx.
  - intro Han.
    destruct H3 as [[Hk Hcc]|Hk].
    + intro Hx. apply Han, Ha, Hx.
    + left. split; [exact Hk | apply Hc, Hcc].
    + right. exact Hk.
Qed.

Lemma exit_holds_if2 (P : Machine -> Prop) (c1 c2 : bool) r1 r2 m2 m3 :
  P (finish r1 m2) -> P (finish r2 m3) -> P m3 ->
  exit_holds P
    (if c1 then GotoFinish r1 m2
     else if c2 then GotoFinish r2 m3 else FallThrough m3).
Proof. intros H1 H2 H3. destruct c1; [|destruct c2]; assumption. Qed.

Lemma set_job_none_iff which j j' i (s : Slot) :
  job_of which i = Some j ->
  job_of s (set_job which (Some j') i) = None <-> job_of s i = None.
Proof.
  intro Hj. destruct which, s; cbn [job_of set_job] in *; fields;
    try tauto; rewrite Hj; split; discriminate.
Qed.

Lemma requests_in_order_with_job which j j' m :
  requests_in_order m -> job_of which (session m) = Some j ->
  requests_in_order (with_job which j' m).
Proof.
  intros H Hj. apply (requests_in_order_frame m); [exact H| | | |].
  - exact (set_job_none_iff which j j' (session m) TAGS Hj).
  - exact (set_job_none_iff which j j' (session m) ANCESTRY Hj).
  - reflexivity.
  - intro Hc. exact Hc.
Qed.

Lemma requests_in_order_finish r m :
  requests_in_order m -> requests_in_order (finish r m).
Proof.
  intro H. apply (requests_in_order_frame m); [exact H| | | |];
    try reflexivity.
  intros _. cbn [finish add_completed completed].
  destruct (completed m); discriminate.
Qed.

Lemma requests_in_order_branch w0 m which j body b :
  reachable w0 m -> completed m = [] -> requests_in_order m ->
  job_of which (session m) = Some j -> job_finished j = false ->
  on_finished_branch which (job_ended_well body j)
    (with_job which (job_ended_well body j) m) = Some b ->
  exit_holds requests_in_order b.
Proof.
  intros Hr Hc Ho Hj Hfin Hb.
  pose proof (requests_in_order_with_job which j (job_ended_well body j) m
                Ho Hj) as Ho1.
  assert (completed (with_job which (job_ended_well body j) m) = [])
    as Hc1 by exact Hc.
  destruct which; cbn [on_finished_branch] in Hb.
  - destruct (on_finished_images_cases _ _ Hb)
      as [Ht [Ha [_ [_ [[_ ->]|[registry [rest Hm]]]]]]].
    + apply requests_in_order_finish. exact Ho1.
    + cbv zeta in Hm. destruct Hm as [_ ->].
      destruct Ho1 as [H1 _]. specialize (H1 Ht).
      apply exit_holds_if; [|apply requests_in_order_finish];
        unfold requests_in_order; fields; rewrite request_kinds_add;
        unfold with_job in *; fields; unfold request_kinds in *; fields;
        rewrite H1;
        (split; [discriminate|]); (split; [reflexivity|]);
        intro Hx; rewrite Ha in Hx; contradiction.
  - destruct (on_finished_tags_cases _ _ _ Hb)
      as [Ha [_ [_ [[r [_ ->]]|[new_id [registry [rest Hm]]]]]]].
    + apply requests_in_order_finish. exact Ho1.
    + cbv zeta in Hm. destruct Hm as [_ [_ ->]].
      destruct Ho1 as [_ [H2 _]].
      assert (request_kinds (with_job TAGS (job_ended_well body j) m)
              = [IMAGES; TAGS]) as Hk
        by (apply H2; [unfold with_job; fields; discriminate | exact Ha]).
      unfold request_kinds in Hk.
      assert (tags_job (session (with_job TAGS (job_ended_well body j) m))
              <> None) as Ht1 by (unfold with_job; fields; discriminate).
      revert Hk Ht1 Hc1.
      generalize (with_job TAGS (job_ended_well body j) m). intros m1 Hk Ht1 Hc1.
      apply exit_holds_if2;
        unfold requests_in_order, request_kinds; fields;
        rewrite ?map_app, Hk;
        (split; [intro Hx; contradiction|]);
        (split; [intros _ Hx; discriminate|]); intros _.
      * left. split; [reflexivity|].
        destruct (completed m1); discriminate.
      * right. exists 0%nat. reflexivity.
      * right. exists 0%nat. reflexivity.
  - destruct (on_finished_ancestry_cases _ _ _ Hb)
      as [_ [[r [_ ->]]|[[l [_ [_ ->]]]|[l [r [m3 Hm]]]]]].
    + apply requests_in_order_finish. exact Ho1.
    + apply requests_in_order_finish. exact Ho1.
    + destruct Hm as [_ [_ [_ [Hpl ->]]]].
      destruct (pull_layer_kinds _ _ _ Hpl) as [Ht3 [Ha3 [Hc3 Hk3]]].
      assert (requests_in_order m3) as Ho3.
      { eapply (requests_in_order_layers
                  (with_job ANCESTRY (job_ended_well body j) m) m3);
          try eassumption; try reflexivity.
        unfold with_job. fields. discriminate. }
      destruct (r <? 0);
        [apply requests_in_order_finish|]; exact Ho3.
  - inversion Hb. exact Ho1.
  - destruct (on_finished_layer_cases _ _ _ Hb)
      as [temp [final [i1 [_ [_ [Hi1 [[r [w ->]]|[w [r [m3 Hm]]]]]]]]]].
    + apply requests_in_order_finish.
      apply (requests_in_order_frame
               (with_job LAYER (job_ended_well body j) m));
        [exact Ho1| | | |];
        try (destruct Hi1 as [[_ ->]| ->]; reflexivity).
      intro Hx. exact Hx.
    + destruct Hm as [Hpl ->].
      destruct (pull_layer_kinds _ _ _ Hpl) as [Ht3 [Ha3 [Hc3 Hk3]]].
      destruct (later_jobs_absent _ _ Hr) as [_ [_ [Hns [_ Han]]]].
      assert (ancestry_job (session m) <> None) as Hanc.
      { intro Hx. destruct (Hns (Han Hx)) as [Hl _].
        cbn [job_of] in Hj. congruence. }
      assert (requests_in_order m3) as Ho3.
      { eapply (requests_in_order_layers
                  (with_job LAYER (job_ended_well body j) m) m3);
          try eassumption; try reflexivity.
        - rewrite Ht3. destruct Hi1 as [[_ ->]| ->]; reflexivity.
        - rewrite Ha3. destruct Hi1 as [[_ ->]| ->]; reflexivity. }
      destruct (r <? 0);
        [apply requests_in_order_finish|]; exact Ho3.
Qed.

(** In every state of a pull the requests are in the order of
    [requests_in_order]. *)
Lemma reachable_requests_in_order w0 m :
  reachable w0 m -> requests_in_order m.
Proof.
  apply pull_induction.
  - intros event url_arg root i name_arg tag_arg local_arg force r m0 Hnew Hpull
      Hr.
    apply dkr_import_new_session in Hnew. destruct Hnew as [_ [_ [_ ->]]].
    unfold dkr_import_pull, machine_of in Hpull. fields.
    repeat (break_match_hyp Hpull;
            [inversion Hpull; subst; unfold EINVAL in Hr; lia|]).
    unfold begin_job in Hpull. inversion Hpull; subst.
    unfold requests_in_order, request_kinds. fields.
    split; [reflexivity|]. split; intro Hx; contradiction.
  - intros m0 j i' _ _ Ho _ _ Hi.
    apply (requests_in_order_frame m0); [exact Ho| | | |];
      try (destruct Hi as [[t ->]|[l [_ ->]]]; reflexivity).
    intro Hx. exact Hx.
  - intros m0 which j percent _ _ Ho Hj _ _.
    exact (requests_in_order_with_job which j _ m0 Ho Hj).
  - intros m0 j r m1 _ _ Ho Hj _ Hod.
    destruct (on_open_disk_cases _ _ _ Hod)
      as [j0 [final [temp [w [Hj0 [_ [_ [_ Hm1]]]]]]]].
    cbv zeta in Hm1.
    assert (requests_in_order m1) as Ho1.
    { apply (requests_in_order_frame m0); [exact Ho| | | |];
        try (destruct Hm1 as [[_ ->]|[[_ ->]|[_ [fd [pid ->]]]]];
             reflexivity).
      destruct Hm1 as [[_ ->]|[[_ ->]|[_ [fd [pid ->]]]]]; intro Hx;
        exact Hx. }
    split; [intros _; exact Ho1|].
    intros _ j1 Hj1. apply requests_in_order_finish.
    exact (requests_in_order_with_job LAYER j1 _ m1 Ho1 Hj1).
  - intros m0 which j ret _ _ Ho Hj _ _.
    apply requests_in_order_finish.
    exact (requests_in_order_with_job which j _ m0 Ho Hj).
  - apply requests_in_order_branch.
  - intros m0 m' _ _ Ho H.
    destruct (on_finished_tail_cases _ _ H)
      as [[_ ->]|[_ [r [m2 [Hcopy ->]]]]]; [exact Ho|].
    apply requests_in_order_finish.
    apply (requests_in_order_frame m0); [exact Ho| | | |];
      try (destruct (make_local_copy_cases _ _ _ Hcopy)
             as [[_ [_ ->]]|[loc [final [w [_ [_ ->]]]]]]; reflexivity).
    destruct (make_local_copy_cases _ _ _ Hcopy)
      as [[_ [_ ->]]|[loc [final [w [_ [_ ->]]]]]]; intro Hx; exact Hx.
Qed.

(** ** The URLs of the requests *)

(** [dkr_import_pull_layer] with the registry it asks: the first one. *)
Lemma pull_layer_cases_registry m r m' :
  dkr_import_pull_layer m = Some (r, m') ->
  exists c,
    current_ancestry (session m) <= c
    /\ (m' = set_session (set_current_ancestry c (session m)) m
        \/ exists layer registry rest,
             let i := set_final_path
                        (Some (layer_path (image_root (session m)) layer))
                        (set_current_ancestry c (session m)) in
             let j := new_job i (image_url registry layer "/layer") in
             nth_error (ancestry (session m)) (Z.to_nat c) = Some layer
             /\ response_registries (session m) = registry :: rest
             /\ m' = add_request LAYER (url j)
                       (set_live_layer_jobs (S (live_layer_jobs m))
                          (set_session (set_layer_job (Some j) i) m))).
Proof.
  unfold dkr_import_pull_layer. intro H.
  destruct (layer_job (session m)); [discriminate|].
  destruct (temp_path (session m)); [discriminate|].
  destruct (final_path (session m)); [discriminate|].
  destruct (pull_layer_scan _ _ _) as [res|] eqn:Hscan; [|discriminate].
  destruct (pull_layer_scan_cursor _ _ _ _ Hscan) as [c [Hc Hs]].
  exists c. split; [exact Hc|].
  destruct res as [i'|r' i'|layer path i']; simpl in Hs; subst i'.
  - inversion H; subst. left. reflexivity.
  - inversion H; subst. left. reflexivity.
  - right.
    destruct (pull_layer_scan_missing _ _ _ _ _ _ Hscan)
      as [Hnth [Hpath _]].
    assert (ancestry (set_current_ancestry c (session m))
            = ancestry (session m)) as Ha by (destruct (session m); reflexivity).
    assert (image_root (set_current_ancestry c (session m))
            = image_root (session m)) as Hr by (destruct (session m); reflexivity).
    assert (current_ancestry (set_current_ancestry c (session m)) = c)
      as Hcc by (destruct (session m); reflexivity).
    rewrite Ha, Hcc in Hnth. rewrite Hr in Hpath. subst path.
    assert (response_registries
              (set_final_path
                 (Some (layer_path (image_root (session m)) layer))
                 (set_current_ancestry c (session m)))
            = response_registries (session m)) as Hrr
      by (destruct (session m); reflexivity).
    rewrite Hrr in H.
    destruct (response_registries (session m)) as [|registry rest] eqn:Hreg;
      [discriminate|].
    exists layer, registry, rest. cbv zeta.
    split; [exact Hnth|]. split; [reflexivity|].
    unfold begin_job in H. cbn [fst snd] in H.
    unfold new_job, image_url.
    destruct (import_job_begin _ <? 0); inversion H; reflexivity.
Qed.

Lemma request_url_ok_frame i i' q :
  index_url i' = index_url i -> name i' = name i -> tag i' = tag i ->
  id i' = id i -> response_registries i' = response_registries i ->
  ancestry i' = ancestry i ->
  request_url_ok i q -> request_url_ok i' q.
Proof.
  unfold request_url_ok, registry_of. intros -> -> -> -> -> -> H. exact H.
Qed.

Lemma request_urls_ok_frame m m' :
  index_url (session m') = index_url (session m) ->
  name (session m') = name (session m) ->
  tag (session m') = tag (session m) ->
  id (session m') = id (session m) ->
  response_registries (session m') = response_registries (session m) ->
  ancestry (session m') = ancestry (session m) ->
  requests m' = requests m ->
  request_urls_ok m -> request_urls_ok m'.
Proof.
  unfold request_urls_ok. intros H1 H2 H3 H4 H5 H6 -> H.
  eapply Forall_impl; [|exact H].
  intro q. apply request_url_ok_frame; assumption.
Qed.

Lemma request_urls_ok_with_job which j m :
  request_urls_ok m -> request_urls_ok (with_job which j m).
Proof.
  apply request_urls_ok_frame; destruct which; reflexivity.
Qed.

Lemma request_urls_ok_pull_layer m r m3 :
  request_urls_ok m -> dkr_import_pull_layer m = Some (r, m3) ->
  request_urls_ok m3.
Proof.
  intros Hu H.
  destruct (pull_layer_cases_registry _ _ _ H)
    as [c [_ [->|[layer [registry [rest Hm]]]]]].
  - revert Hu. apply request_urls_ok_frame; reflexivity.
  - cbv zeta in Hm. destruct Hm as [Hnth [Hreg ->]].
    unfold request_urls_ok. cbn [requests add_request set_live_layer_jobs
      set_session session].
    apply Forall_app. split.
    + eapply Forall_impl; [|exact Hu].
      intro q. apply request_url_ok_frame; reflexivity.
    + constructor; [|constructor].
      unfold request_url_ok, registry_of. fields. exists layer.
      split; [exact (nth_error_In _ _ Hnth)|].
      rewrite Hreg. reflexivity.
Qed.

Lemma request_urls_ok_finish r m :
  request_urls_ok m -> request_urls_ok (finish r m).
Proof. intro H. exact H. Qed.

(** A change of the session keeps the URLs right when it keeps them
    right for the kinds of request issued so far. *)
Lemma request_urls_ok_kinds (Q : Slot -> Prop) m m' :
  request_urls_ok m -> requests m' = requests m ->
  Forall Q (request_kinds m) ->
  (forall q, Q (fst q) -> request_url_ok (session m) q ->
             request_url_ok (session m') q) ->
  request_urls_ok m'.
Proof.
  unfold request_urls_ok, request_kinds. intros Hu -> Hk Hq.
  induction (requests m) as [|q l IH]; [constructor|].
  inversion Hu; subst. inversion Hk; subst.
  constructor; [apply Hq; assumption | apply IH; assumption].
Qed.

Lemma request_urls_ok_add s u m :
  request_urls_ok m -> request_url_ok (session m) (s, u) ->
  request_urls_ok (add_request s u m).
Proof.
  unfold request_urls_ok. intros H Hq. cbn [requests add_request session].
  apply Forall_app. split; [exact H|]. constructor; [exact Hq | constructor].
Qed.

Lemma request_urls_ok_branch w0 m which j body b :
  reachable w0 m -> completed m = [] -> request_urls_ok m ->
  job_of which (session m) = Some j -> job_finished j = false ->
  on_finished_branch which (job_ended_well body j)
    (with_job which (job_ended_well body j) m) = Some b ->
  exit_holds request_urls_ok b.
Proof.
  intros Hr Hc Hu Hj Hfin Hb.
  pose proof (request_urls_ok_with_job which (job_ended_well body j) m Hu)
    as Hu1.
  pose proof (requests_in_order_with_job which j (job_ended_well body j) m
                (reachable_requests_in_order _ _ Hr) Hj) as Ho1.
  destruct which; cbn [on_finished_branch] in Hb.
  - destruct (on_finished_images_cases _ _ Hb)
      as [_ [_ [_ [_ [[_ ->]|[registry [rest Hm]]]]]]]; [exact Hu1|].
    cbv zeta in Hm. destruct Hm as [Hreg ->].
    revert Hu1 Hreg. generalize (with_job IMAGES (job_ended_well body j) m).
    intros m1 Hu1 Hreg.
    assert (request_urls_ok
              (add_request TAGS
                 (url (new_job (session m1)
                         (tags_url registry (name (session m1))
                            (tag (session m1)))))
                 (set_session
                    (set_tags_job
                       (Some (new_job (session m1)
                                (tags_url registry (name (session m1))
                                   (tag (session m1)))))
                       (session m1))
                    (dkr_import_report_progress DKR_RESOLVING m1)))) as Hu2.
    { apply request_urls_ok_add.
      - revert Hu1. apply request_urls_ok_frame; reflexivity.
      - unfold request_url_ok, registry_of. fields. rewrite Hreg.
        reflexivity. }
    apply exit_holds_if; exact Hu2.
  - destruct (on_finished_tags_cases _ _ _ Hb)
      as [Ha [_ [_ [[r [_ ->]]|[new_id [registry [rest Hm]]]]]]];
      [exact Hu1|].
    cbv zeta in Hm. destruct Hm as [_ [Hreg ->]].
    destruct Ho1 as [_ [H2 _]].
    assert (request_kinds (with_job TAGS (job_ended_well body j) m)
            = [IMAGES; TAGS]) as Hk
      by (apply H2; [unfold with_job; fields; discriminate | exact Ha]).
    clear H2 Ha.
    revert Hu1 Hreg Hk. generalize (with_job TAGS (job_ended_well body j) m).
    intros m1 Hu1 Hreg Hk.
    set (i1 := set_id new_id (session m1)).
    set (ja := new_job i1 (image_url registry new_id "/ancestry")).
    set (jj := new_job i1 (image_url registry new_id "/json")).
    set (m1' := set_session (set_json_job (Some jj)
                               (set_ancestry_job (Some ja) i1))
                  (add_notified (progress_value i1 DKR_METADATA) m1)).
    assert (request_urls_ok m1') as Hu1'.
    { apply (request_urls_ok_kinds
               (fun s => s = IMAGES \/ s = TAGS) m1 m1' Hu1);
        [reflexivity | | ].
      - rewrite Hk. constructor; [left; reflexivity|].
        constructor; [right; reflexivity | constructor].
      - intros [s u] Hs. cbn [fst] in Hs. unfold request_url_ok.
        cbn [fst snd]. destruct Hs as [-> | ->]; intro H; exact H. }
    assert (request_urls_ok (add_request ANCESTRY (url ja) m1')) as Hu2.
    { apply request_urls_ok_add; [exact Hu1'|].
      unfold request_url_ok, registry_of. subst m1' ja jj i1. fields.
      rewrite Hreg. reflexivity. }
    assert (request_urls_ok
              (add_request JSON (url jj) (add_request ANCESTRY (url ja) m1')))
      as Hu3.
    { apply request_urls_ok_add; [exact Hu2|].
      unfold request_url_ok, registry_of. subst m1' ja jj i1. fields.
      rewrite Hreg. reflexivity. }
    apply exit_holds_if2; assumption.
  - destruct (on_finished_ancestry_cases _ _ _ Hb)
      as [_ [[r [_ ->]]|[[l [_ [_ ->]]]|[l [r [m3 Hm]]]]]];
      [exact Hu1 | exact Hu1 |].
    destruct Hm as [_ [_ [_ [Hpl ->]]]].
    assert (request_urls_ok m3) as Hu3.
    { eapply request_urls_ok_pull_layer; [|exact Hpl].
      destruct (reachable_invariant _ _ Hr) as [_ [_ [_ [Hns _]]]].
      cbn [job_of] in Hj. rewrite Hj in Hns.
      destruct (Hns (job_done_unfinished _ Hfin))
        as [_ [_ [_ [_ [Hnone _]]]]].
      apply (request_urls_ok_kinds (fun s => s <> LAYER)
               (with_job ANCESTRY (job_ended_well body j) m) _ Hu1);
        [reflexivity | |].
      - unfold request_kinds, with_job. fields.
        unfold layer_requests in Hnone. clear - Hnone.
        induction (requests m) as [|q rq IH]; [constructor|].
        cbn [filter] in Hnone. unfold is_layer_request in Hnone at 1.
        destruct q as [s u]. cbn [fst] in Hnone.
        cbn [map fst]. destruct s; try discriminate;
          (constructor; [discriminate | exact (IH Hnone)]).
      - intros [s u] Hs. unfold request_url_ok. cbn [fst snd] in *.
        destruct s; try (intro H; exact H). contradiction. }
    destruct (r <? 0); exact Hu3.
  - inversion Hb. exact Hu1.
  - destruct (on_finished_layer_cases _ _ _ Hb)
      as [temp [final [i1 [_ [_ [Hi1 [[r [w ->]]|[w [r [m3 Hm]]]]]]]]]].
    + revert Hu1. apply request_urls_ok_frame;
        destruct Hi1 as [[_ ->]| ->]; reflexivity.
    + destruct Hm as [Hpl ->].
      assert (request_urls_ok m3) as Hu3.
      { eapply request_urls_ok_pull_layer; [|exact Hpl].
        revert Hu1. apply request_urls_ok_frame;
          destruct Hi1 as [[_ ->]| ->]; reflexivity. }
      destruct (r <? 0); exact Hu3.
Qed.

(** In every state of a pull the requests have the URLs of
    [request_url_ok]. *)
Lemma reachable_request_urls_ok w0 m : reachable w0 m -> request_urls_ok m.
Proof.
  apply pull_induction.
  - intros event url_arg root i name_arg tag_arg local_arg force r m0 Hnew Hpull
      Hr.
    apply dkr_import_new_session in Hnew. destruct Hnew as [_ [_ [_ ->]]].
    unfold dkr_import_pull, machine_of in Hpull. fields.
    repeat (break_match_hyp Hpull;
            [inversion Hpull; subst; unfold EINVAL in Hr; lia|]).
    unfold begin_job in Hpull. inversion Hpull; subst.
    unfold request_urls_ok, request_url_ok. fields. cbn [app].
    constructor; [reflexivity | constructor].
  - intros m0 j i' Hr _ Hu Hj Hfin Hi.
    destruct (later_jobs_absent _ _ Hr) as [Himg _].
    rewrite Hj in Himg. specialize (Himg (job_done_unfinished _ Hfin)).
    destruct (reachable_requests_in_order _ _ Hr) as [Hk _].
    specialize (Hk Himg).
    apply (request_urls_ok_kinds (fun s => s = IMAGES) m0 _ Hu);
      [reflexivity | rewrite Hk; repeat constructor |].
    intros [s u] Hs. cbn [fst] in Hs. subst s.
    unfold request_url_ok. cbn [fst snd session set_session].
    destruct Hi as [[t ->]|[l [_ ->]]]; intro H; exact H.
  - intros m0 which j percent _ _ Hu _ _ _.
    revert Hu. apply request_urls_ok_frame; destruct which; reflexivity.
  - intros m0 j r m1 _ _ Hu Hj _ Hod.
    destruct (on_open_disk_cases _ _ _ Hod)
      as [j0 [final [temp [w [Hj0 [_ [_ [_ Hm1]]]]]]]].
    cbv zeta in Hm1.
    assert (request_urls_ok m1) as Hu1.
    { revert Hu. apply request_urls_ok_frame;
        destruct Hm1 as [[_ ->]|[[_ ->]|[_ [fd [pid ->]]]]]; reflexivity. }
    split; [intros _; exact Hu1|].
    intros _ j1 _. apply request_urls_ok_finish.
    apply request_urls_ok_with_job. exact Hu1.
  - intros m0 which j ret _ _ Hu _ _ _.
    apply request_urls_ok_finish. apply request_urls_ok_with_job. exact Hu.
  - apply request_urls_ok_branch.
  - intros m0 m' _ _ Hu H.
    destruct (on_finished_tail_cases _ _ H)
      as [[_ ->]|[_ [r [m2 [Hcopy ->]]]]]; [exact Hu|].
    apply request_urls_ok_finish. revert Hu.
    apply request_urls_ok_frame;
      destruct (make_local_copy_cases _ _ _ Hcopy)
        as [[_ [_ ->]]|[loc [final [w [_ [_ ->]]]]]]; reflexivity.
Qed.

(** ** The order of the layer requests *)

Lemma StronglySorted_snoc (l : list nat) (c : nat) :
  StronglySorted lt l -> Forall (fun k => (k < c)%nat) l ->
  StronglySorted lt (l ++ [c]).
Proof.
  induction 1 as [|k l Hs IH Hk]; intro Hlt; cbn [app].
  - constructor; constructor.
  - inversion Hlt; subst. constructor; [apply IH; assumption|].
    apply Forall_app. split; [exact Hk|]. constructor; [assumption|constructor].
Qed.

Lemma layers_in_order_none m : layer_requests m = [] -> layers_in_order m.
Proof.
  intro H. exists []. rewrite H.
  split; [reflexivity|]. split; constructor.
Qed.

Lemma layers_in_order_frame m m' :
  layer_requests m' = layer_requests m ->
  response_registries (session m') = response_registries (session m) ->
  ancestry (session m') = ancestry (session m) ->
  layer_bound (session m) <= layer_bound (session m') ->
  layers_in_order m -> layers_in_order m'.
Proof.
  intros Hl Hreg Ha Hb [idxs [Hreq [Hs Hf]]]. exists idxs.
  split; [|split; [exact Hs|]].
  - rewrite Hl, Hreq. apply map_ext. intro k.
    unfold layer_request_at, registry_of. rewrite Hreg, Ha. reflexivity.
  - eapply Forall_impl; [|exact Hf]. cbv beta. intros k Hk. lia.
Qed.

Lemma layers_in_order_pull_layer m r m3 :
  layers_in_order m -> 0 <= current_ancestry (session m) ->
  dkr_import_pull_layer m = Some (r, m3) ->
  layers_in_order m3.
Proof.
  intros Hlo Hc0 H.
  destruct (pull_layer_cases _ _ _ H) as [Hl _].
  destruct (pull_layer_cases_registry _ _ _ H)
    as [c [Hc [->|[layer [registry [rest Hm]]]]]].
  - revert Hlo. apply layers_in_order_frame; try reflexivity.
    unfold layer_bound. fields. rewrite Hl. lia.
  - cbv zeta in Hm. destruct Hm as [Hnth [Hreg ->]].
    destruct Hlo as [idxs [Hreq [Hs Hf]]].
    exists (idxs ++ [Z.to_nat c]).
    unfold layer_bound in *. rewrite Hl in Hf.
    rewrite layer_requests_add_request. unfold layer_requests in *.
    fields. rewrite Hreq, map_app.
    split; [|split].
    + f_equal. cbn [map]. unfold layer_request_at, registry_of. fields.
      rewrite Hreg. cbn [hd]. rewrite (nth_error_nth _ _ _ Hnth).
      reflexivity.
    + apply StronglySorted_snoc; [exact Hs|].
      eapply Forall_impl; [|exact Hf]. cbv beta. intros k Hk. lia.
    + apply Forall_app. split.
      * eapply Forall_impl; [|exact Hf]. cbv beta. intros k Hk. lia.
      * constructor; [lia | constructor].
Qed.

Lemma layer_bound_with_job which j j' i :
  job_of which i = Some j ->
  layer_bound (set_job which (Some j') i) = layer_bound i.
Proof.
  unfold layer_bound. intro Hj.
  destruct which; cbn [job_of] in Hj; fields; try reflexivity.
  rewrite Hj. reflexivity.
Qed.

Lemma layers_in_order_with_job which j j' m :
  job_of which (session m) = Some j ->
  layers_in_order m -> layers_in_order (with_job which j' m).
Proof.
  intro Hj. apply layers_in_order_frame.
  - reflexivity.
  - destruct which; reflexivity.
  - destruct which; reflexivity.
  - unfold with_job. cbn [session set_session].
    rewrite (layer_bound_with_job which j j' _ Hj). lia.
Qed.

Lemma layers_in_order_finish r m :
  layers_in_order m -> layers_in_order (finish r m).
Proof. intro H. exact H. Qed.

Lemma layers_in_order_branch w0 m which j body b :
  reachable w0 m -> completed m = [] -> layers_in_order m ->
  job_of which (session m) = Some j -> job_finished j = false ->
  on_finished_branch which (job_ended_well body j)
    (with_job which (job_ended_well body j) m) = Some b ->
  exit_holds layers_in_order b.
Proof.
  intros Hr Hc Hlo Hj Hfin Hb.
  pose proof (layers_in_order_with_job which j (job_ended_well body j) m
                Hj Hlo) as Hlo1.
  pose proof (reachable_shape _ _ Hr) as Hs.
  pose proof (job_done_unfinished _ Hfin) as Hnd.
  destruct (later_jobs_absent _ _ Hr) as [Hi [Ht [_ [Htn Han]]]].
  destruct (reachable_invariant _ _ Hr) as [_ [_ [_ [Hns _]]]].
  destruct which; cbn [on_finished_branch job_of] in Hb, Hj.
  - destruct (on_finished_images_cases _ _ Hb)
      as [_ [_ [_ [_ [[_ ->]|[registry [rest Hm]]]]]]]; [exact Hlo1|].
    cbv zeta in Hm. destruct Hm as [_ ->].
    rewrite Hj in Hi. specialize (Hi Hnd).
    destruct (Ht (Htn Hi)) as [Hanc _].
    destruct (Hns (Han Hanc)) as [_ [_ [_ [_ [Hnone _]]]]].
    apply exit_holds_if; apply layers_in_order_none;
      unfold with_job, layer_requests in *; fields;
      rewrite filter_app, Hnone; reflexivity.
  - destruct (on_finished_tags_cases _ _ _ Hb)
      as [_ [_ [_ [[r [_ ->]]|[new_id [registry [rest Hm]]]]]]];
      [exact Hlo1|].
    cbv zeta in Hm. destruct Hm as [_ [_ ->]].
    rewrite Hj in Ht. destruct (Ht Hnd) as [Hanc _].
    destruct (Hns (Han Hanc)) as [_ [_ [_ [_ [Hnone _]]]]].
    apply exit_holds_if2; apply layers_in_order_none;
      unfold with_job, layer_requests in *; fields;
      rewrite ?filter_app, Hnone; reflexivity.
  - destruct (on_finished_ancestry_cases _ _ _ Hb)
      as [_ [[r [_ ->]]|[[l [_ [_ ->]]]|[l [r [m3 Hm]]]]]];
      [exact Hlo1 | exact Hlo1 |].
    destruct Hm as [_ [_ [_ [Hpl ->]]]].
    rewrite Hj in Hns. destruct (Hns Hnd) as [_ [_ [_ [_ [Hnone _]]]]].
    assert (layers_in_order m3) as Hlo3.
    { refine (layers_in_order_pull_layer _ r m3 _ _ Hpl).
      - apply layers_in_order_none. exact Hnone.
      - unfold with_ancestry. fields. lia. }
    destruct (r <? 0); exact Hlo3.
  - inversion Hb. exact Hlo1.
  - unfold session_shape, ancestry_well_formed in Hs. split_hyps.
    assert (layer_job (session m) <> None) as Hl
      by (rewrite Hj; discriminate).
    destruct (on_finished_layer_cases _ _ _ Hb)
      as [temp [final [i1 [_ [_ [Hi1 [[r [w ->]]|[w [r [m3 Hm]]]]]]]]]].
    + revert Hlo1. apply layers_in_order_frame;
        destruct Hi1 as [[_ ->]| ->]; reflexivity.
    + destruct Hm as [Hpl ->].
      assert (layers_in_order m3) as Hlo3.
      { refine (layers_in_order_pull_layer _ r m3 _ _ Hpl).
        - revert Hlo1. apply layers_in_order_frame;
            try (destruct Hi1 as [[_ ->]| ->]; reflexivity).
          destruct Hi1 as [[_ ->]| ->];
            unfold layer_bound, with_job, layer_released; fields; lia.
        - destruct Hi1 as [[_ ->]| ->];
            unfold with_job, layer_released; fields; lia. }
      destruct (r <? 0); exact Hlo3.
Qed.

(** In every state of a pull the layer requests are in the order of
    the ancestry. *)
Lemma reachable_layers_in_order w0 m : reachable w0 m -> layers_in_order m.
Proof.
  apply pull_induction.
  - intros event url_arg root i name_arg tag_arg local_arg force r m0 Hnew Hpull
      Hr.
    destruct (pull_invariant_start _ _ _ _ _ _ _ _ _ _ _ Hnew Hpull Hr)
      as [[_ [_ [_ [Hns _]]]] _].
    apply layers_in_order_none.
    assert (job_done (ancestry_job (session m0)) = false) as Hd.
    { apply dkr_import_new_session in Hnew.
      destruct Hnew as [_ [_ [_ ->]]].
      unfold dkr_import_pull, machine_of, begin_job in Hpull. fields.
      repeat (break_match_hyp Hpull;
              [inversion Hpull; subst; unfold EINVAL in Hr; lia|]).
      inversion Hpull; subst. reflexivity. }
    destruct (Hns Hd) as [_ [_ [_ [_ [Hnone _]]]]]. exact Hnone.
  - intros m0 j i' Hr _ _ Hj Hfin Hi.
    destruct (later_jobs_absent _ _ Hr) as [Himg [Ht [_ [Htn Han]]]].
    rewrite Hj in Himg. specialize (Himg (job_done_unfinished _ Hfin)).
    destruct (Ht (Htn Himg)) as [Hanc _].
    destruct (reachable_invariant _ _ Hr) as [_ [_ [_ [Hns _]]]].
    destruct (Hns (Han Hanc)) as [_ [_ [_ [_ [Hnone _]]]]].
    apply layers_in_order_none. exact Hnone.
  - intros m0 which j percent _ _ Hlo Hj _ _.
    exact (layers_in_order_with_job which j _ m0 Hj Hlo).
  - intros m0 j r m1 _ _ Hlo Hj _ Hod.
    destruct (on_open_disk_cases _ _ _ Hod)
      as [j0 [final [temp [w [Hj0 [_ [_ [_ Hm1]]]]]]]].
    cbv zeta in Hm1.
    assert (layers_in_order m1) as Hlo1.
    { revert Hlo. apply layers_in_order_frame;
        try (destruct Hm1 as [[_ ->]|[[_ ->]|[_ [fd [pid ->]]]]];
             reflexivity).
      unfold layer_bound.
      destruct Hm1 as [[_ ->]|[[_ ->]|[_ [fd [pid ->]]]]]; fields;
        rewrite ?Hj; lia. }
    split; [intros _; exact Hlo1|].
    intros _ j1 Hj1. apply layers_in_order_finish.
    exact (layers_in_order_with_job LAYER j1 _ m1 Hj1 Hlo1).
  - intros m0 which j ret _ _ Hlo Hj _ _.
    apply layers_in_order_finish.
    exact (layers_in_order_with_job which j _ m0 Hj Hlo).
  - apply layers_in_order_branch.
  - intros m0 m' _ _ Hlo H.
    destruct (on_finished_tail_cases _ _ H)
      as [[_ ->]|[_ [r [m2 [Hcopy ->]]]]]; [exact Hlo|].
    apply layers_in_order_finish. revert Hlo.
    apply layers_in_order_frame;
      destruct (make_local_copy_cases _ _ _ Hcopy)
        as [[_ [_ ->]]|[loc [final [w [_ [_ ->]]]]]]; reflexivity.
Qed.

(** ** What holds in every state of a pull *)

(** X8.  In every state of a pull, the value [dkr_import_report_progress]
    computes for each phase lies in the range of that phase: 0 to 5 while
    searching, 5 to 10 while resolving, 10 to 20 for the metadata, 20 to
    95 while downloading, 95 for the copy.  And every value sent so far
    lies between 0 and 95: the unsigned arithmetic never wraps around. *)
Theorem progress_stays_in_phase_range (w0 : World) (m : Machine) :
  reachable w0 m ->
  (0 <= progress_value (session m) DKR_SEARCHING <= 5
   /\ 5 <= progress_value (session m) DKR_RESOLVING <= 10
   /\ 10 <= progress_value (session m) DKR_METADATA <= 20
   /\ 20 <= progress_value (session m) DKR_DOWNLOADING <= 95
   /\ progress_value (session m) DKR_COPYING = 95)
  /\ Forall (fun p => 0 <= p <= 95) (notified m).
Proof.
  intro Hr. split; [|exact (reachable_notified_in_range _ _ Hr)].
  pose proof (reachable_shape _ _ Hr) as Hs. shape_parts Hs.
  apply progress_value_bands; try assumption.
  - intros []; assumption.
  - split; assumption.
Qed.

(** X7.  In every state of a pull the ancestry of the session is well
    formed: [n_ancestry] is its length, the cursor lies within it, it
    holds at most [LAYERS_MAX] ids, all valid and pairwise different, and
    it ends in the resolved id.  It is empty until the ancestry job is
    done; while a layer job exists the cursor is before the end; and once
    the ancestry job exists the resolved id is a valid id. *)
Theorem session_ancestry_well_formed (w0 : World) (m : Machine) :
  reachable w0 m ->
  ancestry_well_formed (session m)
  /\ (job_done (ancestry_job (session m)) = false ->
      ancestry (session m) = [])
  /\ (layer_job (session m) <> None ->
      current_ancestry (session m) < n_ancestry (session m))
  /\ (ancestry_job (session m) <> None ->
      dkr_id_is_valid (id (session m)) = true).
Proof.
  intro Hr. pose proof (reachable_shape _ _ Hr) as Hs.
  unfold session_shape in Hs. split_hyps.
  split; [assumption|]. split; [assumption|]. split; assumption.
Qed.

(** X9.  In every state of a pull the requests were issued in the order
    of the protocol: the images request, then the tags request, then the
    ancestry and the json request, then layer requests only; each of the
    first four at most once, and a layer request only after all four.
    After the ancestry request the json request is missing only when the
    pull has ended. *)
Theorem requests_follow_protocol_order (w0 : World) (m : Machine) :
  reachable w0 m ->
  exists (k n : nat),
    request_kinds m
    = firstn k [IMAGES; TAGS; ANCESTRY; JSON] ++ repeat LAYER n
    /\ (1 <= k <= 4)%nat
    /\ (n <> 0%nat -> k = 4%nat)
    /\ (completed m = [] -> k <> 3%nat).
Proof.
  intro Hr. destruct (reachable_requests_in_order _ _ Hr) as [H1 [H2 H3]].
  destruct (tags_job (session m)) as [jt|] eqn:Ht.
  - destruct (ancestry_job (session m)) as [ja|] eqn:Ha.
    + destruct H3 as [[Hk Hc]|[n Hk]]; [discriminate| |].
      * exists 3%nat, 0%nat. rewrite Hk.
        repeat split; try lia; try reflexivity. intro Hx. contradiction.
      * exists 4%nat, n. rewrite Hk. repeat split; lia.
    + exists 2%nat, 0%nat. rewrite H2; [|discriminate|reflexivity].
      repeat split; lia.
  - exists 1%nat, 0%nat. rewrite (H1 eq_refl). repeat split; lia.
Qed.

Lemma request_not_images_has_tags_job w0 m q :
  reachable w0 m -> In q (requests m) -> fst q <> IMAGES ->
  tags_job (session m) <> None.
Proof.
  intros Hr Hin Hne Ht.
  destruct (reachable_requests_in_order _ _ Hr) as [H1 _].
  specialize (H1 Ht). unfold request_kinds in H1.
  apply (in_map fst) in Hin. rewrite H1 in Hin.
  destruct Hin as [Hq|[]]. congruence.
Qed.

(** X10.  In every state of a pull all stored registries are valid
    hostnames, and every request has the URL of its kind: the images
    request goes to the index URL, every other request to the first
    registry (there is one then, a valid hostname), for the name and tag
    of the pull, for the resolved id, or for a layer of the ancestry. *)
Theorem requests_go_to_first_registry (w0 : World) (m : Machine) :
  reachable w0 m ->
  forallb hostname_is_valid (response_registries (session m)) = true
  /\ (forall q,
        In q (requests m) ->
        request_url_ok (session m) q
        /\ (fst q <> IMAGES ->
            response_registries (session m) <> []
            /\ hostname_is_valid (registry_of (session m)) = true)).
Proof.
  intro Hr. pose proof (reachable_shape _ _ Hr) as Hs.
  unfold session_shape in Hs. destruct Hs as [Hv [Hne _]].
  split; [exact Hv|].
  intros q Hin. split.
  - exact (proj1 (Forall_forall _ _) (reachable_request_urls_ok _ _ Hr) q Hin).
  - intro Hq.
    pose proof (Hne (request_not_images_has_tags_job _ _ _ Hr Hin Hq)) as Hreg.
    split; [exact Hreg|].
    unfold registry_of.
    destruct (response_registries (session m)) as [|registry rest];
      [contradiction|].
    cbn [forallb hd] in *. apply andb_true_iff in Hv. exact (proj1 Hv).
Qed.

Lemma NoDup_map_nth (l : list string) (idxs : list nat) :
  NoDup l -> StronglySorted lt idxs ->
  Forall (fun k => (k < List.length l)%nat) idxs ->
  NoDup (map (fun k => nth k l EmptyString) idxs).
Proof.
  intros Hnd Hs. induction Hs as [|k idxs Hs IH Hk]; intro Hf; cbn [map].
  - constructor.
  - inversion Hf as [|? ? Hklt Hf']; subst.
    constructor; [|exact (IH Hf')].
    intro Hin. apply in_map_iff in Hin. destruct Hin as [k' [Heq Hk']].
    pose proof (proj1 (Forall_forall _ _) Hk k' Hk') as Hlt.
    pose proof (proj1 (Forall_forall _ _) Hf' k' Hk') as Hlen.
    pose proof (proj1 (NoDup_nth l EmptyString) Hnd k' k Hlen Hklt Heq).
    lia.
Qed.

(** X11.  In every state of a pull the layer requests are for layers of
    the ancestry at strictly increasing indices, all below the cursor (or
    at it, for the layer being fetched): layers are requested deepest
    ancestor first, and none twice. *)
Theorem layers_requested_once_in_order (w0 : World) (m : Machine) :
  reachable w0 m ->
  exists idxs : list nat,
    layer_requests m = map (layer_request_at (session m)) idxs
    /\ StronglySorted lt idxs
    /\ Forall (fun k => (k < List.length (ancestry (session m)))%nat) idxs
    /\ Forall (fun k => Z.of_nat k < layer_bound (session m)) idxs
    /\ NoDup (map (fun k => nth k (ancestry (session m)) EmptyString) idxs).
Proof.
  intro Hr. destruct (reachable_layers_in_order _ _ Hr) as [idxs [Hreq [Hs Hf]]].
  pose proof (reachable_shape _ _ Hr) as Hsh. shape_parts Hsh.
  unfold strv_length in Shn.
  assert (Forall (fun k => (k < List.length (ancestry (session m)))%nat) idxs)
    as Hlen.
  { eapply Forall_impl; [|exact Hf]. cbv beta. unfold layer_bound.
    intros k Hk. destruct (layer_job (session m)) as [jl|].
    - assert (current_ancestry (session m) < n_ancestry (session m))
        by (apply Shcur; discriminate).
      lia.
    - lia. }
  exists idxs. repeat split; try assumption.
  apply NoDup_map_nth; assumption.
Qed.

(** X16.  In every state of a pull, [dkr_import_unref] leaves the world
    alone when the session has no temporary path: no tar child is
    recorded then, so nothing is killed and nothing removed.  With a
    temporary path and no tar child to kill, it removes that path, first
    as a subvolume and then as a directory tree. *)
Theorem unref_without_temp_path (w0 : World) (m : Machine) :
  reachable w0 m ->
  (temp_path (session m) = None -> dkr_import_unref m = world m)
  /\ (forall temp,
        temp_path (session m) = Some temp -> tar_pid (session m) <= 1 ->
        dkr_import_unref m
        = rm_rf_dangerous (btrfs_subvol_remove (world m) temp) temp).
Proof.
  intro Hr. pose proof (reachable_shape _ _ Hr) as Hs. shape_parts Hs.
  unfold dkr_import_unref. split.
  - intro Ht. rewrite Ht.
    destruct (1 <? tar_pid (session m)) eqn:Hpid; [|reflexivity].
    apply Z.ltb_lt in Hpid. exfalso. apply Shpidt; [lia | exact Ht].
  - intros temp Ht Hpid. rewrite Ht.
    apply Z.ltb_ge in Hpid. rewrite Hpid. reflexivity.
Qed.

(** ** The request headers *)

Ltac header_leaf :=
  unfold exit_holds, job_headers_ok, header_ok, token_header, with_job,
    job_ended_well, job_ended_badly, new_job, with_ancestry, layer_released
    in *;
  fields; split_hyps;
  repeat split; auto with shape.

Lemma job_headers_ok_with_job which j j' m :
  job_headers_ok m -> job_of which (session m) = Some j ->
  request_header j' = request_header j ->
  job_headers_ok (with_job which j' m).
Proof.
  intros H Hj Hh.
  destruct which; cbn [job_of] in Hj;
    unfold job_headers_ok, header_ok in H; rewrite Hj in H; header_leaf.
Qed.

Lemma job_headers_ok_pull_layer m r m3 :
  job_headers_ok m -> dkr_import_pull_layer m = Some (r, m3) ->
  job_headers_ok m3.
Proof.
  intros Hh H.
  destruct (pull_layer_cases_registry _ _ _ H)
    as [c [_ [->|[layer [registry [rest Hm]]]]]].
  - header_leaf.
  - cbv zeta in Hm. destruct Hm as [_ [_ ->]]. header_leaf.
Qed.

Lemma job_headers_ok_branch w0 m which j body b :
  reachable w0 m -> completed m = [] -> job_headers_ok m ->
  job_of which (session m) = Some j -> job_finished j = false ->
  on_finished_branch which (job_ended_well body j)
    (with_job which (job_ended_well body j) m) = Some b ->
  exit_holds job_headers_ok b.
Proof.
  intros Hr Hc Hh Hj Hfin Hb.
  pose proof (job_headers_ok_with_job which j (job_ended_well body j) m
                Hh Hj eq_refl) as Hh1.
  destruct which; cbn [on_finished_branch] in Hb.
  - destruct (on_finished_images_cases _ _ Hb)
      as [_ [_ [_ [_ [[_ ->]|[registry [rest Hm]]]]]]]; [exact Hh1|].
    cbv zeta in Hm. destruct Hm as [_ ->].
    apply exit_holds_if; header_leaf.
  - destruct (on_finished_tags_cases _ _ _ Hb)
      as [_ [_ [_ [[r [_ ->]]|[new_id [registry [rest Hm]]]]]]];
      [exact Hh1|].
    cbv zeta in Hm. destruct Hm as [_ [_ ->]].
    apply exit_holds_if2; header_leaf.
  - destruct (on_finished_ancestry_cases _ _ _ Hb)
      as [_ [[r [_ ->]]|[[l [_ [_ ->]]]|[l [r [m3 Hm]]]]]];
      [exact Hh1 | exact Hh1 |].
    destruct Hm as [_ [_ [_ [Hpl ->]]]].
    assert (job_headers_ok m3) as Hh3.
    { refine (job_headers_ok_pull_layer _ r m3 _ Hpl). header_leaf. }
    destruct (r <? 0); exact Hh3.
  - inversion Hb. exact Hh1.
  - destruct (on_finished_layer_cases _ _ _ Hb)
      as [temp [final [i1 [_ [_ [Hi1 [[r [w ->]]|[w [r [m3 Hm]]]]]]]]]].
    + destruct Hi1 as [[_ ->]| ->]; header_leaf.
    + destruct Hm as [Hpl ->].
      assert (job_headers_ok m3) as Hh3.
      { refine (job_headers_ok_pull_layer _ r m3 _ Hpl).
        destruct Hi1 as [[_ ->]| ->]; header_leaf. }
      destruct (r <? 0); exact Hh3.
Qed.

(** In every state of a pull the jobs carry the request headers of
    [job_headers_ok]. *)
Lemma reachable_job_headers_ok w0 m : reachable w0 m -> job_headers_ok m.
Proof.
  apply pull_induction.
  - intros event url_arg root i name_arg tag_arg local_arg force r m0 Hnew Hpull
      Hr.
    apply dkr_import_new_session in Hnew. destruct Hnew as [_ [_ [_ ->]]].
    unfold dkr_import_pull, machine_of in Hpull. fields.
    repeat (break_match_hyp Hpull;
            [inversion Hpull; subst; unfold EINVAL in Hr; lia|]).
    unfold begin_job in Hpull. inversion Hpull; subst.
    unfold job_headers_ok, header_ok. fields. repeat split.
  - intros m0 j i' Hr _ Hh Hj Hfin Hi.
    destruct (later_jobs_absent _ _ Hr) as [Himg [Ht [Ha [Htn Han]]]].
    rewrite Hj in Himg. specialize (Himg (job_done_unfinished _ Hfin)).
    destruct (Ht (Htn Himg)) as [Hanc Hjs].
    destruct (Ha (Han Hanc)) as [Hl _].
    unfold job_headers_ok in *. fields.
    destruct Hi as [[t ->]|[l [_ ->]]]; fields;
      rewrite ?Himg, ?Hanc, ?Hjs, ?Hl in *; cbn [header_ok];
      split_hyps; repeat split; assumption.
  - intros m0 which j percent _ _ Hh Hj _ _.
    exact (job_headers_ok_with_job which j
             (job_set_progress_percent percent j) m0 Hh Hj eq_refl).
  - intros m0 j r m1 _ _ Hh Hj _ Hod.
    destruct (on_open_disk_cases _ _ _ Hod)
      as [j0 [final [temp [w [Hj0 [_ [_ [_ Hm1]]]]]]]].
    cbv zeta in Hm1. rewrite Hj in Hj0. inversion Hj0; subst j0.
    unfold job_headers_ok, header_ok in Hh. rewrite Hj in Hh.
    destruct Hm1 as [[Hneg ->]|[[Hneg ->]|[-> [fd [pid ->]]]]].
    + split; [lia|]. intros _ j1 Hj1. fields. rewrite Hj in Hj1.
      inversion Hj1; subst j1. header_leaf.
    + split; [lia|]. intros _ j1 Hj1. fields. inversion Hj1; subst j1.
      header_leaf.
    + split; [|lia]. intros _. header_leaf.
  - intros m0 which j ret _ _ Hh Hj _ _.
    exact (job_headers_ok_with_job which j (job_ended_badly ret j) m0 Hh Hj
             eq_refl).
  - apply job_headers_ok_branch.
  - intros m0 m' _ _ Hh H.
    destruct (on_finished_tail_cases _ _ H)
      as [[_ ->]|[_ [r [m2 [Hcopy ->]]]]]; [exact Hh|].
    destruct (make_local_copy_cases _ _ _ Hcopy)
      as [[_ [_ ->]]|[loc [final [w [_ [_ ->]]]]]]; header_leaf.
Qed.

(** X12.  In every state of a pull the images job carries the request
    for a token, and every later job carries the token of the session if
    the index sent one, and the request for a token otherwise; each after
    [Accept: application/json]. *)
Theorem jobs_present_the_token (w0 : World) (m : Machine) :
  reachable w0 m ->
  (forall j,
      images_job (session m) = Some j ->
      request_header j
      = ["Accept: application/json"%string; "X-Docker-Token: true"%string])
  /\ (forall s j,
        s <> IMAGES -> job_of s (session m) = Some j ->
        request_header j
        = ["Accept: application/json"%string;
           match response_token (session m) with
           | Some token => ("Authorization: Token " ++ token)%string
           | None => "X-Docker-Token: true"%string
           end]).
Proof.
  intro Hr. destruct (reachable_job_headers_ok _ _ Hr)
    as [Hi [Ht [Ha [Hj Hl]]]].
  unfold header_ok, token_header in *. split.
  - intros j Hj0. rewrite Hj0 in Hi. exact Hi.
  - intros s j Hs Hjs.
    destruct s; cbn [job_of] in Hjs; [contradiction| | | |];
      rewrite Hjs in *; assumption.
Qed.

(** ** Creating a session, starting a pull, headers, failed jobs *)

Lemma strip_trailing_slash_app s :
  strip_trailing_slash (s ++ "/") = s.
Proof.
  induction s as [|c s IH]; [reflexivity|].
  cbn [String.append strip_trailing_slash].
  destruct (s ++ "/")%string as [|c' s'] eqn:Hs.
  - destruct s; discriminate.
  - rewrite IH. reflexivity.
Qed.

Lemma strip_trailing_slash_cases s :
  (exists s', s = (s' ++ "/")%string /\ strip_trailing_slash s = s')
  \/ ((forall s', s <> (s' ++ "/")%string) /\ strip_trailing_slash s = s).
Proof.
  induction s as [|c s IH].
  - right. split; [intros [|c s'] H; [discriminate|]|reflexivity].
    destruct s'; discriminate.
  - destruct s as [|c' s'].
    + cbn [strip_trailing_slash].
      destruct (Ascii.eqb c "/") eqn:Hc.
      * left. exists EmptyString. apply Ascii.eqb_eq in Hc. subst c.
        split; reflexivity.
      * right. split; [|reflexivity].
        intros [|c1 s1] H; cbn [String.append] in H.
        -- inversion H. subst c. rewrite Ascii.eqb_refl in Hc. discriminate.
        -- inversion H. destruct s1; discriminate.
    + destruct IH as [[s1 [Hs Hstrip]]|[Hno Hstrip]].
      * left. exists (String c s1). cbn [String.append]. rewrite <- Hs.
        split; [reflexivity|].
        change (strip_trailing_slash (String c (String c' s')))
          with (String c (strip_trailing_slash (String c' s'))).
        rewrite Hstrip. reflexivity.
      * right. split.
        -- intros [|c1 s1] H; cbn [String.append] in H; [discriminate|].
           inversion H as [[Hc1 Hs1]]. exact (Hno s1 Hs1).
        -- change (strip_trailing_slash (String c (String c' s')))
             with (String c (strip_trailing_slash (String c' s'))).
           rewrite Hstrip. reflexivity.
Qed.

(** X2.  [dkr_import_new] makes its checks in this order, and they are
    all its errors: an index URL that is not a valid HTTP URL gives
    [-EINVAL]; when the caller passed no event loop, a failing
    [sd_event_default] gives its error; a failing [curl_glue_new] gives
    its error.  Otherwise a session is made: it has the index URL with
    one trailing slash removed, if there is one, the image root given or
    [/var/lib/machines], and no job, token, registry, ancestry, path or
    tar child; and a first [dkr_import_pull] with valid arguments is not
    refused on it but sends the images request below that index URL. *)
Theorem dkr_import_new_spec (event : bool) (url_arg : string)
    (root : option string) :
  (forall e,
      dkr_import_new event url_arg root = inl e <->
      (http_url_is_valid url_arg = false /\ e = - EINVAL)
      \/ (http_url_is_valid url_arg = true /\ event = false
          /\ sd_event_default < 0 /\ e = sd_event_default)
      \/ (http_url_is_valid url_arg = true
          /\ (event = true \/ 0 <= sd_event_default)
          /\ curl_glue_new < 0 /\ e = curl_glue_new))
  /\ ((exists i, dkr_import_new event url_arg root = inr i) <->
      http_url_is_valid url_arg = true
      /\ (event = true \/ 0 <= sd_event_default)
      /\ 0 <= curl_glue_new)
  /\ (forall i,
        dkr_import_new event url_arg root = inr i ->
        image_root i
        = match root with
          | Some r => r
          | None => "/var/lib/machines"%string
          end
        /\ ((exists u, url_arg = (u ++ "/")%string /\ index_url i = u)
            \/ ((forall u, url_arg <> (u ++ "/")%string)
                /\ index_url i = url_arg))
        /\ images_job i = None /\ tags_job i = None
        /\ ancestry_job i = None /\ json_job i = None /\ layer_job i = None
        /\ response_token i = None /\ response_registries i = []
        /\ ancestry i = [] /\ local i = None
        /\ temp_path i = None /\ final_path i = None /\ tar_pid i = 0
        /\ (forall w name_arg tag_arg local_arg force,
              pull_arguments_valid name_arg tag_arg local_arg = true ->
              exists j m,
                dkr_import_pull name_arg tag_arg local_arg force
                  (machine_of i w)
                = (import_job_begin j, m)
                /\ images_job (session m) = Some j
                /\ url j
                   = (index_url i ++ "/v1/repositories/" ++ name_arg
                      ++ "/images")%string
                /\ requests m = [(IMAGES, url j)]
                /\ world m = w)).
Proof.
  split; [|split].
  - intro e. unfold dkr_import_new.
    destruct (http_url_is_valid url_arg), event; cbn [negb andb];
      destruct (sd_event_default <? 0) eqn:Hev;
      (apply Z.ltb_lt in Hev || apply Z.ltb_ge in Hev);
      destruct (curl_glue_new <? 0) eqn:Hg;
      (apply Z.ltb_lt in Hg || apply Z.ltb_ge in Hg);
      (split;
       [intro H; first
          [discriminate H
          |inversion H; subst; clear H;
           first
             [left; split; reflexivity
             |right; left; repeat split; first [reflexivity | lia]
             |right; right; split; [reflexivity|];
              split; [first [left; reflexivity | right; lia]|];
              split; [lia | reflexivity]]]
       |intros [[H1 H2]|[[H1 [H2 [H3 H4]]]|[H1 [H2 [H3 H4]]]]]; subst;
        first
          [discriminate
          |lia
          |reflexivity
          |destruct H2 as [H2|H2]; first [discriminate H2 | lia]]]).
  - split.
    + intros [i Hnew]. apply dkr_import_new_session in Hnew.
      destruct Hnew as [Hv [Hev [Hg _]]]. repeat split; assumption.
    + intros [Hv [Hev Hg]]. unfold dkr_import_new. rewrite Hv. cbn [negb].
      assert (negb event && (sd_event_default <? 0) = false) as ->.
      { destruct Hev as [->|Hev]; [reflexivity|].
        apply andb_false_iff. right. apply Z.ltb_ge. exact Hev. }
      apply Z.ltb_ge in Hg. rewrite Hg. eexists. reflexivity.
  - intros i Hnew. apply dkr_import_new_session in Hnew.
    destruct Hnew as [_ [_ [_ ->]]]. cbn.
    split; [reflexivity|].
    split; [exact (strip_trailing_slash_cases url_arg)|].
    repeat (split; [reflexivity|]).
    intros w name_arg tag_arg local_arg force Hv.
    unfold pull_arguments_valid in Hv.
    apply andb_true_iff in Hv. destruct Hv as [Hv Hl].
    apply andb_true_iff in Hv. destruct Hv as [Hn Ht].
    unfold dkr_import_pull, machine_of, begin_job. cbn [session images_job].
    rewrite Hn. cbn [negb].
    assert (match tag_arg with
            | Some t => negb (dkr_tag_is_valid t)
            | None => false
            end = false) as ->
      by (destruct tag_arg; [rewrite Ht|]; reflexivity).
    assert (match local_arg with
            | Some l => negb (machine_name_is_valid l)
            | None => false
            end = false) as ->
      by (destruct local_arg; [rewrite Hl|]; reflexivity).
    eexists. eexists. split; [reflexivity|]. repeat split.
Qed.

(** X5.  A call of [dkr_import_pull] with valid arguments on a session
    without an images job leaves an images job in place whatever
    [import_job_begin] returned, also when it failed: every further call
    with valid arguments returns [-EBUSY] and changes nothing. *)
Theorem dkr_import_pull_occupies_session (name_arg : string)
    (tag_arg local_arg : option string) (force : bool) (m : Machine)
    (name2 : string) (tag2 local2 : option string) (force2 : bool) :
  pull_arguments_valid name_arg tag_arg local_arg = true ->
  pull_arguments_valid name2 tag2 local2 = true ->
  images_job (session m) = None ->
  forall r m',
    dkr_import_pull name_arg tag_arg local_arg force m = (r, m') ->
    (exists j, images_job (session m') = Some j /\ r = import_job_begin j)
    /\ dkr_import_pull name2 tag2 local2 force2 m' = (- EBUSY, m').
Proof.
  unfold pull_arguments_valid. intros Hv Hv2 Hi r m' Hpull.
  apply andb_true_iff in Hv. destruct Hv as [Hv Hl].
  apply andb_true_iff in Hv. destruct Hv as [Hn Ht].
  apply andb_true_iff in Hv2. destruct Hv2 as [Hv2 Hl2].
  apply andb_true_iff in Hv2. destruct Hv2 as [Hn2 Ht2].
  assert (forall t : option string,
             match t with Some t => dkr_tag_is_valid t | None => true end
             = true ->
             match t with
             | Some t => negb (dkr_tag_is_valid t)
             | None => false
             end = false) as Htag
    by (intros [t|] H; [rewrite H|]; reflexivity).
  assert (forall l : option string,
             match l with Some l => machine_name_is_valid l | None => true end
             = true ->
             match l with
             | Some l => negb (machine_name_is_valid l)
             | None => false
             end = false) as Hloc
    by (intros [l|] H; [rewrite H|]; reflexivity).
  unfold dkr_import_pull in Hpull.
  rewrite Hn, (Htag _ Ht), (Hloc _ Hl), Hi in Hpull. cbn [negb] in Hpull.
  unfold begin_job in Hpull. inversion Hpull; subst r m'. clear Hpull.
  split; [eexists; split; reflexivity|].
  unfold dkr_import_pull.
  rewrite Hn2, (Htag _ Ht2), (Hloc _ Hl2). cbn [negb]. reflexivity.
Qed.

(** X4.  [dkr_import_job_on_header] returns 0 or [-EBADMSG]; when it
    returns [-EBADMSG] the session is unchanged; it changes nothing but
    the token and the registries, and at most one of the two; registries
    that were all valid hostnames stay so; and a token header is taken as
    such, with the registries left alone. *)
Theorem dkr_import_job_on_header_contract (header : string) (i : DkrImport) :
  let (r, i') := dkr_import_job_on_header header i in
  (r = 0 \/ r = - EBADMSG)
  /\ (r = - EBADMSG -> i' = i)
  /\ set_response_token (response_token i)
       (set_response_registries (response_registries i) i') = i
  /\ (response_token i' = response_token i
      \/ response_registries i' = response_registries i)
  /\ (forallb hostname_is_valid (response_registries i) = true ->
      forallb hostname_is_valid (response_registries i') = true)
  /\ (forall t,
        curl_header_strdup header HEADER_TOKEN = Some t ->
        r = 0 /\ response_token i' = Some t
        /\ response_registries i' = response_registries i).
Proof.
  destruct (dkr_import_job_on_header header i) as [r i'] eqn:Hh.
  assert (forall t,
             curl_header_strdup header HEADER_TOKEN = Some t ->
             r = 0 /\ response_token i' = Some t
             /\ response_registries i' = response_registries i) as Htok.
  { intros t Ht. unfold dkr_import_job_on_header in Hh. rewrite Ht in Hh.
    inversion Hh. repeat split. }
  destruct (on_header_cases _ _ _ _ Hh)
    as [[-> ->]|[[-> ->]|[[-> [t ->]]|[-> [l [Hl ->]]]]]].
  - split; [left; reflexivity|]. split; [reflexivity|].
    split; [destruct i; reflexivity|]. split; [left; reflexivity|].
    split; [intro H; exact H | exact Htok].
  - split; [right; reflexivity|]. split; [reflexivity|].
    split; [destruct i; reflexivity|]. split; [left; reflexivity|].
    split; [intro H; exact H | exact Htok].
  - split; [left; reflexivity|]. split; [discriminate|].
    split; [destruct i; reflexivity|]. split; [right; reflexivity|].
    split; [intro H; exact H | exact Htok].
  - split; [left; reflexivity|]. split; [discriminate|].
    split; [destruct i; reflexivity|]. split; [left; reflexivity|].
    split; [intros _; exact Hl | exact Htok].
Qed.

(** X13.  In a pull that has not ended, a job that has not ended and
    ends with an error ends the pull with that error, whichever job it
    is: the error is delivered unchanged, the job is marked failed, and
    nothing else happens, no request, no progress, no change of the
    world.  The temporary path and the tar child stay as they are, so the
    teardown does what it would have done before. *)
Theorem failed_job_ends_the_pull (m : Machine) (which : Slot)
    (j : ImportJob) (ret : Z) (body : string) :
  completed m = [] ->
  job_of which (session m) = Some j -> job_finished j = false ->
  ret <> 0 ->
  exists m',
    deliver (EvFinished which ret body) m = Some m'
    /\ completed m' = [ret]
    /\ session m' = set_job which (Some (job_ended_badly ret j)) (session m)
    /\ world m' = world m /\ requests m' = requests m
    /\ notified m' = notified m
    /\ temp_path (session m') = temp_path (session m)
    /\ tar_pid (session m') = tar_pid (session m)
    /\ dkr_import_unref m' = dkr_import_unref m.
Proof.
  intros Hc Hj Hfin Hret. unfold deliver. rewrite Hc.
  rewrite (import_job_finish_failed which ret body m j Hj Hfin Hret).
  eexists. split; [reflexivity|].
  unfold dkr_import_unref, with_job.
  cbn [finish add_completed completed session world requests notified
       set_session].
  rewrite Hc.
  assert (temp_path (set_job which (Some (job_ended_badly ret j)) (session m))
          = temp_path (session m)) as Ht by (destruct which; reflexivity).
  assert (tar_pid (set_job which (Some (job_ended_badly ret j)) (session m))
          = tar_pid (session m)) as Hp by (destruct which; reflexivity).
  rewrite Ht, Hp. repeat split.
Qed.

(** ** The first two steps of a pull *)

(** The end of a job that ended well, by the exit of its branch. *)
Lemma import_job_finish_well which body m j :
  job_of which (session m) = Some j -> job_finished j = false ->
  import_job_finish which 0 body m
  = match on_finished_branch which (job_ended_well body j)
            (with_job which (job_ended_well body j) m) with
    | None => None
    | Some (GotoFinish r m2) => Some (finish r m2)
    | Some (FallThrough m2) => on_finished_tail m2
    end.
Proof.
  intros Hj Hfin. unfold import_job_finish. rewrite Hj, Hfin. cbn [Z.eqb].
  unfold dkr_import_job_on_finished.
  change (job_set_error 0
            (job_set_payload body (job_set_state IMPORT_JOB_DONE j)))
    with (job_ended_well body j).
  change (set_session
            (set_job which (Some (job_ended_well body j)) (session m)) m)
    with (with_job which (job_ended_well body j) m).
  assert (job_of which (session (with_job which (job_ended_well body j) m))
          = Some (job_ended_well body j)) as Hj1
    by (unfold with_job; cbn [session set_session]; apply job_of_set_job).
  rewrite Hj1. reflexivity.
Qed.

(** While one of the tags, ancestry and json jobs is not done the pull
    is not done. *)
Lemma is_done_waits i :
  images_job i <> None ->
  job_done (tags_job i) = false \/ job_done (ancestry_job i) = false
  \/ job_done (json_job i) = false ->
  dkr_import_is_done i = Some false.
Proof.
  unfold dkr_import_is_done. intros Hi H.
  destruct (images_job i); [|contradiction].
  destruct (job_done (Some i0)); [|reflexivity].
  destruct (job_done (tags_job i)); [|reflexivity].
  destruct (job_done (ancestry_job i)); [|reflexivity].
  destruct (job_done (json_job i)); [|reflexivity].
  destruct H as [H|[H|H]]; discriminate.
Qed.

Lemma on_finished_tail_waits m :
  dkr_import_is_done (session m) = Some false -> on_finished_tail m = Some m.
Proof. unfold on_finished_tail. intros ->. reflexivity. Qed.

(** X14.  In a running pull, let the images job end well.  Without a
    registry from the index the pull ends with [-EBADMSG] and no tags job
    is made.  Otherwise the progress 5 is sent, the tags job is made for
    the first registry with the name and tag of the pull, and it is
    begun; the pull goes on unless [import_job_begin] fails, whose error
    then ends it.  The world is not touched. *)
Theorem images_job_done_starts_tags (w0 : World) (m : Machine)
    (j : ImportJob) (body : string) :
  reachable w0 m -> completed m = [] ->
  images_job (session m) = Some j -> job_finished j = false ->
  exists m',
    deliver (EvFinished IMAGES 0 body) m = Some m'
    /\ world m' = world m
    /\ match response_registries (session m) with
       | [] =>
           completed m' = [- EBADMSG] /\ requests m' = requests m
           /\ notified m' = notified m /\ tags_job (session m') = None
       | registry :: _ =>
           exists jt,
             tags_job (session m') = Some jt
             /\ url jt
                = tags_url registry (name (session m)) (tag (session m))
             /\ requests m' = requests m ++ [(TAGS, url jt)]
             /\ notified m' = notified m ++ [5]
             /\ completed m'
                = (if import_job_begin jt <? 0 then [import_job_begin jt]
                   else [])
       end.
Proof.
  intros Hr Hc Hj Hfin. unfold deliver. rewrite Hc.
  rewrite (import_job_finish_well IMAGES body m j Hj Hfin).
  cbn [on_finished_branch].
  destruct (later_jobs_absent _ _ Hr) as [Hi [Ht [Ha [Htn Han]]]].
  rewrite Hj in Hi. specialize (Hi (job_done_unfinished _ Hfin)).
  destruct (Ht (Htn Hi)) as [Hanc Hjs].
  destruct (Ha (Han Hanc)) as [Hl _].
  destruct (on_finished_images_returns
              (with_job IMAGES (job_ended_well body j) m))
    as [b Hb]; try assumption.
  rewrite Hb.
  destruct (on_finished_images_cases _ _ Hb)
    as [_ [_ [_ [_ [[Hreg ->]|[registry [rest Hm]]]]]]].
  - unfold with_job in Hreg. fields. rewrite Hreg.
    eexists. split; [reflexivity|]. split; [reflexivity|].
    unfold with_job. fields. rewrite Hc.
    repeat split. exact Hi.
  - cbv zeta in Hm. destruct Hm as [Hreg ->].
    unfold with_job in Hreg. fields. rewrite Hreg.
    unfold with_job, new_job. fields.
    assert (progress_value
              (set_images_job (Some (job_ended_well body j)) (session m))
              DKR_RESOLVING = 5) as Hpv.
    { unfold progress_value. fields. rewrite Hi. reflexivity. }
    clear Hb. destruct (import_job_begin _ <? 0) eqn:Hneg.
    + eexists. split; [reflexivity|]. split; [reflexivity|].
      eexists. split; [reflexivity|]. fields. rewrite Hneg, Hpv, Hc.
      repeat split.
    + rewrite on_finished_tail_waits.
      * eexists. split; [reflexivity|]. split; [reflexivity|].
        eexists. split; [reflexivity|]. fields. rewrite Hneg, Hpv, Hc.
        repeat split.
      * apply is_done_waits; fields; [discriminate|]. left. reflexivity.
Qed.

(** X15.  In a running pull, let the tags job end well with the payload
    [body].  If [parse_id] refuses the payload, its error ends the pull,
    the id stays and nothing is requested.  Otherwise the id is stored,
    the progress 10 is sent, and the ancestry job and the json job are
    made for that id at the first registry; the ancestry job is begun
    first and the json job only if that succeeded; a failing
    [import_job_begin] ends the pull with its error. *)
Theorem tags_job_done_starts_metadata (w0 : World) (m : Machine)
    (j : ImportJob) (body : string) :
  reachable w0 m -> completed m = [] ->
  tags_job (session m) = Some j -> job_finished j = false ->
  exists m',
    deliver (EvFinished TAGS 0 body) m = Some m'
    /\ world m' = world m
    /\ match parse_id body with
       | inl e =>
           completed m' = [e] /\ requests m' = requests m
           /\ notified m' = notified m /\ id (session m') = id (session m)
           /\ ancestry_job (session m') = None
       | inr new_id =>
           exists ja jj,
             id (session m') = new_id
             /\ ancestry_job (session m') = Some ja
             /\ json_job (session m') = Some jj
             /\ url ja
                = image_url (registry_of (session m)) new_id "/ancestry"
             /\ url jj = image_url (registry_of (session m)) new_id "/json"
             /\ notified m' = notified m ++ [10]
             /\ (if import_job_begin ja <? 0
                 then requests m' = requests m ++ [(ANCESTRY, url ja)]
                      /\ completed m' = [import_job_begin ja]
                 else requests m'
                      = requests m ++ [(ANCESTRY, url ja); (JSON, url jj)]
                      /\ completed m'
                         = (if import_job_begin jj <? 0
                            then [import_job_begin jj] else []))
       end.
Proof.
  intros Hr Hc Hj Hfin. unfold deliver. rewrite Hc.
  rewrite (import_job_finish_well TAGS body m j Hj Hfin).
  cbn [on_finished_branch].
  destruct (later_jobs_absent _ _ Hr) as [_ [Ht [Ha [_ Han]]]].
  rewrite Hj in Ht. destruct (Ht (job_done_unfinished _ Hfin)) as [Hanc Hjs].
  destruct (Ha (Han Hanc)) as [Hl _].
  pose proof (reachable_shape _ _ Hr) as Hs.
  destruct Hs as [_ [Hregs _]].
  assert (response_registries (session m) <> []) as Hreg0
    by (apply Hregs; rewrite Hj; discriminate).
  destruct (on_finished_tags_returns (job_ended_well body j)
              (with_job TAGS (job_ended_well body j) m))
    as [b Hb]; try assumption.
  rewrite Hb.
  destruct (on_finished_tags_cases _ _ _ Hb)
    as [_ [_ [_ [[r [Hid ->]]|[new_id [registry [rest Hm]]]]]]].
  - change (payload (job_ended_well body j)) with body in Hid.
    rewrite Hid. eexists. split; [reflexivity|]. split; [reflexivity|].
    unfold with_job. fields. rewrite Hc. repeat split. exact Hanc.
  - cbv zeta in Hm. destruct Hm as [Hid [Hreg ->]].
    change (payload (job_ended_well body j)) with body in Hid.
    rewrite Hid. unfold with_job in Hreg. fields.
    unfold registry_of. rewrite Hreg. cbn [hd].
    unfold with_job, new_job. fields.
    assert (progress_value
              (set_id new_id
                 (set_tags_job (Some (job_ended_well body j)) (session m)))
              DKR_METADATA = 10) as Hpv.
    { unfold progress_value. fields. rewrite Hanc, Hjs. reflexivity. }
    clear Hb.
    set (ja := dkr_import_add_token _
                 (import_job_new (image_url registry new_id "/ancestry"))).
    set (jj := dkr_import_add_token _
                 (import_job_new (image_url registry new_id "/json"))).
    destruct (import_job_begin ja <? 0) eqn:Hneg1.
    + eexists. split; [reflexivity|]. split; [reflexivity|].
      exists ja, jj. split; [reflexivity|]. split; [reflexivity|].
      split; [reflexivity|]. rewrite Hneg1. fields. rewrite Hpv, Hc.
      repeat split.
    + destruct (import_job_begin jj <? 0) eqn:Hneg2.
      * eexists. split; [reflexivity|]. split; [reflexivity|].
        exists ja, jj. split; [reflexivity|]. split; [reflexivity|].
        split; [reflexivity|]. rewrite Hneg1, Hneg2. fields.
        rewrite Hpv, Hc, <- app_assoc. repeat split.
      * rewrite on_finished_tail_waits.
        -- eexists. split; [reflexivity|]. split; [reflexivity|].
           exists ja, jj. split; [reflexivity|]. split; [reflexivity|].
           split; [reflexivity|]. rewrite Hneg1, Hneg2. fields.
           rewrite Hpv, Hc, <- app_assoc. repeat split.
        -- apply is_done_waits; fields.
           ++ destruct (reachable_invariant _ _ Hr) as [Himg _]. exact Himg.
           ++ right. left. reflexivity.
Qed.

(** ** dkr_import_pull_layer as a whole *)

(** X3.  [dkr_import_pull_layer], called as its assertions demand (no
    layer job, no temporary and no final path) on a session whose cursor
    is within the ancestry and that knows a registry, returns.  It touches
    neither the world nor the progress nor the result of the pull, and it
    moves the cursor forward over layers whose final directory is present,
    up to the first layer that is not.  At the end of the ancestry it
    returns 0 and requests nothing; if [laccess] fails on a layer other
    than with [ENOENT] it returns that error and requests nothing; for a
    layer that is missing it sets [final_path] to the layer's directory,
    creates the layer job for the first registry and begins it, returning
    [import_job_begin]'s result if that is negative and 0 otherwise. *)
Theorem dkr_import_pull_layer_spec (m : Machine) :
  layer_job (session m) = None ->
  temp_path (session m) = None ->
  final_path (session m) = None ->
  0 <= current_ancestry (session m) <= strv_length (ancestry (session m)) ->
  response_registries (session m) <> [] ->
  exists r m',
    dkr_import_pull_layer m = Some (r, m')
    /\ world m' = world m /\ notified m' = notified m
    /\ completed m' = completed m
    /\ ancestry (session m') = ancestry (session m)
    /\ current_ancestry (session m) <= current_ancestry (session m')
       <= strv_length (ancestry (session m))
    /\ (forall k,
          current_ancestry (session m) <= k < current_ancestry (session m') ->
          exists layer,
            nth_error (ancestry (session m)) (Z.to_nat k) = Some layer
            /\ layer_present (world m) (image_root (session m)) layer)
    /\ ((r = 0
         /\ current_ancestry (session m') = strv_length (ancestry (session m))
         /\ layer_job (session m') = None /\ final_path (session m') = None
         /\ requests m' = requests m)
        \/ (exists layer,
              dkr_import_current_layer (session m') = Some layer
              /\ r = laccess (world m)
                       (layer_path (image_root (session m)) layer)
              /\ r < 0 /\ r <> - ENOENT
              /\ layer_job (session m') = None
              /\ final_path (session m') = None
              /\ requests m' = requests m)
        \/ (exists layer j,
              dkr_import_current_layer (session m') = Some layer
              /\ laccess (world m)
                   (layer_path (image_root (session m)) layer) = - ENOENT
              /\ layer_job (session m') = Some j
              /\ url j = image_url (registry_of (session m)) layer "/layer"
              /\ final_path (session m')
                 = Some (layer_path (image_root (session m)) layer)
              /\ requests m' = requests m ++ [(LAYER, url j)]
              /\ r = (if import_job_begin j <? 0 then import_job_begin j
                      else 0))).
Proof.
  intros Hl Ht Hf Hc Hreg.
  destruct (pull_layer_outcome m Hl Ht Hf Hc Hreg)
    as [r [m' [c [Heq [Hb [Hskip Hcases]]]]]].
  exists r, m'. split; [exact Heq|].
  assert (forall layer,
             nth_error (ancestry (session m)) (Z.to_nat c) = Some layer ->
             forall i',
               ancestry i' = ancestry (session m) ->
               current_ancestry i' = c ->
               dkr_import_current_layer i' = Some layer) as Hcurrent.
  { intros layer Hnth i' Ha Hcc. apply current_layer_nth; [lia|].
    rewrite Ha, Hcc. exact Hnth. }
  destruct Hcases
    as [[Hend [-> ->]]
       |[[layer [Hnth [Hr [Hneg [Hne ->]]]]]
        |[layer [registry [rest Hm]]]]].
  - fields. do 4 (split; [reflexivity|]). split; [exact Hb|].
    split; [exact Hskip|]. left. rewrite Hl, Hf. repeat split. exact Hend.
  - fields. do 4 (split; [reflexivity|]). split; [exact Hb|].
    split; [exact Hskip|]. right. left. exists layer.
    rewrite Hl, Hf.
    split; [apply (Hcurrent layer Hnth); reflexivity|].
    repeat split; assumption.
  - cbv zeta in Hm. destruct Hm as [Hnth [Hacc [Hregs [Hr ->]]]].
    unfold new_layer_job in *. fields.
    do 4 (split; [reflexivity|]). split; [exact Hb|].
    split; [exact Hskip|]. right. right. exists layer. eexists.
    split; [apply (Hcurrent layer Hnth); reflexivity|].
    split; [exact Hacc|]. split; [reflexivity|].
    unfold registry_of. rewrite Hregs. cbn [hd]. fields.
    split; [reflexivity|]. split; [reflexivity|]. split; [reflexivity|].
    exact Hr.
Qed.

(** ** A second pull: no job fails while the pull runs, and it ends *)











End OrchestratorTheorems.

(** * A registry with two layers: the theorems at work *)

Import Sample.

Lemma reachable_after {JT : JsonTokenizer} {PR : Predicates} {SY : System}
    (w0 : World) (evs : list Event) (m : Machine) :
  reachable w0 m -> run evs m <> None -> reachable w0 (after evs m).
Proof.
  intros Hr Hrun. unfold after.
  destruct (run evs m) as [m'|] eqn:H; [|contradiction].
  exact (reachable_run _ _ _ _ Hr H).
Qed.

Lemma started_reachable (w : World) : reachable w (started_in w).
Proof.
  apply (reachable_pull w true "https://index.example/"
           (Some "/img"%string)
           new_session "library/busybox" None None false 0).
  - reflexivity.
  - reflexivity.
  - lia.
Qed.

Lemma resolved_reachable_empty : reachable (SY := system) [] (resolved_in []).
Proof.
  apply reachable_after; [apply started_reachable|].
  vm_compute. discriminate.
Qed.

Lemma downloading_reachable : reachable (SY := system) [] downloading.
Proof.
  apply reachable_after; [apply resolved_reachable_empty|].
  vm_compute. discriminate.
Qed.

Lemma extracting_reachable : reachable (SY := system) [] extracting.
Proof.
  apply reachable_after; [apply downloading_reachable|].
  vm_compute. discriminate.
Qed.

Lemma pulled_reachable : reachable (SY := system) [] pulled.
Proof.
  apply reachable_after; [apply started_reachable|].
  vm_compute. discriminate.
Qed.


(** ** C1 *)

(** The ancestry job has ended and the json job has not: the first layer
    is already requested.  C1 as the spec states it fails here. *)
Lemma layer_requested_before_json_done :
  reachable (SY := system) [] downloading /\ ~ download_waits_for_metadata downloading.
Proof.
  split; [exact downloading_reachable|].
  unfold download_waits_for_metadata. intro H.
  assert (layer_requests downloading <> []) as Hreq
    by (vm_compute; discriminate).
  destruct (H Hreq) as [_ Hjson]. vm_compute in Hjson. discriminate.
Qed.

Lemma download_follows_ancestry_witness :
  reachable (SY := system) [] downloading
  /\ (layer_requests downloading <> [] ->
      job_done (images_job (session downloading)) = true
      /\ job_done (tags_job (session downloading)) = true
      /\ job_done (ancestry_job (session downloading)) = true).
Proof.
  split; [exact downloading_reachable|].
  exact (proj1 (download_follows_ancestry [] downloading
                  downloading_reachable)).
Defined.

(** ** C3 *)

Ltac read_token H :=
  let Htok := fresh "Htok" in
  let Hrest := fresh "Hrest" in
  inversion H as [|? ? ? ? ? ? ? ? Htok Hrest]; subst; clear H;
  vm_compute in Htok; inversion Htok; subst; clear Htok.

(** [parse_ancestry] accepts an array with a comma after its last
    string, which the grammar of the spec does not produce. *)
Lemma parse_ancestry_trailing_comma :
  parse_ancestry trailing_comma_payload = Some (inr [layerB])
  /\ ~ ancestry_accepted_strict trailing_comma_payload [layerB].
Proof.
  split; [vm_compute; reflexivity|].
  intros [_ [_ [ids [[p [js Hr]] _]]]].
  unfold array_tokens in Hr. cbn [app] in Hr.
  read_token Hr.
  destruct ids as [|s [|s2 ids]]; cbn [sep_by_comma app] in Hrest.
  - read_token Hrest.
  - read_token Hrest. read_token Hrest0.
  - destruct ids; cbn [sep_by_comma app] in Hrest.
    + read_token Hrest. read_token Hrest0. read_token Hrest.
    + read_token Hrest. read_token Hrest0. read_token Hrest.
Qed.

Example parse_ancestry_two_layers :
  parse_ancestry ancestry_payload = Some (inr [layerA; layerB]).
Proof. vm_compute. reflexivity. Qed.

Example parse_ancestry_duplicate :
  parse_ancestry ("[" ++ quoted layerA ++ "," ++ quoted layerA ++ "]")%string
  = Some (inl (- EBADMSG)).
Proof. vm_compute. reflexivity. Qed.

Example parse_ancestry_2049_entries :
  parse_ancestry oversized_payload = Some (inl (- EFBIG)).
Proof. vm_compute. reflexivity. Qed.

Example parse_ancestry_empty_array :
  parse_ancestry "[]"%string = Some (inl (- EBADMSG)).
Proof. vm_compute. reflexivity. Qed.

(** ** C4 *)

Lemma ancestry_mismatch_fails_witness :
  last [layerA] EmptyString <> id (session (resolved_in []))
  /\ exists m',
       deliver (EvFinished ANCESTRY 0 mismatch_payload) (resolved_in [])
       = Some m'
       /\ completed m' = [- EBADMSG]
       /\ layer_requests m' = []
       /\ world m' = ([] : Paths)
       /\ (forall evs m'', run evs m' = Some m'' -> evs = [] /\ m'' = m').
Proof.
  split; [vm_compute; discriminate|].
  eapply (ancestry_mismatch_fails (SY := system) [] (resolved_in []) _
            mismatch_payload [layerA]).
  - exact resolved_reachable_empty.
  - vm_compute. reflexivity.
  - vm_compute. reflexivity.
  - reflexivity.
  - vm_compute. reflexivity.
  - vm_compute. discriminate.
Defined.

(** ** C6 *)


Example second_pull_leaves_world :
  run [EvFinished ANCESTRY 0 ancestry_payload; EvFinished JSON 0 "{}"%string]
    (resolved_in pulled_world)
  = Some (after [EvFinished ANCESTRY 0 ancestry_payload;
                 EvFinished JSON 0 "{}"%string] (resolved_in pulled_world))
  /\ completed (after [EvFinished ANCESTRY 0 ancestry_payload;
                       EvFinished JSON 0 "{}"%string]
                  (resolved_in pulled_world)) = [0]
  /\ world (after [EvFinished ANCESTRY 0 ancestry_payload;
                   EvFinished JSON 0 "{}"%string]
              (resolved_in pulled_world)) = pulled_world.
Proof. vm_compute. repeat split. Qed.

(** ** C7 *)

(** The cursor is at the second layer and the final directory of the
    first is gone: the code still snapshots it, which fails with
    [-ENOENT] and makes nothing, where the spec has a fresh subvolume
    made. *)
Lemma open_disk_with_parent_removed :
  current_ancestry (session parent_removed) = 1
  /\ ~ layer_present (world parent_removed) "/img" layerA
  /\ option_map fst (dkr_import_job_on_open_disk parent_removed)
     = Some (- ENOENT)
  /\ option_map (fun x => world (snd x))
       (dkr_import_job_on_open_disk parent_removed)
     = Some (world parent_removed)
  /\ option_map fst (on_open_disk_as_specified parent_removed) = Some 0
  /\ dkr_import_job_on_open_disk parent_removed
     <> on_open_disk_as_specified parent_removed.
Proof.
  split; [reflexivity|].
  split; [unfold layer_present; vm_compute; intro H; apply H; reflexivity|].
  split; [vm_compute; reflexivity|].
  split; [vm_compute; reflexivity|].
  split; [vm_compute; reflexivity|].
  intro H. apply (f_equal (option_map fst)) in H. vm_compute in H.
  discriminate.
Qed.

Lemma on_open_disk_subvolume_witness :
  tar_pid (session downloading) <= 0
  /\ exists r m',
       dkr_import_job_on_open_disk downloading = Some (r, m')
       /\ temp_path (session m')
          = Some (tempfn_random (world downloading)
                    (layer_path "/img" layerA)).
Proof.
  assert (tar_pid (session downloading) <= 0) as Hpid
    by (vm_compute; discriminate).
  assert (exists j, layer_job (session downloading) = Some j) as [j Hj]
    by (eexists; vm_compute; reflexivity).
  assert (final_path (session downloading)
          = Some (layer_path "/img" layerA)) as Hfinal
    by (vm_compute; reflexivity).
  assert (temp_path (session downloading) = None) as Htemp
    by (vm_compute; reflexivity).
  split; [exact Hpid|].
  destruct (on_open_disk_subvolume downloading j (layer_path "/img" layerA)
              Hj Hfinal Htemp Hpid) as [r [m' [Hres [Htp _]]]].
  exists r, m'. split; [exact Hres | exact Htp].
Defined.

(** ** C8 *)

Lemma started_without_btrfs_reachable :
  reachable (SY := system_without_btrfs) [] started_without_btrfs.
Proof.
  apply (reachable_pull (SY := system_without_btrfs) [] true
           "https://index.example/" (Some "/img"%string)
           new_session "library/busybox" None None false 0).
  - reflexivity.
  - reflexivity.
  - lia.
Qed.

(** On a file system without btrfs [dkr_import_job_on_open_disk] fails
    after it has set [temp_path]: the pull ends with [temp_path] set and
    no tar child, so the invariant does not survive this callback. *)
Lemma open_disk_failure_breaks_invariant :
  reachable (SY := system_without_btrfs) [] downloading_without_btrfs
  /\ extraction_invariant downloading_without_btrfs
  /\ exists m',
       deliver (SY := system_without_btrfs) EvOpenDisk
         downloading_without_btrfs = Some m'
       /\ completed m' = [- ENOTTY]
       /\ ~ extraction_invariant m'.
Proof.
  split.
  { apply reachable_after; [apply started_without_btrfs_reachable|].
    vm_compute. discriminate. }
  split.
  { unfold extraction_invariant.
    split; [|split; [intro H; exfalso; apply H|]]; vm_compute;
      try reflexivity.
    split; [intro H; exfalso; apply H; reflexivity | discriminate]. }
  eexists. split; [vm_compute; reflexivity|].
  split; [reflexivity|].
  intros [[H _] _].
  assert (0 < 0) as Hlt by (apply H; vm_compute; discriminate).
  lia.
Qed.

Lemma extraction_invariant_while_running_witness :
  reachable (SY := system) [] extracting
  /\ completed extracting = []
  /\ extraction_invariant extracting
  /\ (live_layer_jobs extracting <= 1)%nat.
Proof.
  split; [exact extracting_reachable|].
  split; [reflexivity|].
  exact (proj1 (extraction_invariant_while_running (SY := system) []
                  extracting extracting_reachable) eq_refl).
Defined.

(** ** C10 *)

(** After a pull has ended, a call with a name that fails the check is
    answered with [-EINVAL], not with [-EBUSY]. *)
Lemma pull_after_completion_with_invalid_name :
  reachable (SY := system) [] pulled
  /\ completed pulled = [0]
  /\ fst (dkr_import_pull "Bad Name" None None false pulled) = - EINVAL
  /\ fst (dkr_import_pull "Bad Name" None None false pulled) <> - EBUSY.
Proof.
  split; [exact pulled_reachable|].
  split; [vm_compute; reflexivity|].
  split; [vm_compute; reflexivity | vm_compute; discriminate].
Qed.

Lemma pull_is_single_use_witness :
  reachable (SY := system) [] pulled
  /\ dkr_import_pull "library/busybox" (Some "latest"%string) None false
       pulled = (- EBUSY, pulled).
Proof.
  split; [exact pulled_reachable|].
  exact (pull_is_single_use (SY := system) [] pulled "library/busybox"
           (Some "latest"%string) None false pulled_reachable).
Defined.

(** ** C2 *)

(** C2, on the code.  Two pulls race for the same layer; the first has
    sealed it, so the [rename] of the second fails with [EEXIST].  The
    second pull then ends with the result 0 delivered at [finish:], not
    with [-EEXIST]; its temporary subvolume is still there when the
    callback runs and is removed by [dkr_import_unref]. *)
Theorem rename_race_reports_success :
  match temp_path (session second_about_to_seal),
        final_path (session second_about_to_seal) with
  | Some temp, Some final =>
      fst (rename (world second_about_to_seal) temp final) = - EEXIST
      /\ exists m',
           deliver (EvFinished LAYER 0 EmptyString) second_about_to_seal
           = Some m'
           /\ completed m' = [0]
           /\ temp_path (session m') = Some temp
           /\ present (world m') temp = true
           /\ present (dkr_import_unref m') temp = false
  | _, _ => False
  end.
Proof.
  vm_compute. split; [reflexivity|].
  eexists. repeat split.
Qed.

(** ** C5 *)

(** C5, on the code.  A pull that succeeds, with job progress that never
    goes down: the json job reports progress after the download began,
    and the percentage sent to the supervisor falls from 57 to 17 and
    from 94 to 20 before it ends at 95. *)
Theorem progress_falls_in_successful_pull :
  run whole_pull (started_in []) = Some pulled
  /\ completed pulled = [0]
  /\ notified pulled = [5; 5; 10; 10; 15; 20; 57; 17; 94; 20; 95]
  /\ non_decreasing (notified pulled) = false.
Proof. vm_compute. repeat split. Qed.

(** * The callbacks at work on the sample registry *)

Lemma indexed_reachable : reachable (SY := system) [] indexed.
Proof.
  apply reachable_after; [apply started_reachable|].
  vm_compute. discriminate.
Qed.

Lemma tags_pending_reachable : reachable (SY := system) [] tags_pending.
Proof.
  apply reachable_after; [apply started_reachable|].
  vm_compute. discriminate.
Qed.

(** ** X3 *)

(** The scan steps over [layerA], which is present, and requests
    [layerB]. *)
Lemma dkr_import_pull_layer_spec_witness :
  layer_job (session scanning) = None
  /\ temp_path (session scanning) = None
  /\ final_path (session scanning) = None
  /\ 0 <= current_ancestry (session scanning)
     <= strv_length (ancestry (session scanning))
  /\ response_registries (session scanning) <> []
  /\ exists r m',
       dkr_import_pull_layer scanning = Some (r, m')
       /\ world m' = world scanning
       /\ current_ancestry (session scanning)
          <= current_ancestry (session m')
          <= strv_length (ancestry (session scanning)).
Proof.
  assert (layer_job (session scanning) = None) as Hl
    by (vm_compute; reflexivity).
  assert (temp_path (session scanning) = None) as Ht
    by (vm_compute; reflexivity).
  assert (final_path (session scanning) = None) as Hf
    by (vm_compute; reflexivity).
  assert (0 <= current_ancestry (session scanning)
          <= strv_length (ancestry (session scanning))) as Hc
    by (vm_compute; split; discriminate).
  assert (response_registries (session scanning) <> []) as Hreg
    by (vm_compute; discriminate).
  repeat (split; [assumption|]).
  destruct (dkr_import_pull_layer_spec (SY := system) scanning Hl Ht Hf Hc
              Hreg) as [r [m' [Heq [Hw [_ [_ [_ [Hb _]]]]]]]].
  exists r, m'. split; [exact Heq|]. split; [exact Hw | exact Hb].
Defined.

Example scanning_requests_second_layer :
  exists r m',
    dkr_import_pull_layer scanning = Some (r, m')
    /\ r = 0 /\ current_ancestry (session m') = 1
    /\ requests m'
       = (requests scanning
          ++ [(LAYER,
               ("https://r.example/v1/images/" ++ layerB ++ "/layer")%string)])%list.
Proof. eexists _, _. vm_compute. repeat split. Qed.

(** ** X5 *)

Lemma dkr_import_pull_occupies_session_witness :
  pull_arguments_valid "library/busybox" None None = true
  /\ pull_arguments_valid "library/alpine" (Some "3"%string) None = true
  /\ images_job (session (machine_of new_session [])) = None
  /\ dkr_import_pull "library/alpine" (Some "3"%string) None true
       (started_in [])
     = (- EBUSY, started_in []).
Proof.
  assert (pull_arguments_valid "library/busybox" None None = true) as Hv
    by (vm_compute; reflexivity).
  assert (pull_arguments_valid "library/alpine" (Some "3"%string) None = true)
    as Hv2 by (vm_compute; reflexivity).
  assert (images_job (session (machine_of (SY := system) new_session []))
          = None) as Hi by (vm_compute; reflexivity).
  repeat (split; [assumption|]).
  exact (proj2 (dkr_import_pull_occupies_session (SY := system)
                  "library/busybox" None None false
                  (machine_of new_session [])
                  "library/alpine" (Some "3"%string) None true Hv Hv2 Hi
                  0 (started_in []) eq_refl)).
Defined.

(** ** X6 *)

Lemma callbacks_keep_their_assertions_witness :
  reachable (SY := system) [] downloading
  /\ completed downloading = []
  /\ (exists m', deliver EvOpenDisk downloading = Some m')
  /\ (exists m',
        deliver (EvFinished JSON 0 "{}"%string) downloading = Some m').
Proof.
  assert (completed downloading = []) as Hc by (vm_compute; reflexivity).
  split; [exact downloading_reachable|]. split; [exact Hc|].
  destruct (callbacks_keep_their_assertions (SY := system) [] downloading
              downloading_reachable Hc) as [_ [_ [Hopen Hfinish]]].
  split.
  - assert (exists j,
               layer_job (session downloading) = Some j
               /\ job_finished j = false) as [j [Hj Hfin]]
      by (eexists; split; vm_compute; reflexivity).
    apply (Hopen j Hj Hfin). vm_compute. reflexivity.
  - assert (exists j,
               job_of JSON (session downloading) = Some j
               /\ job_finished j = false) as [j [Hj Hfin]]
      by (eexists; split; vm_compute; reflexivity).
    apply (Hfinish JSON j 0 "{}"%string Hj Hfin).
    intro Hslot. discriminate Hslot.
Defined.

(** ** X7 *)

Lemma session_ancestry_well_formed_witness :
  reachable (SY := system) [] extracting
  /\ ancestry_well_formed (session extracting)
  /\ current_ancestry (session extracting) < n_ancestry (session extracting).
Proof.
  split; [exact extracting_reachable|].
  destruct (session_ancestry_well_formed (SY := system) [] extracting
              extracting_reachable) as [Hwf [_ [Hcur _]]].
  split; [exact Hwf|]. apply Hcur. vm_compute. discriminate.
Defined.

(** ** X8 *)

Lemma progress_stays_in_phase_range_witness :
  reachable (SY := system) [] pulled
  /\ Forall (fun p => 0 <= p <= 95) (notified pulled).
Proof.
  split; [exact pulled_reachable|].
  exact (proj2 (progress_stays_in_phase_range (SY := system) [] pulled
                  pulled_reachable)).
Defined.

(** ** X9 *)

Lemma requests_follow_protocol_order_witness :
  reachable (SY := system) [] pulled
  /\ exists (k n : nat),
       request_kinds pulled
       = firstn k [IMAGES; TAGS; ANCESTRY; JSON] ++ repeat LAYER n
       /\ (1 <= k <= 4)%nat
       /\ (n <> 0%nat -> k = 4%nat)
       /\ (completed pulled = [] -> k <> 3%nat).
Proof.
  split; [exact pulled_reachable|].
  exact (requests_follow_protocol_order (SY := system) [] pulled
           pulled_reachable).
Defined.

Example pulled_request_kinds :
  request_kinds pulled = [IMAGES; TAGS; ANCESTRY; JSON; LAYER; LAYER].
Proof. vm_compute. reflexivity. Qed.

(** ** X10 *)

Lemma requests_go_to_first_registry_witness :
  reachable (SY := system) [] pulled
  /\ forallb hostname_is_valid (response_registries (session pulled)) = true
  /\ Forall (request_url_ok (session pulled)) (requests pulled).
Proof.
  split; [exact pulled_reachable|].
  destruct (requests_go_to_first_registry (SY := system) [] pulled
              pulled_reachable) as [Hv Hq].
  split; [exact Hv|]. apply Forall_forall. intros q Hin.
  exact (proj1 (Hq q Hin)).
Defined.

(** ** X11 *)

Lemma layers_requested_once_in_order_witness :
  reachable (SY := system) [] pulled
  /\ exists idxs : list nat,
       layer_requests pulled = map (layer_request_at (session pulled)) idxs
       /\ StronglySorted lt idxs.
Proof.
  split; [exact pulled_reachable|].
  destruct (layers_requested_once_in_order (SY := system) [] pulled
              pulled_reachable) as [idxs [Hreq [Hs _]]].
  exists idxs. split; [exact Hreq | exact Hs].
Defined.

(** ** X12 *)

Lemma jobs_present_the_token_witness :
  reachable (SY := system) [] downloading
  /\ forall j,
       layer_job (session downloading) = Some j ->
       request_header j
       = ["Accept: application/json"%string;
          "Authorization: Token T"%string].
Proof.
  split; [exact downloading_reachable|].
  destruct (jobs_present_the_token (SY := system) [] downloading
              downloading_reachable) as [_ Hlater].
  intros j Hj. apply (Hlater LAYER j); [discriminate | exact Hj].
Defined.

(** ** X13 *)

(** The layer job fails with [-EIO] (5): the pull ends with that error. *)
Lemma failed_job_ends_the_pull_witness :
  completed downloading = []
  /\ exists m',
       deliver (EvFinished LAYER (-5) ""%string) downloading = Some m'
       /\ completed m' = [-5]
       /\ requests m' = requests downloading
       /\ world m' = world downloading.
Proof.
  assert (completed downloading = []) as Hc by (vm_compute; reflexivity).
  split; [exact Hc|].
  assert (exists j,
             job_of LAYER (session downloading) = Some j
             /\ job_finished j = false) as [j [Hj Hfin]]
    by (eexists; split; vm_compute; reflexivity).
  destruct (failed_job_ends_the_pull (SY := system) downloading LAYER j (-5)
              ""%string Hc Hj Hfin)
    as [m' [Hd [Hcm [_ [Hw [Hreq _]]]]]]; [discriminate|].
  exists m'. repeat split; assumption.
Defined.

(** ** X14 *)

Lemma images_job_done_starts_tags_witness :
  reachable (SY := system) [] indexed
  /\ completed indexed = []
  /\ exists m',
       deliver (EvFinished IMAGES 0 ""%string) indexed = Some m'
       /\ world m' = world indexed.
Proof.
  assert (completed indexed = []) as Hc by (vm_compute; reflexivity).
  split; [exact indexed_reachable|]. split; [exact Hc|].
  assert (exists j,
             images_job (session indexed) = Some j
             /\ job_finished j = false) as [j [Hj Hfin]]
    by (eexists; split; vm_compute; reflexivity).
  destruct (images_job_done_starts_tags (SY := system) [] indexed j ""%string
              indexed_reachable Hc Hj Hfin) as [m' [Hd [Hw _]]].
  exists m'. split; [exact Hd | exact Hw].
Defined.

Example indexed_requests_tags :
  requests (after [EvFinished IMAGES 0 ""%string] indexed)
  = [(IMAGES, "https://index.example/v1/repositories/library/busybox/images"%string);
     (TAGS, "https://r.example/v1/repositories/library/busybox/tags/latest"%string)].
Proof. vm_compute. reflexivity. Qed.

(** ** X15 *)

Lemma tags_job_done_starts_metadata_witness :
  reachable (SY := system) [] tags_pending
  /\ completed tags_pending = []
  /\ exists m',
       deliver (EvFinished TAGS 0 (quoted layerB)) tags_pending = Some m'
       /\ world m' = world tags_pending.
Proof.
  assert (completed tags_pending = []) as Hc by (vm_compute; reflexivity).
  split; [exact tags_pending_reachable|]. split; [exact Hc|].
  assert (exists j,
             tags_job (session tags_pending) = Some j
             /\ job_finished j = false) as [j [Hj Hfin]]
    by (eexists; split; vm_compute; reflexivity).
  destruct (tags_job_done_starts_metadata (SY := system) [] tags_pending j
              (quoted layerB) tags_pending_reachable Hc Hj Hfin)
    as [m' [Hd [Hw _]]].
  exists m'. split; [exact Hd | exact Hw].
Defined.

(** ** X16 *)

Lemma unref_without_temp_path_witness :
  reachable (SY := system) [] pulled
  /\ temp_path (session pulled) = None
  /\ dkr_import_unref pulled = world pulled.
Proof.
  assert (temp_path (session pulled) = None) as Ht
    by (vm_compute; reflexivity).
  split; [exact pulled_reachable|]. split; [exact Ht|].
  exact (proj1 (unref_without_temp_path (SY := system) [] pulled
                  pulled_reachable) Ht).
Defined.

(** ** X1, X2, X4 *)

Example parse_id_one_string :
  parse_id (quoted layerB) = inr layerB
  /\ parse_id ("[" ++ quoted layerB ++ "]")%string = inl (- EBADMSG)
  /\ parse_id (quoted "not an id") = inl (- EBADMSG)
  /\ parse_id ""%string = inl (- EBADMSG).
Proof. vm_compute. repeat split. Qed.

Example new_session_index_url :
  index_url new_session = "https://index.example"%string
  /\ image_root new_session = "/img"%string.
Proof. vm_compute. split; reflexivity. Qed.

Example on_header_invalid_registry :
  dkr_import_job_on_header "X-Docker-Endpoints: r.example, bad host"
    (session indexed)
  = (- EBADMSG, session indexed).
Proof. vm_compute. reflexivity. Qed.
